(** * Audio visualizer: render pipeline and capture controller

    A shallow embedding of [src/js/visualizer.js] (class [AudioVisualizer])
    and of the recording logic of [src/js/app.js], with the properties the
    specification states about them.

    Conventions of the embedding.
    - JavaScript numbers are exact rationals extended with the three special
      values of IEEE arithmetic ([JS.num]); rounding is not represented,
      and the sign of zero only where the program divides by the zero that
      [parseInt] reads behind a minus sign.
    - Canvas drawing is a trace of context calls ([Canvas.call]) produced in
      a writer monad that can also throw ([Canvas.Draw]); the geometry a
      trace paints is obtained by [Canvas.rects], which follows the
      transformation rules of the 2D context.
    - Host objects (audio element, media recorder, timers) appear as
      explicit inputs of the handlers that consult them.

    Beyond the specification's statements, the development covers the
    fitting of the background, the drawing state a frame leaves behind, the
    pacing of the repaint loop, the download links of a recording session,
    the recording clock and the dragging of overlays; these properties are
    numbered X1 to X20. *)

From Stdlib Require Import ZArith QArith Qround Qabs List String Ascii Bool Lia Lqa Qfield.
Import ListNotations.

Set Implicit Arguments.

(* ------------------------------------------------------------------ *)
(** ** JavaScript values used by the program *)

Module JS.

Local Open Scope Q_scope.

(** A JavaScript number. *)
Inductive num : Type :=
| Fin (q : Q)
| PInf
| NInf
| NaN.

Definition of_Z (z : Z) : num := Fin (inject_Z z).

Definition is_finite (a : num) : bool :=
  match a with Fin _ => true | _ => false end.

Definition sgn (a : num) : Z :=
  match a with
  | Fin q => Z.sgn (Qnum q)
  | PInf => 1
  | NInf => -1
  | NaN => 0
  end.

Definition inf_of_sign (s : Z) : num :=
  match s with
  | Zpos _ => PInf
  | Zneg _ => NInf
  | Z0 => NaN
  end.

Definition neg (a : num) : num :=
  match a with
  | Fin q => Fin (- q)
  | PInf => NInf
  | NInf => PInf
  | NaN => NaN
  end.

Definition add (a b : num) : num :=
  match a, b with
  | NaN, _ | _, NaN => NaN
  | Fin x, Fin y => Fin (x + y)
  | PInf, NInf | NInf, PInf => NaN
  | PInf, _ | _, PInf => PInf
  | NInf, _ | _, NInf => NInf
  end.

Definition sub (a b : num) : num := add a (neg b).

Definition mul (a b : num) : num :=
  match a, b with
  | NaN, _ | _, NaN => NaN
  | Fin x, Fin y => Fin (x * y)
  | _, _ => inf_of_sign (sgn a * sgn b)
  end.

(** Division; a zero divisor counts as positive zero. *)
Definition div (a b : num) : num :=
  match a, b with
  | NaN, _ | _, NaN => NaN
  | Fin x, Fin y => if Qeq_bool y 0 then inf_of_sign (sgn a) else Fin (x / y)
  | Fin _, _ => Fin 0
  | _, Fin y => inf_of_sign (sgn a * (if Qeq_bool y 0 then 1 else sgn b))
  | _, _ => NaN
  end.

(** [a < b]; any comparison with [NaN] is false. *)
Definition ltb (a b : num) : bool :=
  match a, b with
  | NaN, _ | _, NaN => false
  | Fin x, Fin y => negb (Qle_bool y x)
  | NInf, NInf => false
  | NInf, _ => true
  | _, NInf => false
  | PInf, _ => false
  | _, PInf => true
  end.

Definition Qtrunc (x : Q) : Z :=
  if Qle_bool 0 x then Qfloor x else Qceiling x.

(** The remainder operator [%]: the result has the sign of the dividend. *)
Definition Qrem (x m : Q) : Q := x - m * inject_Z (Qtrunc (x / m)).

Definition rem (a b : num) : num :=
  match a, b with
  | Fin x, Fin y => if Qeq_bool y 0 then NaN else Fin (Qrem x y)
  | Fin x, (PInf | NInf) => Fin x
  | _, _ => NaN
  end.

(** [Math.floor] and [Math.min]. *)
Definition floor (a : num) : num :=
  match a with Fin q => of_Z (Qfloor q) | _ => a end.

Definition min (a b : num) : num :=
  match a, b with
  | NaN, _ | _, NaN => NaN
  | _, _ => if ltb b a then b else a
  end.

(** The integer a finite whole number denotes, for use as a loop bound or an
    array index. *)
Definition to_index (a : num) : option Z :=
  match a with
  | Fin q => if Qeq_bool q (inject_Z (Qfloor q)) then Some (Qfloor q) else None
  | _ => None
  end.

Definition finite (a : num) : Prop := exists q, a = Fin q.

(** The value held by the [frameRate] setting: the number [30] of the
    constructor, or the string read from the frame-rate [<select>]. *)
Inductive value : Type :=
| VNum (n : Z)
| VStr (s : string).

(** Truthiness, as tested by [if (newSettings.frameRate)]. *)
Definition truthy (v : value) : bool :=
  match v with
  | VNum n => negb (n =? 0)%Z
  | VStr s => negb (String.eqb s EmptyString)
  end.

Definition code (c : ascii) : Z := Z.of_nat (nat_of_ascii c).

(** Tab, line feed, vertical tab, form feed, carriage return, space. *)
Definition is_whitespace (c : ascii) : bool :=
  let n := code c in
  ((9 <=? n) && (n <=? 13) || (n =? 32))%Z.

Fixpoint skip_whitespace (s : string) : string :=
  match s with
  | String c r => if is_whitespace c then skip_whitespace r else s
  | EmptyString => s
  end.

Definition digit_value (radix : Z) (c : ascii) : option Z :=
  let n := code c in
  let d :=
    if ((48 <=? n) && (n <=? 57))%Z then Some (n - 48)%Z
    else if ((97 <=? n) && (n <=? 122))%Z then Some (n - 87)%Z
    else if ((65 <=? n) && (n <=? 90))%Z then Some (n - 55)%Z
    else None in
  match d with
  | Some k => if (k <? radix)%Z then Some k else None
  | None => None
  end.

(** Reads the longest prefix of digits; [acc] is [None] until a digit has
    been read. *)
Fixpoint read_digits (radix : Z) (s : string) (acc : option Z) : option Z :=
  match s with
  | String c r =>
      match digit_value radix c with
      | Some d =>
          read_digits radix r
            (Some (radix * match acc with Some a => a | None => 0 end + d)%Z)
      | None => acc
      end
  | EmptyString => acc
  end.

Definition strip_sign (s : string) : Z * string :=
  match s with
  | String "-"%char r => ((-1)%Z, r)
  | String "+"%char r => (1%Z, r)
  | _ => (1%Z, s)
  end.

Definition strip_hex_prefix (s : string) : Z * string :=
  match s with
  | String "0"%char (String "x"%char r) => (16%Z, r)
  | String "0"%char (String "X"%char r) => (16%Z, r)
  | _ => (10%Z, s)
  end.

(** [parseInt(s)] without a radix argument, on an ASCII string. *)
Definition parseInt_string (s : string) : num :=
  let (sign, s1) := strip_sign (skip_whitespace s) in
  let (radix, s2) := strip_hex_prefix s1 in
  match read_digits radix s2 None with
  | Some m => of_Z (sign * m)
  | None => NaN
  end.

(** Whether [parseInt] yields the negative zero: a minus sign before digits
    that read 0, as in ["-0"] and ["-0.5"]. *)
Definition parseInt_negative_zero_string (s : string) : bool :=
  let (sign, s1) := strip_sign (skip_whitespace s) in
  let (radix, s2) := strip_hex_prefix s1 in
  match read_digits radix s2 None with
  | Some 0%Z => (sign =? -1)%Z
  | _ => false
  end.

(** The first decimal digit of a positive integer; [fuel] bounds the number
    of its digits. *)
Fixpoint leading_digit (fuel : nat) (n : Z) : Z :=
  match fuel with
  | O => n
  | S k => if (n <? 10)%Z then n else leading_digit k (n / 10)
  end.

(** [parseInt] of a number converts it to a string first.  For an integer
    below 10^21 in magnitude that string is its decimal numeral, which is
    read back unchanged; from 10^21 on it is the exponent notation
    [d.ddde+k], of which [parseInt] reads the sign and the leading digit. *)
Definition parseInt (v : value) : num :=
  match v with
  | VNum n =>
      if (Z.abs n <? 1000000000000000000000)%Z then of_Z n
      else of_Z (Z.sgn n
                 * leading_digit (Z.to_nat (Z.log2 (Z.abs n))) (Z.abs n))
  | VStr s => parseInt_string s
  end.

(** A number is never read as the negative zero: the numeral of 0 has no
    sign. *)
Definition parseInt_negative_zero (v : value) : bool :=
  match v with
  | VNum _ => false
  | VStr s => parseInt_negative_zero_string s
  end.

(** [1000 / parseInt(v)]; the division by the negative zero gives
    [-Infinity]. *)
Definition interval_of (v : value) : num :=
  if parseInt_negative_zero v then NInf else div (Fin 1000) (parseInt v).

(** The decimal numeral with the given digits, most significant first. *)
Definition digit_char (d : Z) : ascii := ascii_of_nat (Z.to_nat (48 + d)).

Fixpoint numeral (ds : list Z) : string :=
  match ds with
  | [] => EmptyString
  | d :: r => String (digit_char d) (numeral r)
  end.

Definition numeral_value (ds : list Z) : Z :=
  fold_left (fun acc d => (10 * acc + d)%Z) ds 0%Z.

Definition is_digit (d : Z) : Prop := (0 <= d <= 9)%Z.

(** The value [fr] is the integer [n], as a number below 10^21 in magnitude
    or as a decimal numeral. *)
Definition denotes (fr : value) (n : Z) : Prop :=
  (fr = VNum n /\ (Z.abs n < 1000000000000000000000)%Z) \/
  exists ds, ds <> [] /\ Forall is_digit ds /\
             fr = VStr (numeral ds) /\ numeral_value ds = n.

End JS.

(* ------------------------------------------------------------------ *)
(** ** The 2D drawing context, as far as the visualizer uses it *)

Module Canvas.

Import JS.
Local Open Scope Q_scope.

(** A colour string.  [Css s] is a literal of the source; [Hsla h] stands for
    the template [hsla(${h}, 80%, 60%, 0.8)] of the rainbow theme. *)
Inductive color : Type :=
| Css (s : string)
| Hsla (hue : Q).

(** A linear gradient with its colour stops, in insertion order. *)
Record gradient : Type := mkGradient {
  g_x0 : Q; g_y0 : Q; g_x1 : Q; g_y1 : Q;
  g_stops : list (Q * color)
}.

Inductive paint : Type :=
| PColor (c : color)
| PGradient (g : gradient).

(** One call on the context, or one assignment to a context attribute.  A
    colour argument of [None] is the value [undefined]. *)
Inductive call : Type :=
| Save
| Restore
| Scale (a b : num)
| Translate (a b : num)
| SetShadowBlur (b : num)
| SetShadowColor (c : option color)
| SetFillStyle (p : option paint)
| SetStrokeStyle (c : option color)
| SetLineWidth (w : num)
| FillRect (x y w h : num)
| BeginPath
| MoveTo (x y : num)
| LineTo (x y : num)
| ClosePath
| Stroke.

Inductive exn : Type :=
| TypeError
| SyntaxError
| IndexSizeError.

Inductive result (A : Type) : Type :=
| Ok (a : A)
| Throw (e : exn).

Arguments Ok {A} a.
Arguments Throw {A} e.

(** Drawing code: the calls issued so far and how the code ended. *)
Definition Draw (A : Type) : Type := (list call * result A)%type.

Definition ret {A} (a : A) : Draw A := ([], Ok a).

Definition throw {A} (e : exn) : Draw A := ([], Throw e).

Definition emit (c : call) : Draw unit := ([c], Ok tt).

Definition lift {A} (r : result A) : Draw A := ([], r).

Definition bind {A B} (m : Draw A) (f : A -> Draw B) : Draw B :=
  match m with
  | (t, Throw e) => (t, Throw e)
  | (t, Ok a) => let (t', r) := f a in (t ++ t', r)
  end.

Definition trace {A} (m : Draw A) : list call := fst m.

Definition outcome {A} (m : Draw A) : result A := snd m.

Definition returns {A} (m : Draw A) : bool :=
  match outcome m with Ok _ => true | Throw _ => false end.

Declare Scope draw_scope.
Delimit Scope draw_scope with draw.
Notation "x <- m ;; k" := (bind m (fun x => k))
  (at level 61, m at next level, right associativity) : draw_scope.
Notation "m ;; k" := (bind m (fun _ => k))
  (at level 61, right associativity) : draw_scope.

(** [for (let i = from; ...; i++)] running [n] times over a loop-carried
    value. *)
Fixpoint for_loop {S : Type} (n : nat) (i : Z) (body : Z -> S -> Draw S)
    (s : S) : Draw S :=
  match n with
  | O => ret s
  | Datatypes.S k => bind (body i s) (fun s' => for_loop k (i + 1)%Z body s')
  end.

(** [createLinearGradient] rejects non-finite coordinates. *)
Definition createLinearGradient (x0 y0 x1 y1 : num) : result gradient :=
  match x0, y0, x1, y1 with
  | Fin a, Fin b, Fin c, Fin d => Ok (mkGradient a b c d [])
  | _, _, _, _ => Throw TypeError
  end.

(** [addColorStop] rejects an offset outside [0, 1] and a colour that does
    not parse, which is the case of [undefined]. *)
Definition addColorStop (g : gradient) (offset : Q) (c : option color)
    : result gradient :=
  if negb (Qle_bool 0 offset && Qle_bool offset 1) then Throw IndexSizeError
  else match c with
       | Some col =>
           Ok (mkGradient (g_x0 g) (g_y0 g) (g_x1 g) (g_y1 g)
                 (g_stops g ++ [(offset, col)]))
       | None => Throw SyntaxError
       end.

(** *** What a trace paints: filled rectangles in device space *)

(** The current transformation; the program only scales and translates, so
    it stays of the form [x' = sx * x + tx], [y' = sy * y + ty]. *)
Record transform : Type := mkTransform {
  m_sx : Q; m_sy : Q; m_tx : Q; m_ty : Q
}.

Definition identity : transform := mkTransform 1 1 0 0.

Definition scale (T : transform) (a b : Q) : transform :=
  mkTransform (m_sx T * a) (m_sy T * b) (m_tx T) (m_ty T).

Definition translate (T : transform) (a b : Q) : transform :=
  mkTransform (m_sx T) (m_sy T) (m_sx T * a + m_tx T) (m_sy T * b + m_ty T).

(** A painted rectangle, by two opposite corners. *)
Record rect : Type := mkRect { r_x0 : Q; r_y0 : Q; r_x1 : Q; r_y1 : Q }.

Definition image (T : transform) (r : rect) : rect :=
  mkRect (m_sx T * r_x0 r + m_tx T) (m_sy T * r_y0 r + m_ty T)
         (m_sx T * r_x1 r + m_tx T) (m_sy T * r_y1 r + m_ty T).

(** [fillRect(x, y, w, h)] in user space; nothing is painted when an
    argument is not finite. *)
Definition user_rect (x y w h : num) : option rect :=
  match x, y, w, h with
  | Fin a, Fin b, Fin c, Fin d => Some (mkRect a b (a + c) (b + d))
  | _, _, _, _ => None
  end.

Fixpoint paint_from (T : transform) (saved : list transform)
    (t : list call) : list rect :=
  match t with
  | [] => []
  | c :: rest =>
      match c with
      | Save => paint_from T (T :: saved) rest
      | Restore =>
          match saved with
          | T' :: saved' => paint_from T' saved' rest
          | [] => paint_from T [] rest
          end
      | Scale (Fin a) (Fin b) => paint_from (scale T a b) saved rest
      | Translate (Fin a) (Fin b) => paint_from (translate T a b) saved rest
      | FillRect x y w h =>
          match user_rect x y w h with
          | Some r => image T r :: paint_from T saved rest
          | None => paint_from T saved rest
          end
      | _ => paint_from T saved rest
      end
  end.

Definition rects (t : list call) : list rect := paint_from identity [] t.

(** Equality of rectangles as rational geometry. *)
Definition rect_eq (r s : rect) : Prop :=
  r_x0 r == r_x0 s /\ r_y0 r == r_y0 s /\ r_x1 r == r_x1 s /\ r_y1 r == r_y1 s.

(** Reflection across the vertical line [x = width / 2]. *)
Definition reflect_x (width : Q) (r : rect) : rect :=
  mkRect (width - r_x0 r) (r_y0 r) (width - r_x1 r) (r_y1 r).

(** Reflection across the horizontal line [y = height / 2]. *)
Definition reflect_y (height : Q) (r : rect) : rect :=
  mkRect (r_x0 r) (height - r_y0 r) (r_x1 r) (height - r_y1 r).

(** Height of a rectangle regardless of orientation. *)
Definition magnitude (r : rect) : Q := Qabs (r_y1 r - r_y0 r).

(** A call that leaves the transformation and its stack alone. *)
Definition keeps_transform (c : call) : bool :=
  match c with
  | Save | Restore | Scale _ _ | Translate _ _ => false
  | _ => true
  end.

Definition quiet (c : call) : Prop := keeps_transform c = true.

(** The rectangles a trace fills, in user space. *)
Fixpoint filled (t : list call) : list rect :=
  match t with
  | [] => []
  | FillRect x y w h :: rest =>
      match user_rect x y w h with
      | Some r => r :: filled rest
      | None => filled rest
      end
  | _ :: rest => filled rest
  end.

(** The rectangles of [second] are, one by one, the images of those of
    [first] under [reflect], with the same magnitudes. *)
Definition mirrored (reflect : rect -> rect) (first second : list rect)
    : Prop :=
  Forall2 (fun a b => rect_eq b (reflect a) /\ magnitude b == magnitude a)
    first second.

End Canvas.

(* ------------------------------------------------------------------ *)
(** ** [class AudioVisualizer] (src/js/visualizer.js) *)

Module Visualizer.

Import JS Canvas.
Local Open Scope Q_scope.
Local Open Scope string_scope.
Local Open Scope draw_scope.

(** [this.settings]. *)
Record Settings : Type := mkSettings {
  barStyle : string;
  sensitivity : Q;
  colorTheme : string;
  animationSpeed : Q;
  position : string;
  barCount : Z;
  mirrorMode : string;
  glowIntensity : Z;
  frameRate : value
}.

(** The argument of [updateSettings]: any subset of the settings, and
    optionally canvas dimensions; [None] is an absent key.  A key that is
    present with the value [undefined] is not represented. *)
Record Partial : Type := mkPartial {
  new_barStyle : option string;
  new_sensitivity : option Q;
  new_colorTheme : option string;
  new_animationSpeed : option Q;
  new_position : option string;
  new_barCount : option Z;
  new_mirrorMode : option string;
  new_glowIntensity : option Z;
  new_frameRate : option value;
  new_width : option Z;
  new_height : option Z
}.

Definition no_change : Partial :=
  mkPartial None None None None None None None None None None None.

(** The fields of the visualizer that the modelled methods read or write.
    [audioContext] and [analyser] record whether the host object exists;
    the background image, video and cache are left to the host. *)
Record Visualizer : Type := mkVisualizer {
  canvas_width : Z;
  canvas_height : Z;
  audioContext : bool;
  analyser : bool;
  dataArray : option (list Z);
  bufferLength : Z;
  settings : Settings;
  animationFrameId : option Z;
  lastFrameTime : num;
  targetFrameInterval : num;
  animationFrame : Q
}.

Definition default_settings : Settings :=
  mkSettings "gradient" 1.5 "default" 1.0 "bottom" 64 "none" 0 (VNum 30).

(** The constructor, for a canvas element of the given size. *)
Definition constructor (width height : Z) : Visualizer :=
  mkVisualizer width height false false None 0 default_settings None
    (Fin 0) (div (Fin 1000) (Fin 30)) 0.

Definition set_canvas (v : Visualizer) (w h : Z) : Visualizer :=
  mkVisualizer w h (audioContext v) (analyser v) (dataArray v)
    (bufferLength v) (settings v) (animationFrameId v) (lastFrameTime v)
    (targetFrameInterval v) (animationFrame v).

Definition set_settings (v : Visualizer) (s : Settings) : Visualizer :=
  mkVisualizer (canvas_width v) (canvas_height v) (audioContext v)
    (analyser v) (dataArray v) (bufferLength v) s (animationFrameId v)
    (lastFrameTime v) (targetFrameInterval v) (animationFrame v).

Definition set_targetFrameInterval (v : Visualizer) (t : num) : Visualizer :=
  mkVisualizer (canvas_width v) (canvas_height v) (audioContext v)
    (analyser v) (dataArray v) (bufferLength v) (settings v)
    (animationFrameId v) (lastFrameTime v) t (animationFrame v).

Definition set_lastFrameTime (v : Visualizer) (t : num) : Visualizer :=
  mkVisualizer (canvas_width v) (canvas_height v) (audioContext v)
    (analyser v) (dataArray v) (bufferLength v) (settings v)
    (animationFrameId v) t (targetFrameInterval v) (animationFrame v).

Definition set_animationFrameId (v : Visualizer) (id : option Z) : Visualizer :=
  mkVisualizer (canvas_width v) (canvas_height v) (audioContext v)
    (analyser v) (dataArray v) (bufferLength v) (settings v) id
    (lastFrameTime v) (targetFrameInterval v) (animationFrame v).

Definition set_dataArray (v : Visualizer) (d : option (list Z)) : Visualizer :=
  mkVisualizer (canvas_width v) (canvas_height v) (audioContext v)
    (analyser v) d (bufferLength v) (settings v) (animationFrameId v)
    (lastFrameTime v) (targetFrameInterval v) (animationFrame v).

Definition set_animationFrame (v : Visualizer) (a : Q) : Visualizer :=
  mkVisualizer (canvas_width v) (canvas_height v) (audioContext v)
    (analyser v) (dataArray v) (bufferLength v) (settings v)
    (animationFrameId v) (lastFrameTime v) (targetFrameInterval v) a.

Definition or_keep {A : Type} (new : option A) (old : A) : A :=
  match new with Some a => a | None => old end.

(** [{ ...this.settings, ...newSettings }].  The spread also copies
    [width] and [height] into the settings object, where nothing reads
    them; they are not kept here. *)
Definition merge (s : Settings) (p : Partial) : Settings :=
  mkSettings
    (or_keep (new_barStyle p) (barStyle s))
    (or_keep (new_sensitivity p) (sensitivity s))
    (or_keep (new_colorTheme p) (colorTheme s))
    (or_keep (new_animationSpeed p) (animationSpeed s))
    (or_keep (new_position p) (position s))
    (or_keep (new_barCount p) (barCount s))
    (or_keep (new_mirrorMode p) (mirrorMode s))
    (or_keep (new_glowIntensity p) (glowIntensity s))
    (or_keep (new_frameRate p) (frameRate s)).

(** Truthiness of an optional number: present and not zero. *)
Definition given (d : option Z) : bool :=
  match d with Some z => negb (z =? 0)%Z | None => false end.

(** [updateCanvasSize]; it also marks the cached background stale, which
    is not tracked here. *)
Definition updateCanvasSize (v : Visualizer) (width height : option Z)
    : Visualizer :=
  set_canvas v
    (if given width then or_keep width (canvas_width v) else canvas_width v)
    (if given height then or_keep height (canvas_height v) else canvas_height v).

Definition updateSettings (v : Visualizer) (newSettings : Partial)
    : Visualizer :=
  let v1 := set_settings v (merge (settings v) newSettings) in
  let v2 :=
    match new_frameRate newSettings with
    | Some fr =>
        if truthy fr
        then set_targetFrameInterval v1 (interval_of fr)
        else v1
    | None => v1
    end in
  if given (new_width newSettings) || given (new_height newSettings)
  then updateCanvasSize v2 (new_width newSettings) (new_height newSettings)
  else v2.

(** [setupAudio], once the host has supplied the audio context: an analyser
    with [fftSize = 512] has 256 frequency bins, all zero at first. *)
Definition setupAudio (v : Visualizer) : Visualizer :=
  if audioContext v then v
  else mkVisualizer (canvas_width v) (canvas_height v) true true
         (Some (repeat 0%Z 256)) 256 (settings v) (animationFrameId v)
         (lastFrameTime v) (targetFrameInterval v) (animationFrame v).

(** [pause]: cancels the pending repaint request. *)
Definition pause (v : Visualizer) : Visualizer :=
  match animationFrameId v with
  | Some _ => set_animationFrameId v None
  | None => v
  end.

(** *** Colour schemes *)

(** What a property read on the [schemes] object can yield. *)
Inductive jsval : Type :=
| Arr (cs : list color)
| Null
| Undefined
| Fn (arity : Z)
| ObjectPrototype.

Definition schemes : list (string * jsval) :=
  [ ("default", Arr [Css "rgba(59, 130, 246, 0.8)"; Css "rgba(139, 92, 246, 0.7)"; Css "rgba(236, 72, 153, 0.6)"]);
    ("fire", Arr [Css "rgba(255, 69, 0, 0.8)"; Css "rgba(255, 140, 0, 0.7)"; Css "rgba(255, 215, 0, 0.6)"]);
    ("ocean", Arr [Css "rgba(0, 119, 182, 0.8)"; Css "rgba(0, 180, 216, 0.7)"; Css "rgba(72, 202, 228, 0.6)"]);
    ("forest", Arr [Css "rgba(34, 139, 34, 0.8)"; Css "rgba(50, 205, 50, 0.7)"; Css "rgba(144, 238, 144, 0.6)"]);
    ("sunset", Arr [Css "rgba(255, 94, 77, 0.8)"; Css "rgba(251, 133, 0, 0.7)"; Css "rgba(255, 193, 7, 0.6)"]);
    ("neon", Arr [Css "rgba(57, 255, 20, 0.8)"; Css "rgba(255, 20, 147, 0.7)"; Css "rgba(0, 191, 255, 0.6)"]);
    ("rainbow", Null) ].

(** The properties every object literal inherits from [Object.prototype]:
    built-in functions (with their [length]) and the [__proto__] accessor. *)
Definition inherited : list (string * jsval) :=
  [ ("constructor", Fn 1);
    ("hasOwnProperty", Fn 1);
    ("isPrototypeOf", Fn 1);
    ("propertyIsEnumerable", Fn 1);
    ("toLocaleString", Fn 0);
    ("toString", Fn 0);
    ("valueOf", Fn 0);
    ("__defineGetter__", Fn 2);
    ("__defineSetter__", Fn 2);
    ("__lookupGetter__", Fn 1);
    ("__lookupSetter__", Fn 1);
    ("__proto__", ObjectPrototype) ].

Fixpoint assoc (key : string) (l : list (string * jsval)) : option jsval :=
  match l with
  | [] => None
  | (k, x) :: r => if String.eqb k key then Some x else assoc key r
  end.

(** [obj[key]] on an object literal: own properties first, then the
    prototype. *)
Definition get (own : list (string * jsval)) (key : string) : jsval :=
  match assoc key own with
  | Some x => x
  | None =>
      match assoc key inherited with
      | Some x => x
      | None => Undefined
      end
  end.

(** [a || b]: [null] and [undefined] are falsy, objects are truthy. *)
Definition or_else (a b : jsval) : jsval :=
  match a with
  | Null | Undefined => b
  | _ => a
  end.

Definition hue (v : Visualizer) (i : Z) : Q :=
  Qrem (animationFrame v * animationSpeed (settings v) + inject_Z i * 120) 360.

(** [getColorScheme]; the rainbow loop runs for [i = 0, 1, 2]. *)
Definition getColorScheme (v : Visualizer) : jsval :=
  if String.eqb (colorTheme (settings v)) "rainbow"
  then Arr (map (fun i => Hsla (hue v i)) [0; 1; 2]%Z)
  else or_else (get schemes (colorTheme (settings v))) (get schemes "default").

(** [colors[idx]]: a property read throws on [null] and [undefined];
    functions and [Object.prototype] have no indexed properties.  The
    result [None] is [undefined]. *)
Definition color_at (colors : jsval) (idx : num) : Draw (option color) :=
  match colors with
  | Null | Undefined => throw TypeError
  | Arr cs =>
      match to_index idx with
      | Some k => ret (if (k <? 0)%Z then None else nth_error cs (Z.to_nat k))
      | None => ret None
      end
  | Fn _ | ObjectPrototype => ret None
  end.

(** [colors.length] as a number. *)
Definition length_of (colors : jsval) : Draw num :=
  match colors with
  | Null | Undefined => throw TypeError
  | Arr cs => ret (of_Z (Z.of_nat (List.length cs)))
  | Fn arity => ret (of_Z arity)
  | ObjectPrototype => ret NaN
  end.

(** *** Spectrum reads *)

(** [this.dataArray[idx]] as a number; outside the array it is
    [undefined], which arithmetic turns into [NaN]. *)
Definition element (a : list Z) (idx : num) : num :=
  match to_index idx with
  | Some k =>
      if (k <? 0)%Z then NaN
      else match nth_error a (Z.to_nat k) with
           | Some x => of_Z x
           | None => NaN
           end
  | None => NaN
  end.

(** [this.dataArray ? f(this.dataArray[idx]) : fallback]. *)
Definition sample (v : Visualizer) (idx : num) (f : num -> num)
    (fallback : num) : num :=
  match dataArray v with
  | Some a => f (element a idx)
  | None => fallback
  end.

Definition width (v : Visualizer) : num := of_Z (canvas_width v).
Definition height (v : Visualizer) : num := of_Z (canvas_height v).

Definition barsToUse (v : Visualizer) : Z :=
  Z.min (barCount (settings v)) (bufferLength v).

(** [Math.floor((i / barsToUse) * this.bufferLength)]. *)
Definition dataIndex (v : Visualizer) (i : Z) : num :=
  floor (mul (div (of_Z i) (of_Z (barsToUse v))) (of_Z (bufferLength v))).

Definition sens (v : Visualizer) : num := Fin (sensitivity (settings v)).

(** *** Bar styles *)

(** The layout both bar styles compute before drawing: bar width and gap
    for [n] bars on a surface [w] wide. *)
Definition barLayout (w : num) (n : Z) : num * num :=
  let totalGapSpace := mul (mul (sub (of_Z n) (Fin 1)) (div w (of_Z n))) (Fin 0.2) in
  let availableSpace := sub w totalGapSpace in
  let barWidth := div availableSpace (of_Z n) in
  let gap := mul (div w (of_Z n)) (Fin 0.2) in
  (barWidth, gap).

(** Width of [n] bars and the gaps between them. *)
Definition extent (n : Z) (barWidth gap : num) : num :=
  add (mul (of_Z n) barWidth) (mul (sub (of_Z n) (Fin 1)) gap).

(** [if (glowIntensity > 0) { shadowBlur = glowIntensity; shadowColor =
    colors[k]; }], the opening of every style. *)
Definition glow (v : Visualizer) (colors : jsval) (k : Z) : Draw unit :=
  if (0 <? glowIntensity (settings v))%Z
  then emit (SetShadowBlur (of_Z (glowIntensity (settings v))));;
       c <- color_at colors (of_Z k);;
       emit (SetShadowColor c)
  else ret tt.

Definition getYPosition (v : Visualizer) (barHeight : num) : num :=
  if String.eqb (position (settings v)) "top" then barHeight
  else if String.eqb (position (settings v)) "center"
       then add (div (height v) (Fin 2)) (div barHeight (Fin 2))
       else height v.

Definition drawBarRect (v : Visualizer) (x w h : num) : Draw unit :=
  if String.eqb (position (settings v)) "top"
  then emit (FillRect x (Fin 0) w h)
  else if String.eqb (position (settings v)) "center"
       then emit (FillRect x (div (sub (height v) h) (Fin 2)) w h)
       else emit (FillRect x (sub (height v) h) w h).

Definition applyMirrorMode (v : Visualizer) (drawFn : num -> num -> Draw unit)
    : Draw unit :=
  if String.eqb (mirrorMode (settings v)) "horizontal" then
    let centerX := div (width v) (Fin 2) in
    emit Save;;
    drawFn centerX (Fin 1);;
    emit (Scale (Fin (-1)) (Fin 1));;
    emit (Translate (neg (width v)) (Fin 0));;
    drawFn centerX (Fin 1);;
    emit Restore
  else if String.eqb (mirrorMode (settings v)) "vertical" then
    drawFn (Fin 0) (Fin 1);;
    emit Save;;
    emit (Scale (Fin 1) (Fin (-1)));;
    emit (Translate (Fin 0) (neg (height v)));;
    drawFn (Fin 0) (Fin 1);;
    emit Restore
  else
    drawFn (Fin 0) (Fin 1).

(** Height of bar [i]: the sample scaled by the sensitivity, or 10 when
    there is no data array. *)
Definition barHeight (v : Visualizer) (i : Z) : num :=
  sample v (dataIndex v i) (fun d => mul d (sens v)) (Fin 10).

(** The closure [drawBarsSet] of [drawGradientBars]. *)
Definition gradientBarsSet (v : Visualizer) (colors : jsval)
    (barWidth gap : num) (startX direction : num) : Draw unit :=
  for_loop (Z.to_nat (barsToUse v)) 0
    (fun i x =>
       let h := barHeight v i in
       let yPos := getYPosition v h in
       g0 <- lift (createLinearGradient (Fin 0) yPos (Fin 0) (sub yPos h));;
       c0 <- color_at colors (Fin 0);;
       g1 <- lift (addColorStop g0 0 c0);;
       c1 <- color_at colors (Fin 1);;
       g2 <- lift (addColorStop g1 0.5 c1);;
       c2 <- color_at colors (Fin 2);;
       g3 <- lift (addColorStop g2 1 c2);;
       emit (SetFillStyle (Some (PGradient g3)));;
       drawBarRect v x barWidth h;;
       ret (add x (mul (add barWidth gap) direction)))
    startX;;
  ret tt.

Definition drawGradientBars (v : Visualizer) (colors : jsval) : Draw unit :=
  let (barWidth, gap) := barLayout (width v) (barsToUse v) in
  glow v colors 0;;
  applyMirrorMode v (gradientBarsSet v colors barWidth gap);;
  emit (SetShadowBlur (Fin 0)).

(** [Math.floor((i / barsToUse) * colors.length)]. *)
Definition colorIndex (v : Visualizer) (i : Z) (len : num) : num :=
  floor (mul (div (of_Z i) (of_Z (barsToUse v))) len).

(** The closure [drawBarsSet] of [drawSolidBars]. *)
Definition solidBarsSet (v : Visualizer) (colors : jsval)
    (barWidth gap : num) (startX direction : num) : Draw unit :=
  for_loop (Z.to_nat (barsToUse v)) 0
    (fun i x =>
       let h := barHeight v i in
       len <- length_of colors;;
       c <- color_at colors (colorIndex v i len);;
       emit (SetFillStyle (option_map PColor c));;
       drawBarRect v x barWidth h;;
       ret (add x (mul (add barWidth gap) direction)))
    startX;;
  ret tt.

Definition drawSolidBars (v : Visualizer) (colors : jsval) : Draw unit :=
  let (barWidth, gap) := barLayout (width v) (barsToUse v) in
  glow v colors 0;;
  applyMirrorMode v (solidBarsSet v colors barWidth gap);;
  emit (SetShadowBlur (Fin 0)).

(** *** Wave style *)

Definition drawWaveForm (v : Visualizer) (colors : jsval) : Draw unit :=
  glow v colors 1;;
  emit (SetLineWidth (Fin 3));;
  c <- color_at colors (Fin 1);;
  emit (SetStrokeStyle c);;
  emit BeginPath;;
  let sliceWidth := div (width v) (of_Z (bufferLength v)) in
  let yOffset :=
    if String.eqb (position (settings v)) "top"
    then div (neg (height v)) (Fin 4)
    else if String.eqb (position (settings v)) "bottom"
         then div (height v) (Fin 4)
         else Fin 0 in
  for_loop (Z.to_nat (bufferLength v)) 0
    (fun i x =>
       let s := sample v (of_Z i) (fun d => div d (Fin 255)) (Fin 0.5) in
       let y :=
         sub (add (add (div (height v) (Fin 2)) yOffset)
                  (mul (div (mul s (height v)) (Fin 3)) (sens v)))
             (div (height v) (Fin 6)) in
       (if (i =? 0)%Z then emit (MoveTo x y) else emit (LineTo x y));;
       ret (add x sliceWidth))
    (Fin 0);;
  emit Stroke;;
  emit (SetShadowBlur (Fin 0)).

(** *** Circle and spectrum styles *)

Section Trigonometry.

(** [Math.cos], [Math.sin] and [Math.PI] of the host. *)
Variables Math_cos Math_sin : num -> num.
Variable Math_PI : num.

(** [(i / barsToUse) * Math.PI * 2]. *)
Definition angle (v : Visualizer) (i : Z) : num :=
  mul (mul (div (of_Z i) (of_Z (barsToUse v))) Math_PI) (Fin 2).

Definition drawCircularBars (v : Visualizer) (colors : jsval) : Draw unit :=
  let centerX := div (width v) (Fin 2) in
  let centerY := div (height v) (Fin 2) in
  let radius := sub (min centerX centerY) (Fin 50) in
  glow v colors 0;;
  for_loop (Z.to_nat (barsToUse v)) 0
    (fun i (_ : unit) =>
       let amplitude := sample v (dataIndex v i) (fun d => d) (Fin 0) in
       let h := mul (mul amplitude (sens v)) (Fin 0.5) in
       let a := angle v i in
       let x1 := add centerX (mul (Math_cos a) radius) in
       let y1 := add centerY (mul (Math_sin a) radius) in
       let x2 := add centerX (mul (Math_cos a) (add radius h)) in
       let y2 := add centerY (mul (Math_sin a) (add radius h)) in
       len <- length_of colors;;
       c <- color_at colors (colorIndex v i len);;
       emit (SetStrokeStyle c);;
       emit (SetLineWidth (Fin 3));;
       emit BeginPath;;
       emit (MoveTo x1 y1);;
       emit (LineTo x2 y2);;
       emit Stroke)
    tt;;
  emit (SetShadowBlur (Fin 0)).

Definition drawSpectrum (v : Visualizer) (colors : jsval) : Draw unit :=
  let centerX := div (width v) (Fin 2) in
  let centerY := div (height v) (Fin 2) in
  let maxRadius := sub (min centerX centerY) (Fin 20) in
  glow v colors 0;;
  for_loop 3 0
    (fun ring (_ : unit) =>
       let ringRadius :=
         mul maxRadius (add (Fin 0.3) (mul (of_Z ring) (Fin 0.25))) in
       emit BeginPath;;
       for_loop (Z.to_nat (barsToUse v)) 0
         (fun i (_ : unit) =>
            let amplitude :=
              sample v (dataIndex v i)
                (fun d => mul (mul d (sens v)) (Fin 0.3)) (Fin 0) in
            let a := angle v i in
            let radius :=
              add ringRadius
                  (mul (mul amplitude (add (of_Z ring) (Fin 1))) (Fin 0.5)) in
            let x := add centerX (mul (Math_cos a) radius) in
            let y := add centerY (mul (Math_sin a) radius) in
            if (i =? 0)%Z then emit (MoveTo x y) else emit (LineTo x y))
         tt;;
       emit ClosePath;;
       len <- length_of colors;;
       c <- color_at colors (rem (of_Z ring) len);;
       emit (SetStrokeStyle c);;
       emit (SetLineWidth (Fin 2));;
       emit Stroke)
    tt;;
  emit (SetShadowBlur (Fin 0)).

(** The visualizer section of [draw]: the colour scheme, then the style
    selected by [barStyle]. *)
Definition drawStyle (v : Visualizer) : Draw unit :=
  let colors := getColorScheme v in
  let style := barStyle (settings v) in
  if String.eqb style "gradient" then drawGradientBars v colors
  else if String.eqb style "solid" then drawSolidBars v colors
  else if String.eqb style "circle" then drawCircularBars v colors
  else if String.eqb style "wave" then drawWaveForm v colors
  else if String.eqb style "spectrum" then drawSpectrum v colors
  else ret tt.

(** [draw].  The background step and the [onDraw] hook paint host media and
    the application's overlays; their calls are inputs here. *)
Definition draw (v : Visualizer) (background : Draw unit)
    (onDraw : option (Draw unit)) : Draw unit :=
  background;;
  drawStyle v;;
  match onDraw with
  | Some overlays => overlays
  | None => ret tt
  end.

(** [getByteFrequencyData] overwrites the array in place with the samples
    the host supplies. *)
Definition fill (old fresh : list Z) : list Z :=
  firstn (List.length old) fresh ++ skipn (List.length fresh) old.

(** [loop(timestamp)].  [request] is the handle [requestAnimationFrame]
    returns, [fresh] the analyser's current samples.  The second component
    is [None] when the frame gate skips, and the frame's drawing
    otherwise. *)
Definition loop (v : Visualizer) (request : Z) (timestamp : num)
    (fresh : list Z) (background : Draw unit) (onDraw : option (Draw unit))
    : Visualizer * option (Draw unit) :=
  let v1 := set_animationFrameId v (Some request) in
  if ltb (sub timestamp (lastFrameTime v1)) (targetFrameInterval v1)
  then (v1, None)
  else
    let v2 := set_lastFrameTime v1 timestamp in
    let v3 :=
      if analyser v2
      then set_dataArray v2 (option_map (fun a => fill a fresh) (dataArray v2))
      else v2 in
    let frame := draw v3 background onDraw in
    (if returns frame
     then set_animationFrame v3
            (animationFrame v3 + animationSpeed (settings v3))
     else v3,
     Some frame).

(** Whether a call of [loop] computes a frame. *)
Definition computes_frame (r : Visualizer * option (Draw unit)) : bool :=
  match snd r with Some _ => true | None => false end.

(** One repaint signal of the host with everything [loop] reads from it. *)
Record Tick : Type := mkTick {
  request : Z;
  timestamp : num;
  fresh : list Z;
  background : Draw unit;
  overlays : option (Draw unit)
}.

Definition tick (v : Visualizer) (k : Tick) : Visualizer * option (Draw unit) :=
  loop v (request k) (timestamp k) (fresh k) (background k) (overlays k).

(** The frame decisions of [loop] over successive repaint signals. *)
Fixpoint decisions (v : Visualizer) (ks : list Tick) : list bool :=
  match ks with
  | [] => []
  | k :: rest => computes_frame (tick v k) :: decisions (fst (tick v k)) rest
  end.

(** The visualizer after the given repaint signals. *)
Definition after (v : Visualizer) (ks : list Tick) : Visualizer :=
  fold_left (fun u k => fst (tick u k)) ks v.

End Trigonometry.

(** The frame gate of [loop], as a predicate on the time stamp. *)
Definition due (v : Visualizer) (t : num) : bool :=
  negb (ltb (sub t (lastFrameTime v)) (targetFrameInterval v)).

(** The decisions a gate with the given last frame time and interval takes
    on a sequence of time stamps. *)
Fixpoint gate (last interval : num) (ts : list num) : list bool :=
  match ts with
  | [] => []
  | t :: rest =>
      let d := negb (ltb (sub t last) interval) in
      d :: gate (if d then t else last) interval rest
  end.

(** The data array, when there is one, has [bufferLength] entries, as
    [setupAudio] creates it. *)
Definition well_formed (v : Visualizer) : Prop :=
  match dataArray v with
  | Some a => Z.of_nat (List.length a) = bufferLength v
  | None => True
  end.

(** The frame [whole] of a bar style whose passes are drawn by [pass] shows
    two halves that mirror each other: what it paints is the first pass
    followed by its reflection, across the vertical centre line under the
    horizontal mirror mode and across the horizontal centre line under the
    vertical one. *)
Definition two_halves (v : Visualizer) (pass : num -> num -> Draw unit)
    (whole : Draw unit) : Prop :=
  (mirrorMode (settings v) = "horizontal" ->
   exists second,
     rects (trace whole) =
       (rects (trace (pass (div (width v) (Fin 2)) (Fin 1))) ++ second)%list /\
     mirrored (reflect_x (inject_Z (canvas_width v)))
       (rects (trace (pass (div (width v) (Fin 2)) (Fin 1)))) second) /\
  (mirrorMode (settings v) = "vertical" ->
   exists second,
     rects (trace whole) =
       (rects (trace (pass (Fin 0) (Fin 1))) ++ second)%list /\
     mirrored (reflect_y (inject_Z (canvas_height v)))
       (rects (trace (pass (Fin 0) (Fin 1)))) second).

(** A pass started at the left edge reaches from there to the right edge of
    the canvas: its first rectangle begins at 0 and its last one ends at
    the canvas width. *)
Definition spans_surface (v : Visualizer) (pass : num -> num -> Draw unit)
    : Prop :=
  exists first final,
    nth_error (rects (trace (pass (Fin 0) (Fin 1)))) 0 = Some first /\
    nth_error (rects (trace (pass (Fin 0) (Fin 1))))
      (Z.to_nat (barsToUse v) - 1) = Some final /\
    r_x0 first == 0 /\
    r_x1 final == inject_Z (canvas_width v).

(** An update that carries nothing but a frame rate. *)
Definition only_frameRate (fr : value) : Partial :=
  mkPartial None None None None None None None None (Some fr) None None.

(** Four repaint signals at 0, 10, 20 and 40 ms. *)
Definition four_ticks : list Tick :=
  map (fun t => mkTick 1 (of_Z t) [] (ret tt) None) [0; 10; 20; 40]%Z.

End Visualizer.

(* ------------------------------------------------------------------ *)
(** ** Recording logic (src/js/app.js) *)

Module App.

Local Open Scope string_scope.

(** [appState]. *)
Inductive AppState : Type := idle | recording | paused.

Definition AppState_eqb (a b : AppState) : bool :=
  match a, b with
  | idle, idle | recording, recording | paused, paused => true
  | _, _ => false
  end.

(** The [MediaRecorder] instance held in the global [mediaRecorder]: whether
    it is capturing, and the format it negotiated. *)
Record Recorder : Type := mkRecorder {
  capturing : bool;
  mimeType : string
}.

(** The text of the status line. *)
Inductive Status : Type :=
| Text (s : string)
| RecordingClip (n : nat)
| ErrorStarting (message : string)
| PausedText
| ClipReady (n : nat)
| Finished.

(** A download link appended by [createDownloadLink]: the clip number in its
    file name, the extension, and the fragments of its blob. *)
Record Download : Type := mkDownload {
  clip : nat;
  ext : string;
  fragments : list nat
}.

(** The globals of the recording logic, the parts of the page they write,
    and the host objects they drive.  A recorded fragment is represented by
    its size.  [playing] abstracts the audio element, [looping] the
    visualizer's repaint loop, [audioReady] its audio graph; [pendingStops]
    counts recorder [stop()] calls whose events the host has not yet
    dispatched. *)
Record State : Type := mkState {
  appState : AppState;
  clipCounter : nat;
  mediaRecorder : option Recorder;
  recordedChunks : list nat;
  startTime : option Z;
  statusMessage : Status;
  progressHidden : bool;
  buttons : AppState;
  downloads : list Download;
  exportFormat : string;
  audioReady : bool;
  playing : bool;
  looping : bool;
  pendingStops : nat
}.

(** The page as loaded: no recorder yet, counter 0. *)
Definition init : State :=
  mkState idle 0 None [] None (Text "") true idle [] "webm" false false false 0.

Inductive Error : Type := TypeError | InvalidStateError.

(** What the host answers during [handleStart]: every step succeeds and the
    recorder negotiates a format, or one step fails with a message. *)
Inductive StartHost : Type :=
| Accepts (mime : string)
| SetupAudioFails (message : string)
| ResumeRejected (message : string)
| PlayRejected (message : string)
| RecorderSetupFails (message : string)
| RecorderStartFails (mime message : string).

Definition accepted (h : StartHost) : bool :=
  match h with Accepts _ => true | _ => false end.

(** [updateButtonStates]: the four buttons are shown or hidden from
    [appState]. *)
Definition updateButtonStates (s : State) : State :=
  mkState (appState s) (clipCounter s) (mediaRecorder s) (recordedChunks s)
    (startTime s) (statusMessage s) (progressHidden s) (appState s)
    (downloads s) (exportFormat s) (audioReady s) (playing s) (looping s)
    (pendingStops s).

(** The [catch] block of [handleStart]. *)
Definition start_failed (s : State) (message : string) : State :=
  updateButtonStates
    (mkState idle (clipCounter s) (mediaRecorder s) (recordedChunks s)
       (startTime s) (ErrorStarting message) (progressHidden s) (buttons s)
       (downloads s) (exportFormat s) (audioReady s) (playing s) (looping s)
       (pendingStops s)).

(** [handleStart], run to completion against the host's answers; [now] is
    [Date.now()].  The progress display it starts is not represented. *)
Definition handleStart (s : State) (now : Z) (h : StartHost) : State :=
  match appState s with
  | idle =>
      let n := S (clipCounter s) in
      (* appState, clipCounter++, status, progress bar, startTime *)
      let s1 :=
        mkState recording n (mediaRecorder s) (recordedChunks s) (Some now)
          (RecordingClip n) false (buttons s) (downloads s) (exportFormat s)
          (audioReady s) (playing s) (looping s) (pendingStops s) in
      let with_audio (t : State) :=
        mkState (appState t) (clipCounter t) (mediaRecorder t)
          (recordedChunks t) (startTime t) (statusMessage t)
          (progressHidden t) (buttons t) (downloads t) (exportFormat t)
          true (playing t) (looping t) (pendingStops t) in
      let with_playback (t : State) :=
        mkState (appState t) (clipCounter t) (mediaRecorder t)
          (recordedChunks t) (startTime t) (statusMessage t)
          (progressHidden t) (buttons t) (downloads t) (exportFormat t)
          (audioReady t) true (looping t) (pendingStops t) in
      let with_recorder (t : State) (r : Recorder) (loop : bool) :=
        mkState (appState t) (clipCounter t) (Some r)
          (recordedChunks t) (startTime t) (statusMessage t)
          (progressHidden t) (buttons t) (downloads t) (exportFormat t)
          (audioReady t) (playing t) loop (pendingStops t) in
      match h with
      | SetupAudioFails m => start_failed s1 m
      | ResumeRejected m => start_failed (with_audio s1) m
      | PlayRejected m => start_failed (with_audio s1) m
      | RecorderSetupFails m =>
          start_failed (with_playback (with_audio s1)) m
      | RecorderStartFails mime m =>
          start_failed
            (with_recorder (with_playback (with_audio s1))
               (mkRecorder false mime) (looping s1)) m
      | Accepts mime =>
          updateButtonStates
            (with_recorder (with_playback (with_audio s1))
               (mkRecorder true mime) true)
      end
  | _ => s
  end.

(** [mediaRecorder.stop()]: an idle recorder ignores it; otherwise capture
    ends and the host queues the final [dataavailable] and [stop] events. *)
Definition recorder_stop (s : State) : State * option Error :=
  match mediaRecorder s with
  | None => (s, Some TypeError)
  | Some r =>
      if capturing r
      then (mkState (appState s) (clipCounter s)
              (Some (mkRecorder false (mimeType r))) (recordedChunks s)
              (startTime s) (statusMessage s) (progressHidden s) (buttons s)
              (downloads s) (exportFormat s) (audioReady s) (playing s)
              (looping s) (S (pendingStops s)), None)
      else (s, None)
  end.

(** [mediaRecorder.start()]: only an idle recorder may be started. *)
Definition recorder_start (s : State) : State * option Error :=
  match mediaRecorder s with
  | None => (s, Some TypeError)
  | Some r =>
      if capturing r then (s, Some InvalidStateError)
      else (mkState (appState s) (clipCounter s)
              (Some (mkRecorder true (mimeType r))) (recordedChunks s)
              (startTime s) (statusMessage s) (progressHidden s) (buttons s)
              (downloads s) (exportFormat s) (audioReady s) (playing s)
              (looping s) (pendingStops s), None)
  end.

(** Continue with [k] unless the call threw. *)
Definition and_then (r : State * option Error) (k : State -> State)
    : State * option Error :=
  match r with
  | (s, None) => (k s, None)
  | (s, Some e) => (s, Some e)
  end.

Definition handlePause (s : State) : State * option Error :=
  match appState s with
  | recording =>
      let s1 :=
        mkState paused (clipCounter s) (mediaRecorder s) (recordedChunks s)
          (startTime s) PausedText (progressHidden s) (buttons s)
          (downloads s) (exportFormat s) (audioReady s) false false
          (pendingStops s) in
      and_then (recorder_stop s1) updateButtonStates
  | _ => (s, None)
  end.

Definition handleResume (s : State) : State * option Error :=
  match appState s with
  | paused =>
      let n := S (clipCounter s) in
      let s1 :=
        mkState recording n (mediaRecorder s) (recordedChunks s)
          (startTime s) (RecordingClip n) (progressHidden s) (buttons s)
          (downloads s) (exportFormat s) (audioReady s) true true
          (pendingStops s) in
      and_then (recorder_start s1) updateButtonStates
  | _ => (s, None)
  end.

Definition handleStop (s : State) : State * option Error :=
  match appState s with
  | idle => (s, None)
  | st =>
      let finish (t : State) :=
        updateButtonStates
          (mkState idle (clipCounter t) (mediaRecorder t) (recordedChunks t)
             (startTime t) Finished true (buttons t) (downloads t)
             (exportFormat t) (audioReady t) false false (pendingStops t)) in
      match st with
      | recording => and_then (recorder_stop s) finish
      | _ => (finish s, None)
      end
  end.

(** [haystack.includes(needle)]. *)
Fixpoint includes (needle haystack : string) : bool :=
  String.prefix needle haystack ||
  match haystack with
  | String _ rest => includes needle rest
  | EmptyString => false
  end.

(** [mediaRecorder.ondataavailable], for a fragment of the given size. *)
Definition ondataavailable (s : State) (size : nat) : State :=
  if (0 <? size)%nat
  then mkState (appState s) (clipCounter s) (mediaRecorder s)
         (recordedChunks s ++ [size]) (startTime s) (statusMessage s)
         (progressHidden s) (buttons s) (downloads s) (exportFormat s)
         (audioReady s) (playing s) (looping s) (pendingStops s)
  else s.

(** [mediaRecorder.onstop] with [createDownloadLink]: the fragments become
    one download named after the current clip counter. *)
Definition onstop (s : State) : State :=
  let mime :=
    match mediaRecorder s with Some r => mimeType r | None => "" end in
  let isMp4 := includes "mp4" mime || String.eqb (exportFormat s) "mp4" in
  let link :=
    mkDownload (clipCounter s) (if isMp4 then "mp4" else "webm")
      (recordedChunks s) in
  mkState (appState s) (clipCounter s) (mediaRecorder s) []
    (startTime s)
    (match appState s with
     | paused => ClipReady (clipCounter s)
     | _ => statusMessage s
     end)
    (progressHidden s) (buttons s) (downloads s ++ [link]) (exportFormat s)
    (audioReady s) (playing s) (looping s) (pendingStops s).

(** The host dispatches the events of one queued [stop()]: the data
    gathered since the recorder started, then [stop]. *)
Definition dispatch (size : nat) (s : State) : State :=
  match pendingStops s with
  | O => s
  | S k =>
      let s1 := onstop (ondataavailable s size) in
      mkState (appState s1) (clipCounter s1) (mediaRecorder s1)
        (recordedChunks s1) (startTime s1) (statusMessage s1)
        (progressHidden s1) (buttons s1) (downloads s1) (exportFormat s1)
        (audioReady s1) (playing s1) (looping s1) k
  end.

(** A capture request. *)
Inductive Op : Type :=
| Start (now : Z) (h : StartHost)
| Pause
| Resume
| Stop.

Definition handle (op : Op) (s : State) : State * option Error :=
  match op with
  | Start now h => (handleStart s now h, None)
  | Pause => handlePause s
  | Resume => handleResume s
  | Stop => handleStop s
  end.

(** A stub sink: every queued [stop()] is dispatched, with a fragment of
    [size] bytes, before the next request is handled. *)
Definition settle (size : nat) (s : State) : State :=
  Nat.iter (pendingStops s) (dispatch size) s.

Definition step (size : nat) (s : State) (op : Op) : State :=
  settle size (fst (handle op s)).

Definition run (size : nat) (ops : list Op) (s : State) : State :=
  fold_left (step size) ops s.

Definition tags (s : State) : list nat := map clip (downloads s).

(** The request is made in a state that does not accept it. *)
Definition out_of_state (op : Op) (s : State) : bool :=
  match op with
  | Start _ _ => negb (AppState_eqb (appState s) idle)
  | Pause => negb (AppState_eqb (appState s) recording)
  | Resume => negb (AppState_eqb (appState s) paused)
  | Stop => AppState_eqb (appState s) idle
  end.

(** The host accepts the request (only a start consults the host). *)
Definition host_accepts (op : Op) : bool :=
  match op with
  | Start _ h => accepted h
  | _ => true
  end.

Definition enters_recording (before after : State) : bool :=
  negb (AppState_eqb (appState before) recording)
  && AppState_eqb (appState after) recording.

Definition leaves_recording (before after : State) : bool :=
  AppState_eqb (appState before) recording
  && negb (AppState_eqb (appState after) recording).

(** The recorder agrees with [appState] and no sink event is outstanding:
    the states the handlers move between under a stub sink. *)
Definition consistent (s : State) : Prop :=
  pendingStops s = 0%nat /\
  match appState s with
  | recording => exists m, mediaRecorder s = Some (mkRecorder true m)
  | paused => exists m, mediaRecorder s = Some (mkRecorder false m)
  | idle =>
      mediaRecorder s = None \/
      exists m, mediaRecorder s = Some (mkRecorder false m)
  end.

End App.

(* ------------------------------------------------------------------ *)
(** ** Fitting the background (src/js/visualizer.js) *)

Module Background.

Import JS.

(** The background: an image with its pixel size, or a video element with
    the size of its frames and the size attributes of the element. *)
Inductive Media : Type :=
| Image (width height : Z)
| Video (videoWidth videoHeight width height : Z).

(** [media.videoWidth || media.width]: an image has no [videoWidth], and a
    video that has not loaded reports 0. *)
Definition mediaWidth (m : Media) : Z :=
  match m with
  | Image w _ => w
  | Video vw _ w _ => if (vw =? 0)%Z then w else vw
  end.

Definition mediaHeight (m : Media) : Z :=
  match m with
  | Image _ h => h
  | Video _ vh _ h => if (vh =? 0)%Z then h else vh
  end.

(** The source rectangle passed to [drawImage]. *)
Record Crop : Type := mkCrop { sx : num; sy : num; sWidth : num; sHeight : num }.

(** The fitting both [drawBackgroundOnly] and [updateCachedBackground]
    compute, for a canvas and a medium of the given sizes. *)
Definition coverCrop (canvasWidth canvasHeight mediaW mediaH : Z) : Crop :=
  let canvasAspect := div (of_Z canvasWidth) (of_Z canvasHeight) in
  let imgAspect := div (of_Z mediaW) (of_Z mediaH) in
  if ltb canvasAspect imgAspect then
    let sWidth := mul (of_Z mediaH) canvasAspect in
    mkCrop (div (sub (of_Z mediaW) sWidth) (Fin 2)) (Fin 0) sWidth (of_Z mediaH)
  else
    let sHeight := div (of_Z mediaW) canvasAspect in
    mkCrop (Fin 0) (div (sub (of_Z mediaH) sHeight) (Fin 2)) (of_Z mediaW) sHeight.

(** [drawBackgroundOnly]: the source rectangle of its [drawImage] call;
    [None] when it draws no medium.  [media] is
    [backgroundVideo || backgroundImage]. *)
Definition drawBackgroundOnly (canvasWidth canvasHeight : Z)
    (media : option Media) : option Crop :=
  match media with
  | Some m =>
      if ((0 <? mediaWidth m) && (0 <? mediaHeight m))%Z
      then Some (coverCrop canvasWidth canvasHeight (mediaWidth m) (mediaHeight m))
      else None
  | None => None
  end.

(** [updateCachedBackground]: the source rectangle used to fill the cache
    from [backgroundImage], whose size it does not check. *)
Definition updateCachedBackground (canvasWidth canvasHeight : Z)
    (backgroundImage : option (Z * Z)) : option Crop :=
  match backgroundImage with
  | Some (w, h) => Some (coverCrop canvasWidth canvasHeight w h)
  | None => None
  end.

(** The rectangle lies inside a medium [w] by [h], is centred in it, shows
    it in full along one side, and has the proportions [cw : ch]. *)
Definition covers (c : Crop) (cw ch w h : Q) : Prop :=
  exists x y sw sh : Q,
    c = mkCrop (Fin x) (Fin y) (Fin sw) (Fin sh) /\
    (0 <= x /\ 0 <= y /\ 0 < sw /\ 0 < sh)%Q /\
    (x + sw + x == w /\ y + sh + y == h)%Q /\
    (sw == w \/ sh == h)%Q /\
    (sw * ch == sh * cw)%Q.

End Background.


(* ------------------------------------------------------------------ *)
(** ** The drawing state a trace leaves behind *)

Module CanvasState.

Import JS Canvas Visualizer.

(** The transformation and the shadow of the context: the part of its
    drawing state that the glow and the mirror modes change and that
    whatever is drawn next depends on.  The shadow offsets, which the
    visualizer never assigns, are left out. *)
Record state : Type := mkState {
  transformation : transform;
  shadowBlur : Q;
  shadowColor : color
}.

(** Assigning [shadowBlur]: a value that is negative or not finite is
    ignored. *)
Definition set_blur (s : state) (b : num) : state :=
  match b with
  | Fin q =>
      if Qle_bool 0 q then mkState (transformation s) q (shadowColor s) else s
  | _ => s
  end.

(** Assigning [shadowColor]: [undefined] does not parse as a colour and is
    ignored; the colours of the schemes all parse. *)
Definition set_color (s : state) (c : option color) : state :=
  match c with
  | Some col => mkState (transformation s) (shadowBlur s) col
  | None => s
  end.

(** The state and the stack of saved states after the calls of a trace;
    [save] and [restore] keep the whole state. *)
Fixpoint run (s : state) (saved : list state) (t : list call)
    : state * list state :=
  match t with
  | [] => (s, saved)
  | c :: rest =>
      match c with
      | Save => run s (s :: saved) rest
      | Restore =>
          match saved with
          | s' :: saved' => run s' saved' rest
          | [] => run s [] rest
          end
      | Scale (Fin a) (Fin b) =>
          run (mkState (scale (transformation s) a b) (shadowBlur s)
                 (shadowColor s)) saved rest
      | Translate (Fin a) (Fin b) =>
          run (mkState (translate (transformation s) a b) (shadowBlur s)
                 (shadowColor s)) saved rest
      | SetShadowBlur b => run (set_blur s b) saved rest
      | SetShadowColor c => run (set_color s c) saved rest
      | _ => run s saved rest
      end
  end.

(** A call that leaves the transformation, its stack and the shadow colour
    alone. *)
Definition keeps_colour (c : call) : bool :=
  match c with
  | Save | Restore | Scale _ _ | Translate _ _ | SetShadowColor _ => false
  | _ => true
  end.

(** The shadow colour after the opening of a style ([glow]): [colors[k]]
    when the glow is on and that entry is a colour, the colour before
    otherwise. *)
Definition glowColor (v : Visualizer) (colors : jsval) (k : Z)
    (before : color) : color :=
  if (0 <? glowIntensity (settings v))%Z
  then match outcome (color_at colors (of_Z k)) with
       | Ok (Some c) => c
       | _ => before
       end
  else before.

(** The trace ends with the given call. *)
Definition ends_with (c : call) (t : list call) : Prop :=
  exists before, t = (before ++ [c])%list.

End CanvasState.


(* ------------------------------------------------------------------ *)
(** ** The vertices of a path *)

Module Path.

Import JS Canvas.



End Path.


(* ------------------------------------------------------------------ *)
(** ** The life of a visualizer *)

Module Session.

Import JS Canvas Visualizer.
Local Open Scope Q_scope.

(** [stop], in the fields it writes: the pending repaint request is
    cancelled.  The initial state it then draws writes no field. *)
Definition stop (v : Visualizer) : Visualizer :=
  match animationFrameId v with
  | Some _ => set_animationFrameId v None
  | None => v
  end.

(** A call on the visualizer after its construction. *)
Inductive Action : Type :=
| UpdateSettings (newSettings : Partial)
| UpdateCanvasSize (width height : option Z)
| SetupAudio
| Pause
| Stop
| Loop (k : Tick).

Section Host.

Variables Math_cos Math_sin : num -> num.
Variable Math_PI : num.

Definition perform (v : Visualizer) (a : Action) : Visualizer :=
  match a with
  | UpdateSettings p => updateSettings v p
  | UpdateCanvasSize w h => updateCanvasSize v w h
  | SetupAudio => setupAudio v
  | Pause => pause v
  | Stop => stop v
  | Loop k => fst (tick Math_cos Math_sin Math_PI v k)
  end.

(** The visualizer after a sequence of calls. *)
Definition history (v : Visualizer) (l : list Action) : Visualizer :=
  fold_left perform l v.

End Host.

(** The time stamps of the repaint signals at which a frame is computed. *)
Fixpoint computed (ds : list bool) (ts : list num) : list num :=
  match ds, ts with
  | d :: ds', t :: ts' => if d then t :: computed ds' ts' else computed ds' ts'
  | _, _ => []
  end.

(** Each time stamp of the list is finite and at least [interval] after the
    one before it, the first one after [last]. *)
Fixpoint spaced (interval last : Q) (ts : list num) : Prop :=
  match ts with
  | [] => True
  | Fin t :: rest => interval <= t - last /\ spaced interval t rest
  | _ :: _ => False
  end.

(** The host's background step and overlay hook of every signal return. *)
Definition host_returns (ks : list Tick) : Prop :=
  Forall (fun k =>
            returns (background k) = true /\
            match overlays k with
            | Some o => returns o = true
            | None => True
            end) ks.

(** The condition under which the style routine selected by [barStyle]
    cannot throw: the gradient style needs a data array of [bufferLength]
    entries and a theme that is not an inherited property name. *)
Definition drawable (v : Visualizer) : Prop :=
  String.eqb (barStyle (settings v)) "gradient" = true ->
  well_formed v /\ assoc (colorTheme (settings v)) inherited = None.

End Session.


(* ------------------------------------------------------------------ *)
(** ** The page under a stub sink (src/js/app.js) *)

Module Sink.

Import App.
Local Open Scope nat_scope.

(** What holds of the page between two requests when every recorder event
    is dispatched before the next request: the buttons shown are those of
    [appState], no fragment is waiting in [recordedChunks], no two download
    links carry the same clip number, and every link carries a number the
    counter has reached (passed, while recording) and the one fragment of
    its segment. *)
Definition orderly (size : nat) (s : State) : Prop :=
  buttons s = appState s /\
  recordedChunks s = [] /\
  NoDup (tags s) /\
  Forall (fun d =>
            clip d <= clipCounter s /\
            (appState s = recording -> clip d < clipCounter s) /\
            fragments d = if (0 <? size)%nat then [size] else [])
         (downloads s).

End Sink.


(* ------------------------------------------------------------------ *)
(** ** Recording format and clock (src/js/app.js) *)

Module Display.

Import JS.
Local Open Scope Q_scope.
Local Open Scope string_scope.

(** The container formats [getSupportedMimeType] tries, in its order. *)
Definition types : list string :=
  ["video/webm;codecs=vp9"; "video/webm"; "video/mp4"].

Section Host.

(** [MediaRecorder.isTypeSupported]. *)
Variable isTypeSupported : string -> bool.

(** [for (const t of types) if (isTypeSupported(t)) return t; return '']. *)
Fixpoint first_supported (ts : list string) : string :=
  match ts with
  | [] => ""
  | t :: rest => if isTypeSupported t then t else first_supported rest
  end.

Definition getSupportedMimeType : string := first_supported types.

End Host.

(** [(Date.now() - startTime) / 1000] in [updateProgressLoop]. *)
Definition elapsed (now startTime : Z) : num :=
  div (sub (of_Z now) (of_Z startTime)) (Fin 1000).

(** The minutes and seconds [updateProgressLoop] writes to the recording
    clock, before they are padded to two digits. *)
Definition recordingTime (now startTime : Z) : num * num :=
  let e := elapsed now startTime in
  (floor (div e (Fin 60)), floor (rem e (Fin 60))).

End Display.


(* ------------------------------------------------------------------ *)
(** ** Overlays and dragging (src/js/app.js) *)

Module Overlay.

Local Open Scope Q_scope.
Local Open Scope string_scope.

(** [dragOffset]. *)
Record Offset : Type := mkOffset { off_x : Q; off_y : Q }.

(** An entry of [textOverlays].  Coordinates and sizes are finite
    numbers. *)
Record TextOverlay : Type := mkText {
  content : string;
  t_x : Q;
  t_y : Q;
  t_size : Q;
  color : string;
  font : string;
  style : string;
  shadow : bool;
  t_isDragging : bool;
  t_dragOffset : Offset
}.

(** An entry of [overlaySettings]. *)
Record OverlaySetting : Type := mkSetting {
  s_x : Q;
  s_y : Q;
  s_size : Q;
  opacity : Q;
  s_isDragging : bool;
  s_dragOffset : Offset
}.

(** A loaded overlay image, with its [width] and [height]. *)
Record Img : Type := mkImg { img_width : Z; img_height : Z }.

(** The overlay globals and the cursor of the canvas.  An entry [None] of
    [overlayImages] is [null]. *)
Record Page : Type := mkPage {
  overlayImages : list (option Img);
  overlaySettings : list OverlaySetting;
  textOverlays : list TextOverlay;
  activeOverlay : option nat;
  activeTextOverlay : option nat;
  cursor : string
}.

(** The globals as the script initialises them. *)
Definition init : Page :=
  mkPage
    (repeat None 5)
    (map (fun i => mkSetting (100 + inject_Z i * 50) (100 + inject_Z i * 50)
                     50 80 false (mkOffset 0 0))
         [0; 1; 2; 3; 4]%Z)
    [ mkText "" 100 100 32 "#ffffff" "Inter" "normal" true false (mkOffset 0 0);
      mkText "" 100 150 24 "#cccccc" "Inter" "normal" true false (mkOffset 0 0) ]
    None None "default".

(** A handler returns, or throws the [TypeError] of a property read on
    [undefined]. *)
Inductive Outcome (A : Type) : Type :=
| Done (a : A)
| TypeError.

Arguments Done {A} a.
Arguments TypeError {A}.

(** [l[i] = f(l[i])] on an index inside the list. *)
Fixpoint update {A : Type} (l : list A) (i : nat) (f : A -> A) : list A :=
  match l, i with
  | [], _ => []
  | a :: r, O => f a :: r
  | a :: r, S k => a :: update r k f
  end.

Section Host.

(** [ctx.measureText(t.content).width] under the font of [t]. *)
Variable measureText : TextOverlay -> Q.

(** The hit box of a text overlay, tried only when it has content. *)
Definition textHit (t : TextOverlay) (x y : Q) : bool :=
  negb (String.eqb (content t) "") &&
  (Qle_bool (t_x t) x && Qle_bool x (t_x t + measureText t) &&
   Qle_bool (t_y t - t_size t) y && Qle_bool y (t_y t + 10)).

(** The hit box of an overlay image. *)
Definition imageHit (img : Img) (s : OverlaySetting) (x y : Q) : bool :=
  let w := inject_Z (img_width img) * s_size s / 100 in
  let h := inject_Z (img_height img) * s_size s / 100 in
  Qle_bool (s_x s) x && Qle_bool x (s_x s + w) &&
  Qle_bool (s_y s) y && Qle_bool y (s_y s + h).

(** The first loop of [checkDragStart], from index [n - 1] down to 0. *)
Fixpoint scanText (ts : list TextOverlay) (n : nat) (x y : Q) : option nat :=
  match n with
  | O => None
  | S i =>
      match nth_error ts i with
      | Some t => if textHit t x y then Some i else scanText ts i x y
      | None => scanText ts i x y
      end
  end.

(** The second loop of [checkDragStart]; a loaded image without an entry
    in [overlaySettings] makes the read of its size throw. *)
Fixpoint scanImages (imgs : list (option Img)) (ss : list OverlaySetting)
    (n : nat) (x y : Q) : Outcome (option nat) :=
  match n with
  | O => Done None
  | S i =>
      match nth_error imgs i with
      | Some (Some img) =>
          match nth_error ss i with
          | Some s => if imageHit img s x y then Done (Some i)
                      else scanImages imgs ss i x y
          | None => TypeError
          end
      | _ => scanImages imgs ss i x y
      end
  end.

Definition grabText (x y : Q) (t : TextOverlay) : TextOverlay :=
  mkText (content t) (t_x t) (t_y t) (t_size t) (color t) (font t) (style t)
    (shadow t) true (mkOffset (x - t_x t) (y - t_y t)).

Definition grabImage (x y : Q) (s : OverlaySetting) : OverlaySetting :=
  mkSetting (s_x s) (s_y s) (s_size s) (opacity s) true
    (mkOffset (x - s_x s) (y - s_y s)).

Definition checkDragStart (x y : Q) (p : Page) : Outcome Page :=
  match scanText (textOverlays p) (List.length (textOverlays p)) x y with
  | Some i =>
      Done (mkPage (overlayImages p) (overlaySettings p)
              (update (textOverlays p) i (grabText x y))
              (activeOverlay p) (Some i) "grabbing")
  | None =>
      match scanImages (overlayImages p) (overlaySettings p)
              (List.length (overlayImages p)) x y with
      | Done (Some i) =>
          Done (mkPage (overlayImages p)
                  (update (overlaySettings p) i (grabImage x y))
                  (textOverlays p) (Some i) (activeTextOverlay p) "grabbing")
      | Done None => Done p
      | TypeError => TypeError
      end
  end.

End Host.

Definition moveText (x y : Q) (t : TextOverlay) : TextOverlay :=
  mkText (content t) (x - off_x (t_dragOffset t)) (y - off_y (t_dragOffset t))
    (t_size t) (color t) (font t) (style t) (shadow t) (t_isDragging t)
    (t_dragOffset t).

Definition moveImage (x y : Q) (s : OverlaySetting) : OverlaySetting :=
  mkSetting (x - off_x (s_dragOffset s)) (y - off_y (s_dragOffset s))
    (s_size s) (opacity s) (s_isDragging s) (s_dragOffset s).

(** [handleDragMove]; the second component is [needsDraw], on which the
    initial state is drawn again. *)
Definition handleDragMove (x y : Q) (p : Page) : Outcome (Page * bool) :=
  match activeTextOverlay p with
  | Some i =>
      match nth_error (textOverlays p) i with
      | Some t =>
          if t_isDragging t
          then Done (mkPage (overlayImages p) (overlaySettings p)
                       (update (textOverlays p) i (moveText x y))
                       (activeOverlay p) (activeTextOverlay p) (cursor p), true)
          else Done (p, false)
      | None => TypeError
      end
  | None =>
      match activeOverlay p with
      | Some i =>
          match nth_error (overlaySettings p) i with
          | Some s =>
              if s_isDragging s
              then Done (mkPage (overlayImages p)
                           (update (overlaySettings p) i (moveImage x y))
                           (textOverlays p) (activeOverlay p)
                           (activeTextOverlay p) (cursor p), true)
              else Done (p, false)
          | None => TypeError
          end
      | None => Done (p, false)
      end
  end.

Definition dropText (t : TextOverlay) : TextOverlay :=
  mkText (content t) (t_x t) (t_y t) (t_size t) (color t) (font t) (style t)
    (shadow t) false (t_dragOffset t).

Definition dropImage (s : OverlaySetting) : OverlaySetting :=
  mkSetting (s_x s) (s_y s) (s_size s) (opacity s) false (s_dragOffset s).

(** [stopDrag]; the settings it saves go to the storage of the host. *)
Definition stopDrag (p : Page) : Outcome Page :=
  let texts :=
    match activeTextOverlay p with
    | Some i =>
        match nth_error (textOverlays p) i with
        | Some _ => Done (update (textOverlays p) i dropText)
        | None => TypeError
        end
    | None => Done (textOverlays p)
    end in
  match texts with
  | TypeError => TypeError
  | Done ts =>
      match activeOverlay p with
      | Some i =>
          match nth_error (overlaySettings p) i with
          | Some _ =>
              Done (mkPage (overlayImages p)
                      (update (overlaySettings p) i dropImage) ts None None
                      "default")
          | None => TypeError
          end
      | None =>
          Done (mkPage (overlayImages p) (overlaySettings p) ts None None
                  "default")
      end
  end.

(** No drag is under way: nothing is active. *)
Definition at_rest (p : Page) : Prop :=
  activeOverlay p = None /\ activeTextOverlay p = None.

End Overlay.

(* ------------------------------------------------------------------ *)
(** * Properties *)

(** ** Reading a frame rate *)

Section ParseInt.

Import JS.
Local Open Scope Z_scope.

Ltac digit_cases d H :=
  unfold is_digit in H;
  assert (d = 0 \/ d = 1 \/ d = 2 \/ d = 3 \/ d = 4 \/
          d = 5 \/ d = 6 \/ d = 7 \/ d = 8 \/ d = 9) as Hcases by lia;
  clear H;
  repeat (destruct Hcases as [Hcases | Hcases]; [subst d | ]); [ .. | subst d].

Lemma digit_value_digit_char (d : Z) :
  is_digit d -> digit_value 10 (digit_char d) = Some d.
Proof.
  intros H. digit_cases d H; reflexivity.
Qed.

Lemma read_digits_numeral (ds : list Z) :
  Forall is_digit ds -> ds <> [] ->
  forall acc,
    read_digits 10 (numeral ds) acc =
    Some (fold_left (fun a d => 10 * a + d) ds
            (match acc with Some a => a | None => 0 end)).
Proof.
  induction 1 as [ | d ds Hd Hds IH]; intros Hne acc.
  - congruence.
  - cbn [numeral read_digits]. rewrite (digit_value_digit_char Hd).
    destruct ds as [ | d' ds'].
    + reflexivity.
    + rewrite IH by discriminate. reflexivity.
Qed.

Lemma numeral_plain (ds : list Z) :
  Forall is_digit ds -> ds <> [] ->
  strip_hex_prefix (snd (strip_sign (skip_whitespace (numeral ds)))) =
    (10, numeral ds) /\
  fst (strip_sign (skip_whitespace (numeral ds))) = 1.
Proof.
  intros Hall Hne. destruct Hall as [ | d ds Hd Hds]; [congruence | ].
  destruct Hds as [ | d' ds' Hd' Hds'].
  - digit_cases d Hd; split; reflexivity.
  - digit_cases d Hd; [ digit_cases d' Hd'; split; reflexivity | .. ];
      split; reflexivity.
Qed.

Lemma parseInt_numeral (ds : list Z) :
  Forall is_digit ds -> ds <> [] ->
  parseInt_string (numeral ds) = of_Z (numeral_value ds).
Proof.
  intros Hall Hne. unfold parseInt_string.
  destruct (numeral_plain Hall Hne) as [Hhex Hsign].
  destruct (strip_sign (skip_whitespace (numeral ds))) as [sign s1].
  cbn [fst snd] in *. subst sign. rewrite Hhex.
  rewrite (read_digits_numeral Hall Hne).
  unfold numeral_value. f_equal. lia.
Qed.

Lemma numeral_truthy (ds : list Z) :
  ds <> [] -> truthy (VStr (numeral ds)) = true.
Proof.
  destruct ds as [ | d r]; [congruence | reflexivity].
Qed.

(** A value that denotes a positive integer passes the truthiness test and
    [parseInt] reads that integer. *)
Lemma denotes_parseInt (fr : value) (n : Z) :
  0 < n -> denotes fr n -> truthy fr = true /\ parseInt fr = of_Z n.
Proof.
  intros Hn [[-> Hb] | (ds & Hne & Hall & -> & <-)].
  - split.
    + cbn. destruct (Z.eqb_spec n 0); [lia | reflexivity].
    + unfold parseInt.
      destruct (Z.ltb_spec (Z.abs n) 1000000000000000000000);
        [reflexivity | lia].
  - split; [apply numeral_truthy; assumption | ].
    cbn [parseInt]. apply parseInt_numeral; assumption.
Qed.

(** Nor is it read as the negative zero. *)
Lemma denotes_not_negative_zero (fr : value) (n : Z) :
  denotes fr n -> parseInt_negative_zero fr = false.
Proof.
  intros [[-> _] | (ds & Hne & Hall & -> & _)]; [reflexivity | ].
  unfold parseInt_negative_zero, parseInt_negative_zero_string.
  destruct (numeral_plain Hall Hne) as [Hhex Hsign].
  destruct (strip_sign (skip_whitespace (numeral ds))) as [sign s1].
  cbn [fst snd] in *. subst sign. rewrite Hhex.
  destruct (read_digits 10 (numeral ds) None) as [[ | ? | ?] | ]; reflexivity.
Qed.

(** From 10^21 on a number is written in exponent notation, and [parseInt]
    reads its leading digit only. *)
Remark number_in_exponent_notation :
  parseInt (VNum (10 ^ 21)) = of_Z 1 /\
  parseInt (VNum (- (25 * 10 ^ 20))) = of_Z (-2) /\
  parseInt (VNum (10 ^ 21 - 1)) = of_Z (10 ^ 21 - 1).
Proof.
  repeat split; vm_compute; reflexivity.
Qed.

Lemma div_1000_positive (n : Z) :
  0 < n -> div (Fin 1000) (of_Z n) = Fin (1000 / inject_Z n).
Proof.
  intros Hn. unfold div, of_Z.
  destruct (Qeq_bool (inject_Z n) 0) eqn:E; [ | reflexivity].
  apply Qeq_bool_iff in E. unfold Qeq in E. cbn in E. lia.
Qed.

End ParseInt.

(* ------------------------------------------------------------------ *)
(** ** Frame scheduling *)

Section Scheduler.

Import JS Canvas Visualizer.
Local Open Scope Q_scope.

Variables Math_cos Math_sin : num -> num.
Variable Math_PI : num.

Abbreviation loop := (Visualizer.loop Math_cos Math_sin Math_PI).
Abbreviation tick := (Visualizer.tick Math_cos Math_sin Math_PI).
Abbreviation decisions := (Visualizer.decisions Math_cos Math_sin Math_PI).

Lemma loop_decision v request t fresh bg od :
  computes_frame (loop v request t fresh bg od) = due v t.
Proof.
  unfold Visualizer.loop, due, computes_frame. cbn.
  destruct (ltb _ _); reflexivity.
Qed.

Lemma loop_lastFrameTime v request t fresh bg od :
  lastFrameTime (fst (loop v request t fresh bg od)) =
  if due v t then t else lastFrameTime v.
Proof.
  unfold Visualizer.loop, due. cbn.
  destruct (ltb _ _); cbn; [reflexivity | ].
  destruct (returns _), (analyser v); reflexivity.
Qed.

Lemma loop_targetFrameInterval v request t fresh bg od :
  targetFrameInterval (fst (loop v request t fresh bg od)) =
  targetFrameInterval v.
Proof.
  unfold Visualizer.loop. cbn.
  destruct (ltb _ _); cbn; [reflexivity | ].
  destruct (returns _), (analyser v); reflexivity.
Qed.

Lemma decisions_gate ks : forall v,
  decisions v ks =
  gate (lastFrameTime v) (targetFrameInterval v) (map timestamp ks).
Proof.
  induction ks as [ | k ks IH]; intros v; [reflexivity | ].
  cbn [Visualizer.decisions map gate]. unfold Visualizer.tick at 1.
  rewrite loop_decision. f_equal.
  rewrite IH. unfold Visualizer.tick.
  rewrite loop_lastFrameTime, loop_targetFrameInterval. reflexivity.
Qed.

Lemma updateSettings_lastFrameTime v p :
  lastFrameTime (updateSettings v p) = lastFrameTime v.
Proof.
  unfold updateSettings.
  destruct (given (new_width p) || given (new_height p));
    destruct (new_frameRate p) as [fr | ]; try destruct (truthy fr);
    reflexivity.
Qed.

Lemma updateSettings_interval_kept v p :
  new_frameRate p = None ->
  targetFrameInterval (updateSettings v p) = targetFrameInterval v.
Proof.
  intros E. unfold updateSettings. rewrite E.
  destruct (given (new_width p) || given (new_height p)); reflexivity.
Qed.

Lemma updateSettings_interval_set v p fr n :
  new_frameRate p = Some fr -> (0 < n)%Z -> denotes fr n ->
  targetFrameInterval (updateSettings v p) = Fin (1000 / inject_Z n).
Proof.
  intros E Hn Hd. destruct (denotes_parseInt Hn Hd) as [Ht Hp].
  unfold updateSettings, interval_of.
  rewrite E, Ht, (denotes_not_negative_zero Hd), Hp.
  rewrite <- (div_1000_positive Hn).
  destruct (given (new_width p) || given (new_height p)); reflexivity.
Qed.

Lemma gate_finite (last interval t : Q) :
  negb (ltb (sub (Fin t) (Fin last)) (Fin interval)) = true <->
  interval <= t - last.
Proof.
  cbn. rewrite negb_involutive. apply Qle_bool_iff.
Qed.

(** C2, as the code has it.  With the frame rate at 30 and the last frame
    time 0, repaint signals at 0, 10, 20 and 40 ms give the decisions
    false, false, false, true: the signal at 0 ms is skipped like any other
    that comes less than 1000/30 ms after the last frame.  A frame is
    computed exactly when [timestamp - lastFrameTime >= targetFrameInterval],
    and then [lastFrameTime] becomes the time stamp; the interval is not
    touched.  Setting the frame rate to 60 replaces the interval by 1000/60
    and keeps [lastFrameTime], so only the threshold of later calls
    changes. *)
Theorem frame_gate_decisions :
  (forall (w h : Z) (ks : list Tick),
      map timestamp ks = [Fin 0; Fin 10; Fin 20; Fin 40] ->
      decisions (constructor w h) ks = [false; false; false; true]) /\
  (forall (v : Visualizer) (k : Tick) (t last interval : Q),
      timestamp k = Fin t ->
      lastFrameTime v = Fin last ->
      targetFrameInterval v = Fin interval ->
      (computes_frame (tick v k) = true <-> interval <= t - last) /\
      lastFrameTime (fst (tick v k)) =
        (if computes_frame (tick v k) then Fin t else Fin last) /\
      targetFrameInterval (fst (tick v k)) = Fin interval) /\
  (forall (v : Visualizer) (fr : value) (k : Tick),
      denotes fr 60 ->
      let v' := updateSettings v (only_frameRate fr) in
      lastFrameTime v' = lastFrameTime v /\
      targetFrameInterval v' = Fin (1000 / 60) /\
      computes_frame (tick v' k) =
        negb (ltb (sub (timestamp k) (lastFrameTime v)) (Fin (1000 / 60)))).
Proof.
  split; [ | split].
  - intros w h ks E. rewrite decisions_gate, E. reflexivity.
  - intros v k t last interval Et El Ei. unfold Visualizer.tick.
    rewrite loop_decision, loop_lastFrameTime, loop_targetFrameInterval.
    unfold due. rewrite Et, El, Ei. split; [ | split].
    + apply gate_finite.
    + destruct (negb _); reflexivity.
    + reflexivity.
  - intros v fr k Hfr v'.
    assert (Ei : targetFrameInterval v' = Fin (1000 / 60)).
    { apply (@updateSettings_interval_set v (only_frameRate fr) fr 60%Z);
        [reflexivity | lia | exact Hfr]. }
    assert (El : lastFrameTime v' = lastFrameTime v)
      by apply updateSettings_lastFrameTime.
    unfold Visualizer.tick. rewrite loop_decision. unfold due.
    rewrite Ei, El. repeat split.
Qed.

(** C9.  Whatever the partial update, [updateSettings] leaves
    [lastFrameTime] alone.  When the update carries a frame rate (a
    positive integer, as a number below 10^21 or as the decimal string of
    the form control) the interval becomes 1000 divided by it; when it
    carries none, the interval is unchanged, whatever else the update
    holds. *)
Theorem updateSettings_scheduling (v : Visualizer) (p : Partial) :
  lastFrameTime (updateSettings v p) = lastFrameTime v /\
  match new_frameRate p with
  | Some fr =>
      forall n : Z, (0 < n)%Z -> denotes fr n ->
        targetFrameInterval (updateSettings v p) = Fin (1000 / inject_Z n)
  | None =>
      targetFrameInterval (updateSettings v p) = targetFrameInterval v
  end.
Proof.
  split; [apply updateSettings_lastFrameTime | ].
  destruct (new_frameRate p) as [fr | ] eqn:E.
  - intros n Hn Hd. exact (updateSettings_interval_set v p E Hn Hd).
  - exact (updateSettings_interval_kept v p E).
Qed.

End Scheduler.

Lemma frame_gate_decisions_witness :
  Visualizer.decisions (fun _ => JS.NaN) (fun _ => JS.NaN) JS.NaN
    (Visualizer.constructor 1280 720) Visualizer.four_ticks
  = [false; false; false; true] /\
  (Visualizer.computes_frame
     (Visualizer.tick (fun _ => JS.NaN) (fun _ => JS.NaN) JS.NaN
        (Visualizer.constructor 1280 720)
        (Visualizer.mkTick 1 (JS.Fin 40) [] (Canvas.ret tt) None)) = true
   <-> (1000 / 30 <= 40 - 0)%Q) /\
  Visualizer.targetFrameInterval
    (Visualizer.updateSettings (Visualizer.constructor 1280 720)
       (Visualizer.only_frameRate (JS.VStr "60")))
  = JS.Fin (1000 / 60).
Proof.
  pose proof (frame_gate_decisions (fun _ => JS.NaN) (fun _ => JS.NaN) JS.NaN)
    as (H1 & H2 & H3).
  split; [ | split].
  - exact (H1 1280%Z 720%Z Visualizer.four_ticks eq_refl).
  - exact (proj1 (H2 (Visualizer.constructor 1280 720)
                    (Visualizer.mkTick 1 (JS.Fin 40) [] (Canvas.ret tt) None)
                    40%Q 0%Q (1000 / 30)%Q eq_refl eq_refl eq_refl)).
  - refine (proj1 (proj2 (H3 (Visualizer.constructor 1280 720) (JS.VStr "60")
                            (Visualizer.mkTick 1 (JS.Fin 40) [] (Canvas.ret tt) None)
                            _))).
    right. exists [6; 0]%Z. split; [discriminate | ].
    split; [ | split; reflexivity].
    repeat constructor; unfold JS.is_digit; lia.
Defined.

(** The decisions the code takes on 0, 10, 20, 40 ms are not the ones the
    specification lists: the first signal is not drawn. *)
Lemma first_signal_is_skipped :
  Visualizer.decisions (fun _ => JS.NaN) (fun _ => JS.NaN) JS.NaN
    (Visualizer.constructor 1280 720) Visualizer.four_ticks
  <> [true; false; false; true].
Proof.
  vm_compute. discriminate.
Qed.

Lemma updateSettings_scheduling_witness :
  Visualizer.targetFrameInterval
    (Visualizer.updateSettings (Visualizer.constructor 1280 720)
       (Visualizer.only_frameRate (JS.VStr "60")))
  = JS.Fin (1000 / inject_Z 60).
Proof.
  refine (proj2 (updateSettings_scheduling (Visualizer.constructor 1280 720)
                   (Visualizer.only_frameRate (JS.VStr "60"))) 60%Z _ _).
  - reflexivity.
  - right. exists [6; 0]%Z. split; [discriminate | ].
    split; [ | split; reflexivity].
    repeat constructor; unfold JS.is_digit; lia.
Defined.

(* ------------------------------------------------------------------ *)
(** ** The capture controller *)

Section Capture.

Import App.
Local Open Scope nat_scope.

(** A request made out of state returns at its guard. *)
Lemma guard_returns (op : Op) (s : State) :
  out_of_state op s = true -> handle op s = (s, None).
Proof.
  destruct op as [now h | | | ]; cbn;
    unfold handleStart, handlePause, handleResume, handleStop;
    destruct (appState s); cbn; intros H; try discriminate H; reflexivity.
Qed.

(** One request under the stub sink, from a consistent state, with a host
    that accepts a start. *)
Lemma step_accounting (size : nat) (s : State) (op : Op) :
  consistent s -> host_accepts op = true ->
  consistent (step size s op) /\
  snd (handle op s) = None /\
  clipCounter (step size s op) =
    clipCounter s + (if enters_recording s (step size s op) then 1 else 0) /\
  tags (step size s op) =
    tags s ++ (if leaves_recording s (step size s op)
               then [clipCounter s] else []).
Proof.
  intros [Hp Hr] Hh.
  destruct s as [st n mr chunks t0 msg ph bt dl ef ar pl lp pend].
  cbn in Hp, Hr. subst pend.
  destruct op as [now h | | | ]; destruct st; cbn in Hr.
  all: try (destruct h; try discriminate Hh).
  all: try (destruct Hr as [m ->]).
  all: try (destruct Hr as [-> | [m ->]]).
  all: unfold step, consistent, tags, enters_recording, leaves_recording;
       cbn; destruct size; cbn;
       rewrite ?map_app, ?app_nil_r, ?Nat.add_0_r, ?Nat.add_1_r; cbn;
       repeat split; eauto.
Qed.

(** Consistency is kept by every request, also by a start the host
    rejects, so every state reached from the initial one is consistent. *)
Lemma step_consistent (size : nat) (s : State) (op : Op) :
  consistent s -> consistent (step size s op).
Proof.
  intros [Hp Hr].
  destruct s as [st n mr chunks t0 msg ph bt dl ef ar pl lp pend].
  cbn in Hp, Hr. subst pend.
  destruct op as [now h | | | ]; destruct st; cbn in Hr.
  all: try destruct h.
  all: try (destruct Hr as [m ->]).
  all: try (destruct Hr as [-> | [m ->]]).
  all: unfold step, consistent; cbn; destruct size; cbn; split; eauto.
Qed.

Lemma run_consistent (size : nat) (ops : list Op) :
  forall s, consistent s -> consistent (run size ops s).
Proof.
  induction ops as [ | op ops IH]; intros s Hs; [exact Hs | ].
  cbn [run fold_left]. apply IH. apply step_consistent. exact Hs.
Qed.

Lemma init_consistent : consistent init.
Proof.
  split; [reflexivity | left; reflexivity].
Qed.

(** C1.  Under a stub sink, from the initial state (idle, counter 0):
    start, pause, resume, stop leaves exactly two downloads, numbered 1 and
    2; start, stop leaves exactly one, numbered 1; pause alone leaves none
    and the state idle.  In general, for every request the host accepts,
    made in a consistent state: the clip counter grows by one exactly when
    the request moves the controller into recording, and exactly one
    download, numbered with the counter of the segment, is added exactly
    when the request moves it out of recording.  Every state reached from
    the initial one is consistent. *)
Theorem capture_segments (size : nat) :
  (forall now mime,
      tags (run size [Start now (Accepts mime); Pause; Resume; Stop] init)
        = [1; 2] /\
      List.length (downloads
        (run size [Start now (Accepts mime); Pause; Resume; Stop] init)) = 2) /\
  (forall now mime,
      tags (run size [Start now (Accepts mime); Stop] init) = [1] /\
      List.length (downloads
        (run size [Start now (Accepts mime); Stop] init)) = 1) /\
  (downloads (run size [Pause] init) = [] /\
   appState (run size [Pause] init) = idle) /\
  (forall (s : State) (op : Op),
      consistent s -> host_accepts op = true ->
      consistent (step size s op) /\
      clipCounter (step size s op) =
        clipCounter s + (if enters_recording s (step size s op) then 1 else 0) /\
      tags (step size s op) =
        tags s ++ (if leaves_recording s (step size s op)
                   then [clipCounter s] else [])) /\
  (forall ops : list Op, consistent (run size ops init)).
Proof.
  split; [ | split; [ | split; [ | split]]].
  - intros now mime. destruct size; split; reflexivity.
  - intros now mime. destruct size; split; reflexivity.
  - split; reflexivity.
  - intros s op Hc Hh.
    destruct (@step_accounting size s op Hc Hh) as (H1 & _ & H2 & H3).
    split; [exact H1 | split; [exact H2 | exact H3]].
  - intros ops. apply run_consistent, init_consistent.
Qed.

(** C8.  A request made in a state that does not accept it returns without
    an error and leaves every component of the state as it was. *)
Theorem out_of_state_is_noop (op : Op) (s : State) :
  out_of_state op s = true ->
  handle op s = (s, None) /\
  appState (fst (handle op s)) = appState s /\
  clipCounter (fst (handle op s)) = clipCounter s /\
  recordedChunks (fst (handle op s)) = recordedChunks s.
Proof.
  intros H. rewrite (guard_returns op s H). repeat split.
Qed.

(** What a rejected start leaves behind: the controller is idle again, but
    the counter has advanced. *)
Lemma rejected_start (s : State) (now : Z) (h : StartHost) :
  appState s = idle -> accepted h = false ->
  appState (handleStart s now h) = idle /\
  clipCounter (handleStart s now h) = S (clipCounter s) /\
  progressHidden (handleStart s now h) = false /\
  recordedChunks (handleStart s now h) = recordedChunks s.
Proof.
  intros Hs Hh. unfold handleStart. rewrite Hs.
  destruct h; try discriminate Hh; repeat split.
Qed.

(** C3, at a start whose playback the host rejects.  The error reaches the
    status line and the controller is idle again, but the clip counter has
    gone from 0 to 1 and the progress bar stays visible. *)
Theorem rejected_start_leaves_state_behind :
  let s' := handleStart init 0 (PlayRejected "NotAllowedError") in
  appState s' = idle /\
  statusMessage s' = ErrorStarting "NotAllowedError" /\
  recordedChunks s' = recordedChunks init /\
  clipCounter init = 0 /\ clipCounter s' = 1 /\
  progressHidden init = true /\ progressHidden s' = false.
Proof.
  cbn. repeat split.
Qed.

End Capture.

Lemma capture_segments_witness :
  let s := App.run 1 [App.Start 0 (App.Accepts "video/webm")] App.init in
  App.clipCounter (App.step 1 s App.Pause) = (1 + 0)%nat /\
  App.tags (App.step 1 s App.Pause) = [1%nat].
Proof.
  assert (Hc : App.consistent
                 (App.run 1 [App.Start 0 (App.Accepts "video/webm")] App.init)).
  { split; [reflexivity | ]. exists "video/webm"%string. reflexivity. }
  destruct (proj1 (proj2 (proj2 (proj2 (capture_segments 1))))
              _ App.Pause Hc eq_refl)
    as (_ & H2 & H3).
  split; [exact H2 | exact H3].
Defined.

Lemma out_of_state_is_noop_witness :
  App.handle App.Pause App.init = (App.init, None).
Proof.
  exact (proj1 (out_of_state_is_noop App.Pause App.init eq_refl)).
Defined.

(** The numbering relies on the sink dispatching before the next request:
    if the events of the pause are still queued when the recording is
    resumed and stopped, both downloads carry the number 2. *)
Remark late_dispatch_shares_a_number :
  let s1 := App.handleStart App.init 0 (App.Accepts "video/webm") in
  let s2 := fst (App.handlePause s1) in
  let s3 := fst (App.handleResume s2) in
  let s4 := fst (App.handleStop s3) in
  App.tags (App.dispatch 1 (App.dispatch 1 s4)) = [2%nat; 2%nat].
Proof.
  reflexivity.
Qed.

(* ------------------------------------------------------------------ *)
(** ** Colour schemes *)

Section Colours.

Import JS Canvas Visualizer.
Local Open Scope Q_scope.
Local Open Scope string_scope.

Ltac split_names :=
  repeat match goal with
         | |- context [String.eqb ?a ?b] => destruct (String.eqb_spec a b)
         end.

(** [getColorScheme] never returns [null] or [undefined]. *)
Lemma getColorScheme_defined (v : Visualizer) :
  getColorScheme v <> Null /\ getColorScheme v <> Undefined.
Proof.
  unfold getColorScheme.
  destruct (String.eqb (colorTheme (settings v)) "rainbow");
    [split; discriminate | ].
  destruct (get schemes (colorTheme (settings v))); cbn;
    split; discriminate.
Qed.

(** For a theme name that is not a property of [Object.prototype], the
    scheme is an array of three colours. *)
Lemma getColorScheme_triple (v : Visualizer) :
  assoc (colorTheme (settings v)) inherited = None ->
  exists c0 c1 c2, getColorScheme v = Arr [c0; c1; c2].
Proof.
  intros Hi. unfold getColorScheme.
  destruct (String.eqb (colorTheme (settings v)) "rainbow") eqn:Er;
    [cbn; eauto | ].
  apply String.eqb_neq in Er.
  unfold get at 1. rewrite Hi. unfold schemes at 1. cbn [assoc].
  split_names; subst; try congruence; cbn; eauto.
Qed.

(** On a non-negative dividend the remainder operator is the mathematical
    modulus. *)
Lemma Qrem_nonneg (x m : Q) :
  0 <= x -> 0 < m ->
  Qrem x m == x - m * inject_Z (Qfloor (x / m)) /\
  0 <= Qrem x m /\ Qrem x m < m.
Proof.
  intros Hx Hm. unfold Qrem, Qtrunc.
  assert (Hq : 0 <= x / m).
  { apply Qle_shift_div_l; [exact Hm | ]. lra. }
  apply Qle_bool_iff in Hq. rewrite Hq.
  pose proof (Qfloor_le (x / m)) as Hlo.
  pose proof (Qlt_floor (x / m)) as Hhi.
  rewrite inject_Z_plus in Hhi.
  set (f := inject_Z (Qfloor (x / m))) in *.
  assert (E : x - m * f == m * (x / m - f)) by (field; lra).
  split; [reflexivity | ]. rewrite E. split.
  - apply Qmult_le_0_compat; lra.
  - setoid_replace m with (m * 1) at 3 by ring.
    apply Qmult_lt_l; [exact Hm | ]. change (inject_Z 1) with 1 in Hhi. lra.
Qed.

(** C5.  Under the rainbow theme the scheme is determined by the animation
    phase and the animation speed: two visualizers that agree on these
    return the same three colours whatever their spectrum data (and
    whatever else differs), with hues
    [(phase * speed + i * 120) % 360] for i = 0, 1, 2.  The operator [%] is
    the mathematical modulus, with a hue in [0, 360), as long as
    [phase * speed] is not negative. *)
Theorem rainbow_ignores_spectrum (v1 v2 : Visualizer) :
  colorTheme (settings v1) = "rainbow" ->
  colorTheme (settings v2) = "rainbow" ->
  animationFrame v1 = animationFrame v2 ->
  animationSpeed (settings v1) = animationSpeed (settings v2) ->
  getColorScheme v1 = getColorScheme v2 /\
  getColorScheme v1 =
    Arr [Hsla (Qrem (animationFrame v1 * animationSpeed (settings v1) + 0) 360);
         Hsla (Qrem (animationFrame v1 * animationSpeed (settings v1) + 120) 360);
         Hsla (Qrem (animationFrame v1 * animationSpeed (settings v1) + 240) 360)] /\
  (forall d1 d2 : option (list Z),
      getColorScheme (set_dataArray v1 d1) = getColorScheme (set_dataArray v1 d2)) /\
  (0 <= animationFrame v1 * animationSpeed (settings v1) ->
   forall offset : Q, 0 <= offset ->
     let x := animationFrame v1 * animationSpeed (settings v1) + offset in
     Qrem x 360 == x - 360 * inject_Z (Qfloor (x / 360)) /\
     0 <= Qrem x 360 /\ Qrem x 360 < 360).
Proof.
  intros E1 E2 Ef Es. unfold getColorScheme, hue. cbn [set_dataArray settings animationFrame].
  rewrite E1, E2, Ef, Es. cbn [String.eqb Ascii.eqb Bool.eqb map].
  repeat split; try (apply Qrem_nonneg; [lra | reflexivity]).
Qed.

(** C10, at the theme name "constructor".  The lookup finds the function
    every object inherits under that name, which is truthy, so the default
    scheme is not substituted: the result is not a list of three colours
    and [colors[0]], [colors[1]], [colors[2]] are [undefined]. *)
Theorem inherited_name_is_not_a_scheme :
  let v := set_settings (constructor 1280 720)
             (mkSettings "gradient" 1.5 "constructor" 1.0 "bottom" 64 "none" 0
                (VNum 30)) in
  getColorScheme v = Fn 1 /\
  (forall cs, getColorScheme v <> Arr cs) /\
  color_at (getColorScheme v) (Fin 0) = ret None /\
  color_at (getColorScheme v) (Fin 1) = ret None /\
  color_at (getColorScheme v) (Fin 2) = ret None.
Proof.
  cbn. repeat split. intros cs. discriminate.
Qed.

(** With that theme a gradient bar cannot be painted: the first colour stop
    is rejected. *)
Remark inherited_name_breaks_gradient :
  let v := mkVisualizer 1280 720 true true (Some (repeat 0%Z 256)) 256
             (mkSettings "gradient" 1.5 "constructor" 1.0 "bottom" 64 "none" 0
                (VNum 30)) None (Fin 0) (Fin 0) 0 in
  outcome (drawGradientBars v (getColorScheme v)) = Throw SyntaxError.
Proof.
  vm_compute. reflexivity.
Qed.

End Colours.

Lemma rainbow_ignores_spectrum_witness :
  let rainbow := Visualizer.mkSettings "gradient" 1.5 "rainbow" 1.0 "bottom"
                   64 "none" 0 (JS.VNum 30) in
  let quiet := Visualizer.mkVisualizer 1280 720 true true
                 (Some [0; 0; 0; 0]%Z) 4 rainbow None (JS.Fin 0) (JS.Fin 0) 7 in
  let loud := Visualizer.mkVisualizer 1280 720 true true
                (Some [255; 128; 64; 32]%Z) 4 rainbow None (JS.Fin 0) (JS.Fin 0) 7 in
  Visualizer.getColorScheme quiet = Visualizer.getColorScheme loud.
Proof.
  intros rainbow quiet loud.
  exact (proj1 (rainbow_ignores_spectrum quiet loud
                  eq_refl eq_refl eq_refl eq_refl)).
Defined.

(* ------------------------------------------------------------------ *)
(** ** Bar layout *)

Section Layout.

Import JS Canvas Visualizer.
Local Open Scope Q_scope.

Lemma inject_Z_nonzero (n : Z) : (1 <= n)%Z -> Qeq_bool (inject_Z n) 0 = false.
Proof.
  intros Hn. destruct (Qeq_bool (inject_Z n) 0) eqn:E; [ | reflexivity].
  apply Qeq_bool_iff in E. unfold Qeq in E. cbn in E. lia.
Qed.

Lemma barLayout_finite (w : Q) (n : Z) :
  (1 <= n)%Z ->
  barLayout (Fin w) n =
    (Fin ((w + - ((inject_Z n + - 1) * (w / inject_Z n) * 0.2)) / inject_Z n),
     Fin (w / inject_Z n * 0.2)).
Proof.
  intros Hn. unfold barLayout, div, mul, sub, add, neg, of_Z.
  rewrite (inject_Z_nonzero Hn). reflexivity.
Qed.

End Layout.

(* ------------------------------------------------------------------ *)
(** ** Drawing code: traces and outcomes *)

Section Drawing.

Import JS Canvas.

Lemma trace_bind {A B : Type} (m : Draw A) (f : A -> Draw B) :
  trace (bind m f) =
  trace m ++ match outcome m with Ok a => trace (f a) | Throw _ => [] end.
Proof.
  destruct m as [t [a | e]]; cbn.
  - destruct (f a); reflexivity.
  - symmetry. apply app_nil_r.
Qed.

Lemma outcome_bind {A B : Type} (m : Draw A) (f : A -> Draw B) :
  outcome (bind m f) =
  match outcome m with Ok a => outcome (f a) | Throw e => Throw e end.
Proof.
  destruct m as [t [a | e]]; cbn; [destruct (f a) | ]; reflexivity.
Qed.

Lemma returns_bind {A B : Type} (m : Draw A) (f : A -> Draw B) :
  returns (bind m f) =
  match outcome m with Ok a => returns (f a) | Throw _ => false end.
Proof.
  unfold returns. rewrite outcome_bind. destruct (outcome m); reflexivity.
Qed.

Lemma returns_bind_all {A B : Type} (m : Draw A) (f : A -> Draw B) :
  returns m = true -> (forall a, returns (f a) = true) ->
  returns (bind m f) = true.
Proof.
  intros Hm Hf. rewrite returns_bind. unfold returns in Hm.
  destruct (outcome m); [apply Hf | discriminate].
Qed.

Lemma returns_bind_inv {A B : Type} (m : Draw A) (f : A -> Draw B) :
  returns (bind m f) = true ->
  exists a, outcome m = Ok a /\ returns (f a) = true.
Proof.
  rewrite returns_bind. destruct (outcome m) as [a | e]; [eauto | discriminate].
Qed.

Lemma quiet_bind {A B : Type} (m : Draw A) (f : A -> Draw B) :
  Forall quiet (trace m) -> (forall a, Forall quiet (trace (f a))) ->
  Forall quiet (trace (bind m f)).
Proof.
  intros Hm Hf. rewrite trace_bind. apply Forall_app. split; [exact Hm | ].
  destruct (outcome m); [apply Hf | constructor].
Qed.

Lemma for_loop_returns {S : Type} (body : Z -> S -> Draw S) (n : nat) :
  forall (lo : Z) (s : S),
    (forall i s', (lo <= i < lo + Z.of_nat n)%Z -> returns (body i s') = true) ->
    returns (for_loop n lo body s) = true.
Proof.
  induction n as [ | n IH]; intros lo s H; [reflexivity | ].
  cbn [for_loop]. apply returns_bind_all.
  - apply H. lia.
  - intros s'. apply IH. intros i s'' Hi. apply H. lia.
Qed.

Lemma for_loop_quiet {S : Type} (body : Z -> S -> Draw S) (n : nat) :
  (forall i s, Forall quiet (trace (body i s))) ->
  forall (lo : Z) (s : S), Forall quiet (trace (for_loop n lo body s)).
Proof.
  intros H. induction n as [ | n IH]; intros lo s; [constructor | ].
  cbn [for_loop]. apply quiet_bind; [apply H | intros s'; apply IH].
Qed.

Lemma quiet_emit (c : call) : keeps_transform c = true -> Forall quiet (trace (emit c)).
Proof.
  intros H. repeat constructor. exact H.
Qed.

Lemma quiet_lift {A : Type} (r : result A) : Forall quiet (trace (lift r)).
Proof.
  constructor.
Qed.

Lemma quiet_ret {A : Type} (a : A) : Forall quiet (trace (ret a)).
Proof.
  constructor.
Qed.

(** *** Painting a trace that does not touch the transformation *)

Lemma paint_from_quiet (t : list call) :
  Forall quiet t ->
  forall (T : transform) (saved : list transform) (rest : list call),
    paint_from T saved (t ++ rest) =
    map (image T) (filled t) ++ paint_from T saved rest.
Proof.
  induction 1 as [ | c t Hc Ht IH]; intros T saved rest; [reflexivity | ].
  unfold quiet in Hc.
  destruct c; try discriminate Hc; cbn [app paint_from filled]; try apply IH.
  destruct (user_rect x y w h); cbn [map app]; rewrite IH; reflexivity.
Qed.

Lemma rects_quiet (t : list call) :
  Forall quiet t -> rects t = map (image identity) (filled t).
Proof.
  intros H. unfold rects.
  rewrite <- (app_nil_r t) at 1. rewrite (paint_from_quiet H). cbn.
  apply app_nil_r.
Qed.

(** A pass drawn once plainly and once more after [scale] and
    [translate], between [save] and [restore]. *)
Lemma rects_second_pass_after_save (pre t post : list call) (a b c d : Q) :
  Forall quiet pre -> filled pre = [] ->
  Forall quiet t ->
  Forall quiet post -> filled post = [] ->
  rects (pre ++ Save :: t ++ Scale (Fin a) (Fin b) :: Translate (Fin c) (Fin d)
           :: t ++ Restore :: post) =
  map (image identity) (filled t) ++
  map (image (translate (scale identity a b) c d)) (filled t).
Proof.
  intros Hpre Epre Ht Hpost Epost. unfold rects.
  rewrite (paint_from_quiet Hpre), Epre. cbn [map app paint_from].
  rewrite (paint_from_quiet Ht). cbn [paint_from].
  rewrite (paint_from_quiet Ht). cbn [paint_from].
  rewrite <- (app_nil_r post), (paint_from_quiet Hpost), Epost. cbn.
  rewrite app_nil_r. reflexivity.
Qed.

Lemma rects_second_pass_saved (pre t post : list call) (a b c d : Q) :
  Forall quiet pre -> filled pre = [] ->
  Forall quiet t ->
  Forall quiet post -> filled post = [] ->
  rects (pre ++ t ++ Save :: Scale (Fin a) (Fin b) :: Translate (Fin c) (Fin d)
           :: t ++ Restore :: post) =
  map (image identity) (filled t) ++
  map (image (translate (scale identity a b) c d)) (filled t).
Proof.
  intros Hpre Epre Ht Hpost Epost. unfold rects.
  rewrite (paint_from_quiet Hpre), Epre. cbn [map app].
  rewrite (paint_from_quiet Ht). cbn [paint_from].
  rewrite (paint_from_quiet Ht). cbn [paint_from].
  rewrite <- (app_nil_r post), (paint_from_quiet Hpost), Epost. cbn.
  rewrite app_nil_r. reflexivity.
Qed.

(** *** The two reflections *)

Local Open Scope Q_scope.

Lemma mirrored_x (w : Q) (l : list rect) :
  mirrored (reflect_x w)
    (map (image identity) l)
    (map (image (translate (scale identity (-1) 1) (- w) 0)) l).
Proof.
  induction l as [ | r l IH]; [constructor | ].
  cbn [map]. constructor; [ | exact IH].
  split.
  - unfold rect_eq, image, reflect_x, translate, scale, identity.
    cbn [r_x0 r_y0 r_x1 r_y1 m_sx m_sy m_tx m_ty].
    repeat split; ring.
  - unfold magnitude, image, translate, scale, identity.
    cbn [r_x0 r_y0 r_x1 r_y1 m_sx m_sy m_tx m_ty].
    apply Qabs_wd. ring.
Qed.

Lemma mirrored_y (h : Q) (l : list rect) :
  mirrored (reflect_y h)
    (map (image identity) l)
    (map (image (translate (scale identity 1 (-1)) 0 (- h))) l).
Proof.
  induction l as [ | r l IH]; [constructor | ].
  cbn [map]. constructor; [ | exact IH].
  split.
  - unfold rect_eq, image, reflect_y, translate, scale, identity.
    cbn [r_x0 r_y0 r_x1 r_y1 m_sx m_sy m_tx m_ty].
    repeat split; ring.
  - unfold magnitude, image, translate, scale, identity.
    cbn [r_x0 r_y0 r_x1 r_y1 m_sx m_sy m_tx m_ty].
    rewrite <- (Qabs_opp (1 * r_y1 r + 0 - (1 * r_y0 r + 0))).
    apply Qabs_wd. ring.
Qed.

End Drawing.

(* ------------------------------------------------------------------ *)
(** ** The data array keeps its length *)

Section DataArray.

Import JS Canvas Visualizer.

Variables Math_cos Math_sin : num -> num.
Variable Math_PI : num.

Lemma fill_length (old fresh : list Z) :
  List.length (fill old fresh) = List.length old.
Proof.
  unfold fill. rewrite length_app, length_firstn, length_skipn. lia.
Qed.

Lemma well_formed_constructor (w h : Z) : well_formed (constructor w h).
Proof.
  exact I.
Qed.

Lemma well_formed_setupAudio (v : Visualizer) :
  well_formed v -> well_formed (setupAudio v).
Proof.
  intros H. unfold setupAudio. destruct (audioContext v); [exact H | reflexivity].
Qed.

Lemma well_formed_updateSettings (v : Visualizer) (p : Partial) :
  well_formed v -> well_formed (updateSettings v p).
Proof.
  intros H. unfold updateSettings.
  destruct (given (new_width p) || given (new_height p));
    destruct (new_frameRate p) as [fr | ]; try destruct (truthy fr); exact H.
Qed.

Lemma well_formed_loop (v : Visualizer) request t fresh bg od :
  well_formed v ->
  well_formed (fst (loop Math_cos Math_sin Math_PI v request t fresh bg od)).
Proof.
  intros H. unfold loop. cbn [lastFrameTime targetFrameInterval set_animationFrameId].
  destruct (ltb _ _); [exact H | ].
  cbn [fst]. unfold well_formed in *.
  destruct (returns _); cbn [analyser set_lastFrameTime set_animationFrameId];
    destruct (analyser v); cbn; destruct (dataArray v) as [a | ]; cbn;
    rewrite ?fill_length; exact H.
Qed.

End DataArray.

(* ------------------------------------------------------------------ *)
(** ** Bar frames and mirror modes *)

Section Bars.

Import JS Canvas Visualizer.
Local Open Scope Q_scope.
Local Open Scope string_scope.

Lemma color_at_trace (colors : jsval) (idx : num) : trace (color_at colors idx) = [].
Proof.
  unfold color_at. destruct colors; try reflexivity.
  destruct (to_index idx); reflexivity.
Qed.

Lemma length_of_trace (colors : jsval) : trace (length_of colors) = [].
Proof.
  destruct colors; reflexivity.
Qed.

Lemma glow_quiet (v : Visualizer) (colors : jsval) (k : Z) :
  Forall quiet (trace (glow v colors k)) /\ filled (trace (glow v colors k)) = [].
Proof.
  unfold glow. destruct (0 <? glowIntensity (settings v))%Z; [ | split; [constructor | reflexivity]].
  rewrite !trace_bind. rewrite color_at_trace. cbn [trace emit fst outcome snd app].
  destruct (outcome (color_at colors (of_Z k))); cbn; split; repeat constructor.
Qed.

Lemma drawBarRect_quiet (v : Visualizer) (x w h : num) :
  Forall quiet (trace (drawBarRect v x w h)).
Proof.
  unfold drawBarRect.
  destruct (String.eqb _ _); [ | destruct (String.eqb _ _)]; repeat constructor.
Qed.

Lemma quiet_color_at (colors : jsval) (idx : num) : Forall quiet (trace (color_at colors idx)).
Proof. rewrite color_at_trace. constructor. Qed.

Lemma quiet_length_of (colors : jsval) : Forall quiet (trace (length_of colors)).
Proof. rewrite length_of_trace. constructor. Qed.

Lemma gradientBarsSet_quiet v colors bw gap x d :
  Forall quiet (trace (gradientBarsSet v colors bw gap x d)).
Proof.
  unfold gradientBarsSet. apply quiet_bind; [ | intros; apply quiet_ret].
  apply for_loop_quiet. intros i s. cbv zeta.
  repeat (apply quiet_bind; [ | intros ? ]);
    try apply quiet_lift; try apply quiet_color_at; try apply quiet_ret;
    try apply drawBarRect_quiet; try (apply quiet_emit; reflexivity).
Qed.

Lemma solidBarsSet_quiet v colors bw gap x d :
  Forall quiet (trace (solidBarsSet v colors bw gap x d)).
Proof.
  unfold solidBarsSet. apply quiet_bind; [ | intros; apply quiet_ret].
  apply for_loop_quiet. intros i s. cbv zeta.
  repeat (apply quiet_bind; [ | intros ? ]);
    try apply quiet_length_of; try apply quiet_color_at; try apply quiet_ret;
    try apply drawBarRect_quiet; try (apply quiet_emit; reflexivity).
Qed.

Lemma applyMirrorMode_horizontal v (f : num -> num -> Draw unit) t :
  mirrorMode (settings v) = "horizontal" ->
  f (div (width v) (Fin 2)) (Fin 1) = (t, Ok tt) ->
  applyMirrorMode v f =
    ((Save :: t ++ Scale (Fin (-1)) (Fin 1) :: Translate (neg (width v)) (Fin 0)
        :: t ++ [Restore])%list, Ok tt).
Proof.
  intros Hm Hf. unfold applyMirrorMode. rewrite Hm. cbn [String.eqb Ascii.eqb Bool.eqb].
  unfold bind, emit. rewrite Hf. reflexivity.
Qed.

Lemma applyMirrorMode_vertical v (f : num -> num -> Draw unit) t :
  mirrorMode (settings v) = "vertical" ->
  f (Fin 0) (Fin 1) = (t, Ok tt) ->
  applyMirrorMode v f =
    ((t ++ Save :: Scale (Fin 1) (Fin (-1)) :: Translate (Fin 0) (neg (height v))
        :: t ++ [Restore])%list, Ok tt).
Proof.
  intros Hm Hf. unfold applyMirrorMode. rewrite Hm. cbn [String.eqb Ascii.eqb Bool.eqb].
  unfold bind, emit. rewrite Hf. reflexivity.
Qed.

(** The frame of a bar style: the glow, the mirrored passes, the reset of
    the shadow. *)
Lemma bar_frame_mirrored v colors (pass : num -> num -> Draw unit) :
  (forall x d, Forall quiet (trace (pass x d))) ->
  let whole :=
    bind (glow v colors 0) (fun _ =>
    bind (applyMirrorMode v pass) (fun _ => emit (SetShadowBlur (Fin 0)))) in
  returns whole = true -> two_halves v pass whole.
Proof.
  intros Hq whole Hret. subst whole. unfold two_halves.
  destruct (glow_quiet v colors 0) as [Hgq Hgf].
  apply returns_bind_inv in Hret. destruct Hret as ([] & Hg & Hret).
  apply returns_bind_inv in Hret. destruct Hret as ([] & Hm & _).
  rewrite trace_bind, Hg, trace_bind, Hm. cbn [trace emit fst].
  split; intros Hmode.
  - pose proof (Hq (div (width v) (Fin 2)) (Fin 1)) as Hp.
    destruct (pass (div (width v) (Fin 2)) (Fin 1)) as [t [[] | e]] eqn:Ep.
    + rewrite (applyMirrorMode_horizontal v pass Hmode Ep) in Hm |- *.
      cbn [fst trace] in Hp |- *.
      exists (map (image (translate (scale identity (-1) 1)
                            (- inject_Z (canvas_width v)) 0)) (filled t)).
      split.
      * rewrite (rects_quiet Hp). unfold neg, width, of_Z.
        cbn [app]. rewrite <- app_assoc. cbn [app].
        rewrite <- app_assoc. cbn [app].
        apply rects_second_pass_after_save; try assumption;
          [repeat constructor | reflexivity].
      * rewrite (rects_quiet Hp). apply mirrored_x.
    + exfalso. unfold applyMirrorMode in Hm. rewrite Hmode in Hm.
      cbn [String.eqb Ascii.eqb Bool.eqb] in Hm.
      unfold bind, emit in Hm. rewrite Ep in Hm. discriminate Hm.
  - pose proof (Hq (Fin 0) (Fin 1)) as Hp.
    destruct (pass (Fin 0) (Fin 1)) as [t [[] | e]] eqn:Ep.
    + rewrite (applyMirrorMode_vertical v pass Hmode Ep) in Hm |- *.
      cbn [fst trace] in Hp |- *.
      exists (map (image (translate (scale identity 1 (-1)) 0
                            (- inject_Z (canvas_height v)))) (filled t)).
      split.
      * rewrite (rects_quiet Hp). unfold neg, height, of_Z.
        rewrite <- app_assoc. cbn [app].
        rewrite <- app_assoc. cbn [app].
        apply rects_second_pass_saved; try assumption;
          [repeat constructor | reflexivity].
      * rewrite (rects_quiet Hp). apply mirrored_y.
    + exfalso. unfold applyMirrorMode in Hm. rewrite Hmode in Hm.
      cbn [String.eqb Ascii.eqb Bool.eqb] in Hm.
      unfold bind, emit in Hm. rewrite Ep in Hm. discriminate Hm.
Qed.

(** *** When a bar frame is drawn to the end *)

Lemma to_index_of_Z (k : Z) : to_index (of_Z k) = Some k.
Proof.
  unfold to_index, of_Z. rewrite Qfloor_Z.
  destruct (Qeq_bool (inject_Z k) (inject_Z k)) eqn:E; [reflexivity | ].
  apply Qeq_bool_neq in E. exfalso. apply E. reflexivity.
Qed.

Lemma dataIndex_in_range (v : Visualizer) (i : Z) :
  (0 <= i < barsToUse v)%Z ->
  exists k, dataIndex v i = of_Z k /\ (0 <= k < bufferLength v)%Z.
Proof.
  intros Hi.
  assert (Hn : (1 <= barsToUse v)%Z) by lia.
  assert (HL : (barsToUse v <= bufferLength v)%Z) by apply Z.le_min_r.
  unfold dataIndex, div, mul, floor, of_Z at 1 2 3.
  rewrite (inject_Z_nonzero Hn).
  eexists. split; [reflexivity | ].
  assert (E : inject_Z i / inject_Z (barsToUse v) * inject_Z (bufferLength v)
              == inject_Z (i * bufferLength v) / inject_Z (barsToUse v)).
  { rewrite inject_Z_mult. field. intros E. unfold Qeq in E. cbn in E. lia. }
  rewrite (Qfloor_comp _ _ E), <- Zdiv_Qdiv.
  split; [apply Z.div_pos; nia | apply Z.div_lt_upper_bound; nia].
Qed.

Lemma barHeight_finite (v : Visualizer) (i : Z) :
  well_formed v -> (0 <= i < barsToUse v)%Z ->
  exists h, barHeight v i = Fin h.
Proof.
  intros Hwf Hi. unfold barHeight, sample, well_formed in *.
  destruct (dataArray v) as [a | ]; [ | eauto].
  destruct (dataIndex_in_range v Hi) as (k & -> & Hk).
  unfold element. rewrite to_index_of_Z.
  destruct (Z.ltb_spec k 0); [lia | ].
  destruct (nth_error a (Z.to_nat k)) as [x | ] eqn:E.
  - unfold mul, of_Z, sens. eauto.
  - apply nth_error_None in E. lia.
Qed.

Lemma color_at_returns (colors : jsval) (idx : num) :
  colors <> Null -> colors <> Undefined -> returns (color_at colors idx) = true.
Proof.
  intros Hn Hu. unfold color_at. destruct colors; try congruence; try reflexivity.
  destruct (to_index idx); reflexivity.
Qed.

Lemma length_of_returns (colors : jsval) :
  colors <> Null -> colors <> Undefined -> returns (length_of colors) = true.
Proof.
  intros Hn Hu. destruct colors; try congruence; reflexivity.
Qed.

Lemma glow_returns (v : Visualizer) (colors : jsval) (k : Z) :
  colors <> Null -> colors <> Undefined -> returns (glow v colors k) = true.
Proof.
  intros Hn Hu. unfold glow. destruct (0 <? glowIntensity (settings v))%Z;
    [ | reflexivity].
  apply returns_bind_all; [reflexivity | intros _].
  apply returns_bind_all; [apply color_at_returns; assumption | reflexivity].
Qed.

Lemma drawBarRect_returns (v : Visualizer) (x w h : num) :
  returns (drawBarRect v x w h) = true.
Proof.
  unfold drawBarRect.
  destruct (String.eqb _ _); [ | destruct (String.eqb _ _)]; reflexivity.
Qed.

Lemma applyMirrorMode_returns (v : Visualizer) (f : num -> num -> Draw unit) :
  (forall x d, returns (f x d) = true) -> returns (applyMirrorMode v f) = true.
Proof.
  intros Hf. unfold applyMirrorMode.
  destruct (String.eqb _ _); [ | destruct (String.eqb _ _)];
    repeat (apply returns_bind_all; [ | intros ? ]);
    try apply Hf; reflexivity.
Qed.

Lemma getYPosition_finite (v : Visualizer) (h : Q) :
  exists y, getYPosition v (Fin h) = Fin y.
Proof.
  unfold getYPosition, height, of_Z.
  destruct (String.eqb _ _); [eauto | ].
  destruct (String.eqb _ _); [ | eauto].
  unfold div, add. change (Qeq_bool 2 0) with false. eauto.
Qed.

Lemma returns_bind_ok {A B : Type} (m : Draw A) (f : A -> Draw B) (a : A) :
  outcome m = Ok a -> returns (bind m f) = returns (f a).
Proof.
  intros E. rewrite returns_bind, E. reflexivity.
Qed.

Lemma gradientBarsSet_returns v (c0 c1 c2 : color) bw gap x d :
  well_formed v ->
  returns (gradientBarsSet v (Arr [c0; c1; c2]) bw gap x d) = true.
Proof.
  intros Hwf. unfold gradientBarsSet.
  apply returns_bind_all; [ | reflexivity].
  apply for_loop_returns. intros i s Hi. cbv zeta.
  destruct (@barHeight_finite v i Hwf) as [h Eh]; [lia | ].
  rewrite Eh. destruct (getYPosition_finite v h) as [y Ey]. rewrite Ey.
  repeat (erewrite returns_bind_ok by reflexivity).
  apply returns_bind_all; [apply drawBarRect_returns | reflexivity].
Qed.

Lemma gradientBarsSet_empty v colors bw gap x d :
  (barsToUse v <= 0)%Z ->
  returns (gradientBarsSet v colors bw gap x d) = true.
Proof.
  intros Hn. unfold gradientBarsSet.
  apply returns_bind_all; [ | reflexivity].
  apply for_loop_returns. intros i s Hi. lia.
Qed.

Lemma solidBarsSet_returns v colors bw gap x d :
  colors <> Null -> colors <> Undefined ->
  returns (solidBarsSet v colors bw gap x d) = true.
Proof.
  intros Hn Hu. unfold solidBarsSet.
  apply returns_bind_all; [ | reflexivity].
  apply for_loop_returns. intros i s Hi. cbv zeta.
  apply returns_bind_all; [apply length_of_returns; assumption | intros len].
  apply returns_bind_all; [apply color_at_returns; assumption | intros c].
  apply returns_bind_all; [reflexivity | intros _].
  apply returns_bind_all; [apply drawBarRect_returns | reflexivity].
Qed.

Lemma drawSolidBars_returns v colors :
  colors <> Null -> colors <> Undefined ->
  returns (drawSolidBars v colors) = true.
Proof.
  intros Hn Hu. unfold drawSolidBars.
  destruct (barLayout (width v) (barsToUse v)) as [bw gap].
  apply returns_bind_all; [apply glow_returns; assumption | intros _].
  apply returns_bind_all; [ | reflexivity].
  apply applyMirrorMode_returns. intros x d.
  apply solidBarsSet_returns; assumption.
Qed.

Lemma drawGradientBars_returns v (c0 c1 c2 : color) :
  well_formed v ->
  returns (drawGradientBars v (Arr [c0; c1; c2])) = true.
Proof.
  intros Hwf. unfold drawGradientBars.
  destruct (barLayout (width v) (barsToUse v)) as [bw gap].
  apply returns_bind_all; [apply glow_returns; discriminate | intros _].
  apply returns_bind_all; [ | reflexivity].
  apply applyMirrorMode_returns. intros x d.
  apply gradientBarsSet_returns; assumption.
Qed.

Lemma drawGradientBars_empty v colors :
  colors <> Null -> colors <> Undefined -> (barsToUse v <= 0)%Z ->
  returns (drawGradientBars v colors) = true.
Proof.
  intros Hn Hu He. unfold drawGradientBars.
  destruct (barLayout (width v) (barsToUse v)) as [bw gap].
  apply returns_bind_all; [apply glow_returns; assumption | intros _].
  apply returns_bind_all; [ | reflexivity].
  apply applyMirrorMode_returns. intros x d.
  apply gradientBarsSet_empty; assumption.
Qed.

(** *** One rectangle per bar *)

Lemma filled_app (a b : list call) : filled (a ++ b)%list = (filled a ++ filled b)%list.
Proof.
  induction a as [ | c a IH]; [reflexivity | ].
  destruct c; cbn [app filled]; try exact IH.
  destruct (user_rect x y w h); cbn [app]; rewrite IH; reflexivity.
Qed.

Lemma filled_pass_tail {A : Type} (m : Draw A) :
  filled (trace (m;; ret tt)%draw) = filled (trace m).
Proof.
  rewrite trace_bind, filled_app.
  destruct (outcome m); cbn; apply app_nil_r.
Qed.

Lemma bind_ret {A B : Type} (a : A) (f : A -> Draw B) : bind (ret a) f = f a.
Proof.
  unfold bind, ret. destruct (f a). reflexivity.
Qed.

Lemma drawBarRect_span (v : Visualizer) (x w h : Q) :
  exists y,
    drawBarRect v (Fin x) (Fin w) (Fin h) =
    ([FillRect (Fin x) (Fin y) (Fin w) (Fin h)], Ok tt).
Proof.
  unfold drawBarRect, height, of_Z.
  destruct (String.eqb _ _); [ | destruct (String.eqb _ _)];
    eexists; reflexivity.
Qed.

(** One turn of the solid loop at a finite position: it paints one
    rectangle from [x] to [x + bw] and moves on by [bw + gap]. *)
Lemma solid_body_span (v : Visualizer) (colors : jsval) (i : Z) (x bw gap : Q) :
  colors <> Null -> colors <> Undefined ->
  well_formed v -> (0 <= i < barsToUse v)%Z ->
  let body :=
    (len <- length_of colors;;
     c <- color_at colors (colorIndex v i len);;
     emit (SetFillStyle (option_map PColor c));;
     drawBarRect v (Fin x) (Fin bw) (barHeight v i);;
     ret (add (Fin x) (mul (add (Fin bw) (Fin gap)) (Fin 1))))%draw in
  exists r, outcome body = Ok (Fin (x + (bw + gap) * 1)) /\
            filled (trace body) = [r] /\ r_x0 r = x /\ r_x1 r = x + bw.
Proof.
  intros Hn Hu Hwf Hi body. subst body.
  destruct (barHeight_finite v Hwf Hi) as [h ->].
  destruct (drawBarRect_span v x bw h) as [y Ed].
  assert (Hlen : exists len, length_of colors = ret len).
  { destruct colors; try congruence; cbn; eauto. }
  destruct Hlen as [len ->]. rewrite bind_ret.
  assert (Hc : exists c, color_at colors (colorIndex v i len) = ret c).
  { unfold color_at. destruct colors; try congruence; eauto.
    destruct (to_index _); eauto. }
  destruct Hc as [c ->]. rewrite bind_ret, Ed.
  eexists. repeat split.
Qed.

(** The same for one turn of the gradient loop, with three colours. *)
Lemma gradient_body_span (v : Visualizer) (c0 c1 c2 : color) (i : Z)
    (x bw gap : Q) :
  well_formed v -> (0 <= i < barsToUse v)%Z ->
  let body :=
    (g0 <- lift (createLinearGradient (Fin 0) (getYPosition v (barHeight v i))
                   (Fin 0)
                   (sub (getYPosition v (barHeight v i)) (barHeight v i)));;
     k0 <- color_at (Arr [c0; c1; c2]) (Fin 0);;
     g1 <- lift (addColorStop g0 0 k0);;
     k1 <- color_at (Arr [c0; c1; c2]) (Fin 1);;
     g2 <- lift (addColorStop g1 0.5 k1);;
     k2 <- color_at (Arr [c0; c1; c2]) (Fin 2);;
     g3 <- lift (addColorStop g2 1 k2);;
     emit (SetFillStyle (Some (PGradient g3)));;
     drawBarRect v (Fin x) (Fin bw) (barHeight v i);;
     ret (add (Fin x) (mul (add (Fin bw) (Fin gap)) (Fin 1))))%draw in
  exists r, outcome body = Ok (Fin (x + (bw + gap) * 1)) /\
            filled (trace body) = [r] /\ r_x0 r = x /\ r_x1 r = x + bw.
Proof.
  intros Hwf Hi body. subst body.
  destruct (barHeight_finite v Hwf Hi) as [h ->].
  unfold getYPosition, drawBarRect, height, of_Z.
  destruct (String.eqb _ _); [ | destruct (String.eqb _ _)];
    (eexists; repeat split).
Qed.

(** A loop whose body, started at [q], paints one rectangle from [q] to
    [q + bw] and moves on to [q + step]: the rectangles it paints. *)
Lemma for_loop_spans (body : Z -> num -> Draw num) (bw step : Q) (n : nat) :
  forall (lo : Z) (q : Q),
    (forall i q', (lo <= i < lo + Z.of_nat n)%Z ->
       exists r, outcome (body i (Fin q')) = Ok (Fin (q' + step)) /\
                 filled (trace (body i (Fin q'))) = [r] /\
                 r_x0 r = q' /\ r_x1 r = q' + bw) ->
    List.length (filled (trace (for_loop n lo body (Fin q)))) = n /\
    forall k, (k < n)%nat ->
      exists r, nth_error (filled (trace (for_loop n lo body (Fin q)))) k = Some r /\
                r_x0 r == q + inject_Z (Z.of_nat k) * step /\
                r_x1 r == r_x0 r + bw.
Proof.
  induction n as [ | n IH]; intros lo q H; [split; [reflexivity | lia] | ].
  cbn [for_loop]. rewrite trace_bind, filled_app.
  destruct (H lo q) as (r & Eo & Ef & E0 & E1); [lia | ].
  rewrite Eo, Ef.
  destruct (IH (lo + 1)%Z (q + step)) as [IHn IHk];
    [intros i q' Hi; apply H; lia | ].
  split; [cbn [app List.length]; rewrite IHn; reflexivity | ].
  intros k Hk. destruct k as [ | k].
  - exists r. cbn. split; [reflexivity | ]. rewrite E1, E0. split; ring.
  - cbn [app nth_error].
    destruct (IHk k) as (r' & En & Ex0 & Ex1); [lia | ].
    exists r'. split; [exact En | ]. split; [ | exact Ex1].
    rewrite Ex0, Nat2Z.inj_succ. unfold Z.succ. rewrite inject_Z_plus. ring.
Qed.

Lemma solidBarsSet_spans (v : Visualizer) (colors : jsval) (bw gap x : Q) :
  colors <> Null -> colors <> Undefined -> well_formed v ->
  let t := trace (solidBarsSet v colors (Fin bw) (Fin gap) (Fin x) (Fin 1)) in
  List.length (filled t) = Z.to_nat (barsToUse v) /\
  forall k, (k < Z.to_nat (barsToUse v))%nat ->
    exists r, nth_error (filled t) k = Some r /\
              r_x0 r == x + inject_Z (Z.of_nat k) * ((bw + gap) * 1) /\
              r_x1 r == r_x0 r + bw.
Proof.
  intros Hn Hu Hwf t. subst t. unfold solidBarsSet. rewrite filled_pass_tail.
  apply for_loop_spans. intros i q' Hi. cbv zeta.
  apply solid_body_span; try assumption. lia.
Qed.

Lemma gradientBarsSet_spans (v : Visualizer) (c0 c1 c2 : color) (bw gap x : Q) :
  well_formed v ->
  let t := trace (gradientBarsSet v (Arr [c0; c1; c2]) (Fin bw) (Fin gap)
                    (Fin x) (Fin 1)) in
  List.length (filled t) = Z.to_nat (barsToUse v) /\
  forall k, (k < Z.to_nat (barsToUse v))%nat ->
    exists r, nth_error (filled t) k = Some r /\
              r_x0 r == x + inject_Z (Z.of_nat k) * ((bw + gap) * 1) /\
              r_x1 r == r_x0 r + bw.
Proof.
  intros Hwf t. subst t. unfold gradientBarsSet. rewrite filled_pass_tail.
  apply for_loop_spans. intros i q' Hi. cbv zeta.
  apply gradient_body_span; try assumption. lia.
Qed.

(** With no bar to draw the layout values are not finite, but the loop does
    not run. *)
Lemma empty_pass_count {S : Type} (body : Z -> S -> Draw S) (s : S) (n : Z) :
  (n <= 0)%Z ->
  List.length (filled (trace (for_loop (Z.to_nat n) 0 body s;; ret tt)%draw))
  = Z.to_nat n.
Proof.
  intros Hn. replace (Z.to_nat n) with 0%nat by lia. reflexivity.
Qed.

(** The first pass paints one rectangle per bar. *)
Lemma first_pass_count (v : Visualizer) (colors : jsval) :
  well_formed v ->
  forall (x : Q),
  let barWidth := fst (barLayout (width v) (barsToUse v)) in
  let gap := snd (barLayout (width v) (barsToUse v)) in
  (colors <> Null -> colors <> Undefined ->
   List.length (rects (trace (solidBarsSet v colors barWidth gap (Fin x) (Fin 1))))
   = Z.to_nat (barsToUse v)) /\
  (forall c0 c1 c2, colors = Arr [c0; c1; c2] ->
   List.length (rects (trace (gradientBarsSet v colors barWidth gap (Fin x) (Fin 1))))
   = Z.to_nat (barsToUse v)).
Proof.
  intros Hwf x barWidth gap. subst barWidth gap.
  split.
  - intros Hn Hu.
    rewrite (rects_quiet (solidBarsSet_quiet _ _ _ _ _ _)), length_map.
    destruct (Z.le_gt_cases (barsToUse v) 0) as [He | Hp].
    + unfold solidBarsSet. apply empty_pass_count. exact He.
    + unfold width, of_Z. rewrite barLayout_finite by lia. cbn [fst snd].
      apply solidBarsSet_spans; assumption.
  - intros c0 c1 c2 ->.
    rewrite (rects_quiet (gradientBarsSet_quiet _ _ _ _ _ _)), length_map.
    destruct (Z.le_gt_cases (barsToUse v) 0) as [He | Hp].
    + unfold gradientBarsSet. apply empty_pass_count. exact He.
    + unfold width, of_Z. rewrite barLayout_finite by lia. cbn [fst snd].
      apply gradientBarsSet_spans; assumption.
Qed.

(** *** From the first bar to the last *)

(** From the spans of a pass started at 0, laid out for the canvas, to the
    edges of the surface. *)
Lemma spans_to_surface (v : Visualizer) (pass : num -> num -> Draw unit) :
  (1 <= barsToUse v)%Z ->
  Forall quiet (trace (pass (Fin 0) (Fin 1))) ->
  (forall k, (k < Z.to_nat (barsToUse v))%nat ->
     exists r,
       nth_error (filled (trace (pass (Fin 0) (Fin 1)))) k = Some r /\
       r_x0 r == 0 + inject_Z (Z.of_nat k)
                     * ((((inject_Z (canvas_width v)
                           + - ((inject_Z (barsToUse v) + - 1)
                                * (inject_Z (canvas_width v) / inject_Z (barsToUse v))
                                * 0.2))
                          / inject_Z (barsToUse v))
                         + inject_Z (canvas_width v) / inject_Z (barsToUse v) * 0.2)
                        * 1) /\
       r_x1 r == r_x0 r
                 + (inject_Z (canvas_width v)
                    + - ((inject_Z (barsToUse v) + - 1)
                         * (inject_Z (canvas_width v) / inject_Z (barsToUse v))
                         * 0.2))
                   / inject_Z (barsToUse v)) ->
  spans_surface v pass.
Proof.
  intros Hn Hq H. unfold spans_surface. rewrite (rects_quiet Hq).
  destruct (H 0%nat) as (first & E0 & F0 & _); [lia | ].
  destruct (H (Z.to_nat (barsToUse v) - 1)%nat) as (final & E1 & F1 & G1); [lia | ].
  exists (image identity first), (image identity final).
  rewrite !nth_error_map, E0, E1. split; [reflexivity | ]. split; [reflexivity | ].
  unfold image, identity. cbn [r_x0 r_x1 m_sx m_tx].
  assert (Hnz : ~ inject_Z (barsToUse v) == 0).
  { intros E. unfold Qeq in E. cbn in E. lia. }
  split.
  - rewrite F0. cbn [Z.of_nat]. ring.
  - rewrite G1, F1.
    replace (Z.of_nat (Z.to_nat (barsToUse v) - 1)) with (barsToUse v + - 1)%Z by lia.
    rewrite inject_Z_plus. change (inject_Z (-1)) with (- 1).
    field. exact Hnz.
Qed.

Lemma solid_pass_spans_surface (v : Visualizer) (colors : jsval) :
  colors <> Null -> colors <> Undefined ->
  well_formed v -> (1 <= barsToUse v)%Z ->
  spans_surface v
    (solidBarsSet v colors (fst (barLayout (width v) (barsToUse v)))
       (snd (barLayout (width v) (barsToUse v)))).
Proof.
  intros Hn Hu Hwf Hb. unfold width, of_Z.
  rewrite (barLayout_finite _ Hb). cbn [fst snd].
  apply spans_to_surface; [exact Hb | apply solidBarsSet_quiet | ].
  apply solidBarsSet_spans; assumption.
Qed.

Lemma gradient_pass_spans_surface (v : Visualizer) (c0 c1 c2 : color) :
  well_formed v -> (1 <= barsToUse v)%Z ->
  spans_surface v
    (gradientBarsSet v (Arr [c0; c1; c2])
       (fst (barLayout (width v) (barsToUse v)))
       (snd (barLayout (width v) (barsToUse v)))).
Proof.
  intros Hwf Hb. unfold width, of_Z.
  rewrite (barLayout_finite _ Hb). cbn [fst snd].
  apply spans_to_surface; [exact Hb | apply gradientBarsSet_quiet | ].
  apply gradientBarsSet_spans; assumption.
Qed.

(** C4.  For a bar count at most the spectrum length, at least one bar and
    a positive surface width, the widths of the bars plus the gaps between
    them, as both bar styles compute them, add up to the surface width.
    The bars are painted accordingly: a pass started at the left edge, over
    a data array of [bufferLength] entries, puts the left side of its first
    rectangle at 0 and the right side of its last rectangle at the canvas
    width (for the gradient style, when the theme is not a name inherited
    from [Object.prototype], so that the pass is drawn to the end). *)
Theorem bar_layout_fills_width :
  (forall (w : Q) (barCount spectrumLength : Z),
      0 < w ->
      (barCount <= spectrumLength)%Z ->
      (1 <= Z.min barCount spectrumLength)%Z ->
      exists barWidth gap total : Q,
        barLayout (Fin w) (Z.min barCount spectrumLength)
          = (Fin barWidth, Fin gap) /\
        extent (Z.min barCount spectrumLength) (Fin barWidth) (Fin gap)
          = Fin total /\
        total == w) /\
  (forall v : Visualizer,
      well_formed v ->
      (0 < canvas_width v)%Z ->
      (barCount (settings v) <= bufferLength v)%Z ->
      (1 <= barsToUse v)%Z ->
      let colors := getColorScheme v in
      let barWidth := fst (barLayout (width v) (barsToUse v)) in
      let gap := snd (barLayout (width v) (barsToUse v)) in
      spans_surface v (solidBarsSet v colors barWidth gap) /\
      (assoc (colorTheme (settings v)) inherited = None ->
       spans_surface v (gradientBarsSet v colors barWidth gap))).
Proof.
  split.
  - intros w barCount spectrumLength Hw Hle Hn.
    set (n := Z.min barCount spectrumLength) in *.
    rewrite (barLayout_finite w Hn).
    do 3 eexists. split; [reflexivity | ]. split; [reflexivity | ].
    assert (Hnz : ~ inject_Z n == 0).
    { intros E. unfold Qeq in E. cbn in E. lia. }
    field. exact Hnz.
  - intros v Hwf Hw Hle Hn colors barWidth gap.
    destruct (getColorScheme_defined v) as [Hnull Hundef].
    split.
    + apply solid_pass_spans_surface; assumption.
    + intros Ht. destruct (getColorScheme_triple v Ht) as (c0 & c1 & c2 & E).
      subst colors barWidth gap. rewrite E.
      apply gradient_pass_spans_surface; assumption.
Qed.

(** C7.  Under the horizontal mirror mode the rectangles a bar frame
    paints are those of its first pass, started at the centre, followed by
    their reflections across the vertical centre line of the canvas; under
    the vertical mirror mode they are those of the first pass followed by
    their reflections across the horizontal centre line ([two_halves]).
    The second pass replays the calls of the first under the reflecting
    transformation, so the rectangles correspond one to one with the same
    magnitudes.  This holds for every solid frame, which is always drawn to
    the end, and for every gradient frame that is drawn to the end, which
    is the case when the data array has [bufferLength] entries and the
    theme is not a name inherited from [Object.prototype].  With such a
    data array the first pass paints one rectangle per bar. *)
Theorem mirror_is_reflection (v : Visualizer) :
  let colors := getColorScheme v in
  let barWidth := fst (barLayout (width v) (barsToUse v)) in
  let gap := snd (barLayout (width v) (barsToUse v)) in
  let solid := solidBarsSet v colors barWidth gap in
  let gradient := gradientBarsSet v colors barWidth gap in
  (returns (drawSolidBars v colors) = true /\
   two_halves v solid (drawSolidBars v colors) /\
   (well_formed v ->
    forall x : Q,
      List.length (rects (trace (solid (Fin x) (Fin 1))))
      = Z.to_nat (barsToUse v))) /\
  (returns (drawGradientBars v colors) = true ->
   two_halves v gradient (drawGradientBars v colors)) /\
  (well_formed v -> assoc (colorTheme (settings v)) inherited = None ->
   returns (drawGradientBars v colors) = true /\
   forall x : Q,
     List.length (rects (trace (gradient (Fin x) (Fin 1))))
     = Z.to_nat (barsToUse v)).
Proof.
  intros colors barWidth gap solid gradient.
  destruct (getColorScheme_defined v) as [Hn Hu]. fold colors in Hn, Hu.
  assert (Hs : returns (drawSolidBars v colors) = true)
    by (apply drawSolidBars_returns; assumption).
  split; [split; [exact Hs | split] | split].
  - revert Hs. unfold drawSolidBars. subst solid barWidth gap.
    destruct (barLayout (width v) (barsToUse v)) as [bw gp]. cbn [fst snd].
    apply bar_frame_mirrored. intros x d. apply solidBarsSet_quiet.
  - intros Hwf x.
    exact (proj1 (@first_pass_count v colors Hwf x) Hn Hu).
  - unfold drawGradientBars. subst gradient barWidth gap.
    destruct (barLayout (width v) (barsToUse v)) as [bw gp]. cbn [fst snd].
    apply bar_frame_mirrored. intros x d. apply gradientBarsSet_quiet.
  - intros Hwf Ht.
    destruct (getColorScheme_triple v Ht) as (c0 & c1 & c2 & E).
    fold colors in E. split.
    + rewrite E. apply drawGradientBars_returns. exact Hwf.
    + intros x. exact (proj2 (@first_pass_count v colors Hwf x) c0 c1 c2 E).
Qed.

End Bars.

(* ------------------------------------------------------------------ *)
(** ** Rendering without an analyser *)

Section WithoutAnalyser.

Import JS Canvas Visualizer.
Local Open Scope Q_scope.
Local Open Scope string_scope.

Variables Math_cos Math_sin : num -> num.
Variable Math_PI : num.

Lemma drawCircularBars_empty v colors :
  colors <> Null -> colors <> Undefined -> (barsToUse v <= 0)%Z ->
  returns (drawCircularBars Math_cos Math_sin Math_PI v colors) = true.
Proof.
  intros Hn Hu He. unfold drawCircularBars. cbv zeta.
  apply returns_bind_all; [apply glow_returns; assumption | intros _].
  apply returns_bind_all; [ | reflexivity].
  apply for_loop_returns. intros i s Hi. lia.
Qed.

Lemma drawWaveForm_empty v colors :
  colors <> Null -> colors <> Undefined -> (bufferLength v <= 0)%Z ->
  returns (drawWaveForm v colors) = true.
Proof.
  intros Hn Hu He. unfold drawWaveForm.
  apply returns_bind_all; [apply glow_returns; assumption | intros _].
  apply returns_bind_all; [reflexivity | intros _].
  apply returns_bind_all; [apply color_at_returns; assumption | intros c].
  apply returns_bind_all; [reflexivity | intros _].
  apply returns_bind_all; [reflexivity | intros _]. cbv zeta.
  apply returns_bind_all; [ | intros _].
  - apply for_loop_returns. intros i s Hi. lia.
  - apply returns_bind_all; [reflexivity | reflexivity].
Qed.

Lemma drawSpectrum_empty v colors :
  colors <> Null -> colors <> Undefined -> (barsToUse v <= 0)%Z ->
  returns (drawSpectrum Math_cos Math_sin Math_PI v colors) = true.
Proof.
  intros Hn Hu He. unfold drawSpectrum. cbv zeta.
  apply returns_bind_all; [apply glow_returns; assumption | intros _].
  apply returns_bind_all; [ | reflexivity].
  apply for_loop_returns. intros ring s _.
  apply returns_bind_all; [reflexivity | intros _].
  apply returns_bind_all;
    [apply for_loop_returns; intros i s' Hi; lia | intros _].
  apply returns_bind_all; [reflexivity | intros _].
  apply returns_bind_all; [apply length_of_returns; assumption | intros len].
  apply returns_bind_all; [apply color_at_returns; assumption | intros c].
  apply returns_bind_all; [reflexivity | intros _].
  apply returns_bind_all; [reflexivity | reflexivity].
Qed.

(** C6.  Without an analyser ([dataArray] null, [bufferLength] 0) every
    spectrum read yields the constant fallback of its call site (10 for a
    bar height), and the draw pass of each of the five styles, as well as
    the style dispatch of [draw], runs to its end without throwing,
    whatever the settings.  The whole of [draw] then runs to its end
    whenever the background step and the overlay hook do. *)
Theorem render_without_analyser (v : Visualizer) :
  dataArray v = None -> bufferLength v = 0%Z ->
  (forall idx f fallback, sample v idx f fallback = fallback) /\
  (forall i, barHeight v i = Fin 10) /\
  returns (drawGradientBars v (getColorScheme v)) = true /\
  returns (drawSolidBars v (getColorScheme v)) = true /\
  returns (drawCircularBars Math_cos Math_sin Math_PI v (getColorScheme v)) = true /\
  returns (drawWaveForm v (getColorScheme v)) = true /\
  returns (drawSpectrum Math_cos Math_sin Math_PI v (getColorScheme v)) = true /\
  returns (drawStyle Math_cos Math_sin Math_PI v) = true /\
  (forall (background : Draw unit) (onDraw : option (Draw unit)),
      returns background = true ->
      match onDraw with Some overlays => returns overlays = true | None => True end ->
      returns (draw Math_cos Math_sin Math_PI v background onDraw) = true).
Proof.
  intros Hd Hb.
  destruct (getColorScheme_defined v) as [Hn Hu].
  assert (He : (barsToUse v <= 0)%Z).
  { unfold barsToUse. rewrite Hb. apply Z.le_min_r. }
  assert (Hs : forall idx f fallback, sample v idx f fallback = fallback).
  { intros idx f fallback. unfold sample. rewrite Hd. reflexivity. }
  assert (H1 := drawGradientBars_empty v Hn Hu He).
  assert (H2 := drawSolidBars_returns v Hn Hu).
  assert (H3 := drawCircularBars_empty v Hn Hu He).
  assert (H4 : returns (drawWaveForm v (getColorScheme v)) = true).
  { apply drawWaveForm_empty; try assumption. lia. }
  assert (H5 := drawSpectrum_empty v Hn Hu He).
  assert (H6 : returns (drawStyle Math_cos Math_sin Math_PI v) = true).
  { unfold drawStyle. cbv zeta.
    repeat (destruct (String.eqb _ _); [assumption | ]). reflexivity. }
  repeat split; try assumption.
  - intros i. apply Hs.
  - intros background onDraw Hbg Hod. unfold draw.
    apply returns_bind_all; [exact Hbg | intros _].
    apply returns_bind_all; [exact H6 | intros _].
    destruct onDraw; [exact Hod | reflexivity].
Qed.

End WithoutAnalyser.

Lemma mirror_is_reflection_witness :
  let v := Visualizer.mkVisualizer 100 50 true true
             (Some [10; 20; 30; 40]%Z) 4
             (Visualizer.mkSettings "gradient" 1 "default" 1 "bottom" 4
                "horizontal" 0 (JS.VNum 30))
             None (JS.Fin 0) (JS.Fin 0) 0 in
  let colors := Visualizer.getColorScheme v in
  let layout := Visualizer.barLayout (Visualizer.width v) (Visualizer.barsToUse v) in
  Canvas.returns (Visualizer.drawGradientBars v colors) = true /\
  Visualizer.two_halves v
    (Visualizer.gradientBarsSet v colors (fst layout) (snd layout))
    (Visualizer.drawGradientBars v colors) /\
  List.length
    (Canvas.rects
       (Canvas.trace
          (Visualizer.solidBarsSet v colors (fst layout) (snd layout)
             (JS.Fin 50) (JS.Fin 1)))) = 4%nat.
Proof.
  intros v colors layout.
  destruct (mirror_is_reflection v) as ((_ & _ & Hcount) & Hhalves & Htotal).
  assert (Hwf : Visualizer.well_formed v) by reflexivity.
  destruct (Htotal Hwf eq_refl) as [Hret _].
  split; [exact Hret | split; [exact (Hhalves Hret) | exact (Hcount Hwf 50%Q)]].
Defined.

Lemma render_without_analyser_witness :
  Canvas.returns
    (Visualizer.drawStyle (fun _ => JS.NaN) (fun _ => JS.NaN) JS.NaN
       (Visualizer.constructor 1280 720)) = true /\
  Canvas.returns
    (Visualizer.draw (fun _ => JS.NaN) (fun _ => JS.NaN) JS.NaN
       (Visualizer.constructor 1280 720) (Canvas.ret tt) None) = true.
Proof.
  destruct (render_without_analyser (fun _ => JS.NaN) (fun _ => JS.NaN) JS.NaN
              (Visualizer.constructor 1280 720) eq_refl eq_refl)
    as (_ & _ & _ & _ & _ & _ & _ & H & Hdraw).
  split; [exact H | exact (Hdraw (Canvas.ret tt) None eq_refl I)].
Defined.

Lemma bar_layout_fills_width_witness :
  (exists barWidth gap total : Q,
     Visualizer.barLayout (JS.Fin 1280) (Z.min 64 256)
       = (JS.Fin barWidth, JS.Fin gap) /\
     Visualizer.extent (Z.min 64 256) (JS.Fin barWidth) (JS.Fin gap)
       = JS.Fin total /\
     (total == 1280)%Q) /\
  (let v := Visualizer.setupAudio (Visualizer.constructor 1280 720) in
   let layout :=
     Visualizer.barLayout (Visualizer.width v) (Visualizer.barsToUse v) in
   Visualizer.spans_surface v
     (Visualizer.gradientBarsSet v (Visualizer.getColorScheme v)
        (fst layout) (snd layout))).
Proof.
  destruct bar_layout_fills_width as [H1 H2].
  split.
  - apply (H1 1280%Q 64%Z 256%Z); [reflexivity | lia | lia].
  - intros v layout.
    assert (Hwf : Visualizer.well_formed v) by reflexivity.
    refine (proj2 (H2 v Hwf _ _ _) eq_refl).
    + reflexivity.
    + discriminate.
    + discriminate.
Defined.

Section BackgroundFit.

Import JS Background.
Local Open Scope Q_scope.

Lemma inject_Z_pos (z : Z) : (0 < z)%Z -> 0 < inject_Z z.
Proof.
  intros H. unfold Qlt. cbn. lia.
Qed.

Lemma div_positive (a b : Z) :
  (0 < b)%Z -> div (of_Z a) (of_Z b) = Fin (inject_Z a / inject_Z b).
Proof.
  intros Hb. unfold div, of_Z. rewrite inject_Z_nonzero by lia. reflexivity.
Qed.

Lemma coverCrop_covers (cw ch w h : Z) :
  (0 < cw)%Z -> (0 < ch)%Z -> (0 < w)%Z -> (0 < h)%Z ->
  covers (coverCrop cw ch w h) (inject_Z cw) (inject_Z ch) (inject_Z w) (inject_Z h).
Proof.
  intros Hcw Hch Hw Hh. unfold coverCrop.
  rewrite !div_positive by assumption.
  pose proof (inject_Z_pos Hcw) as Pcw. pose proof (inject_Z_pos Hch) as Pch.
  pose proof (inject_Z_pos Hw) as Pw. pose proof (inject_Z_pos Hh) as Ph.
  set (a := inject_Z cw) in *. set (b := inject_Z ch) in *.
  set (m := inject_Z w) in *. set (n := inject_Z h) in *.
  assert (Pab : 0 < a / b) by (apply Qlt_shift_div_l; lra).
  unfold ltb, mul, sub, add, neg, div, of_Z. fold m n.
  change (Qeq_bool 2 0) with false.
  destruct (Qle_bool (m / n) (a / b)) eqn:E; cbn [negb].
  - (* the medium is not wider than the canvas: full width *)
    apply Qle_bool_iff in E.
    assert (Hnz : Qeq_bool (a / b) 0 = false).
    { destruct (Qeq_bool (a / b) 0) eqn:E0; [ | reflexivity].
      apply Qeq_bool_iff in E0. lra. }
    rewrite Hnz.
    assert (Hs : m / (a / b) <= n).
    { apply Qle_shift_div_r; [exact Pab | ].
      setoid_replace m with (m / n * n) at 1 by (field; lra).
      setoid_replace (n * (a / b)) with (a / b * n) by ring.
      apply Qmult_le_compat_r; lra. }
    assert (Ps : 0 < m / (a / b)) by (apply Qlt_shift_div_l; lra).
    do 4 eexists. split; [reflexivity | ].
    repeat split; try lra;
      try (apply Qle_shift_div_l; lra); try (field; repeat split; lra).
  - (* the medium is wider than the canvas: full height *)
    assert (L : a / b < m / n).
    { apply Qnot_le_lt. intros H. apply Qle_bool_iff in H. congruence. }
    assert (Hs : n * (a / b) < m).
    { setoid_replace m with (m / n * n) by (field; lra).
      setoid_replace (n * (a / b)) with (a / b * n) by ring.
      apply Qmult_lt_compat_r; lra. }
    assert (Ps : 0 < n * (a / b)) by (apply Qmult_lt_0_compat; lra).
    do 4 eexists. split; [reflexivity | ].
    repeat split; try lra;
      try (apply Qle_shift_div_l; lra); try (field; repeat split; lra).
Qed.

(** X1.  A background medium that reports a size is drawn cropped to cover
    the canvas: the source rectangle passed to [drawImage], by
    [drawBackgroundOnly] and by [updateCachedBackground] alike, lies inside
    the medium, is centred in it, spans it in full along one side and has
    the proportions of the canvas.  A medium that reports no width or no
    height is not drawn by [drawBackgroundOnly]. *)
Theorem background_is_cropped_to_cover (cw ch w h : Z) :
  (0 < cw)%Z -> (0 < ch)%Z -> (0 < w)%Z -> (0 < h)%Z ->
  (forall m, mediaWidth m = w -> mediaHeight m = h ->
     exists c, drawBackgroundOnly cw ch (Some m) = Some c /\
               covers c (inject_Z cw) (inject_Z ch) (inject_Z w) (inject_Z h)) /\
  (exists c, updateCachedBackground cw ch (Some (w, h)) = Some c /\
             covers c (inject_Z cw) (inject_Z ch) (inject_Z w) (inject_Z h)) /\
  (forall m, (mediaWidth m <= 0)%Z \/ (mediaHeight m <= 0)%Z ->
     drawBackgroundOnly cw ch (Some m) = None).
Proof.
  intros Hcw Hch Hw Hh. split; [ | split].
  - intros m Ew Eh. unfold drawBackgroundOnly. rewrite Ew, Eh.
    destruct (Z.ltb_spec 0 w); [ | lia]. destruct (Z.ltb_spec 0 h); [ | lia].
    cbn [andb]. eexists. split; [reflexivity | ].
    apply coverCrop_covers; assumption.
  - eexists. split; [reflexivity | ]. apply coverCrop_covers; assumption.
  - intros m Hm. unfold drawBackgroundOnly.
    destruct (Z.ltb_spec 0 (mediaWidth m));
      destruct (Z.ltb_spec 0 (mediaHeight m));
      cbn [andb]; try reflexivity. lia.
Qed.

End BackgroundFit.

(* ------------------------------------------------------------------ *)
(** ** What a frame leaves in the context *)

Section Leaks.

Import JS Canvas Visualizer CanvasState.
Local Open Scope Q_scope.
Local Open Scope string_scope.

Variables Math_cos Math_sin : num -> num.
Variable Math_PI : num.

Abbreviation calm := (Forall (fun c : call => keeps_colour c = true)).

Lemma calm_bind {A B : Type} (m : Draw A) (f : A -> Draw B) :
  calm (trace m) -> (forall a, calm (trace (f a))) -> calm (trace (bind m f)).
Proof.
  intros Hm Hf. rewrite trace_bind. apply Forall_app. split; [exact Hm | ].
  destruct (outcome m); [apply Hf | constructor].
Qed.

Lemma calm_for_loop {S : Type} (body : Z -> S -> Draw S) (n : nat) :
  (forall i s, calm (trace (body i s))) ->
  forall (lo : Z) (s : S), calm (trace (for_loop n lo body s)).
Proof.
  intros H. induction n as [ | n IH]; intros lo s; [constructor | ].
  cbn [for_loop]. apply calm_bind; [apply H | intros s'; apply IH].
Qed.

Lemma calm_emit (c : call) : keeps_colour c = true -> calm (trace (emit c)).
Proof.
  intros H. repeat constructor. exact H.
Qed.

Lemma calm_nil {A : Type} (m : Draw A) : trace m = [] -> calm (trace m).
Proof.
  intros ->. constructor.
Qed.

Lemma calm_drawBarRect (v : Visualizer) (x w h : num) :
  calm (trace (drawBarRect v x w h)).
Proof.
  unfold drawBarRect.
  destruct (String.eqb _ _); [ | destruct (String.eqb _ _)]; repeat constructor.
Qed.

Ltac calm_steps :=
  repeat (apply calm_bind; [ | intros ? ]);
  try (apply calm_nil; reflexivity);
  try (apply calm_nil; apply color_at_trace);
  try (apply calm_nil; apply length_of_trace);
  try apply calm_drawBarRect;
  try (apply calm_emit; reflexivity).

Lemma calm_gradientBarsSet v colors bw gap x d :
  calm (trace (gradientBarsSet v colors bw gap x d)).
Proof.
  unfold gradientBarsSet.
  apply calm_bind; [ | intros; apply calm_nil; reflexivity].
  apply calm_for_loop. intros i s. cbv zeta. calm_steps.
Qed.

Lemma calm_solidBarsSet v colors bw gap x d :
  calm (trace (solidBarsSet v colors bw gap x d)).
Proof.
  unfold solidBarsSet.
  apply calm_bind; [ | intros; apply calm_nil; reflexivity].
  apply calm_for_loop. intros i s. cbv zeta. calm_steps.
Qed.

(** Calm calls change nothing but the blur. *)
Lemma run_calm (t : list call) :
  calm t ->
  forall s, exists b, forall saved rest,
    run s saved (t ++ rest)
    = run (mkState (transformation s) b (shadowColor s)) saved rest.
Proof.
  induction 1 as [ | c t Hc Ht IH]; intros s.
  - exists (shadowBlur s). intros saved rest. destruct s; reflexivity.
  - destruct c; try discriminate Hc; cbn [app run]; try exact (IH s).
    destruct (IH (set_blur s b)) as [b' Hb']. exists b'.
    intros saved rest. rewrite Hb'.
    unfold set_blur. destruct b; try reflexivity.
    destruct (Qle_bool 0 q); reflexivity.
Qed.

(** The opening of a style sets the blur and the colour of the glow. *)
Lemma run_glow (v : Visualizer) (colors : jsval) (k : Z) :
  returns (glow v colors k) = true ->
  forall s, exists b, forall saved rest,
    run s saved (trace (glow v colors k) ++ rest)
    = run (mkState (transformation s) b (glowColor v colors k (shadowColor s)))
        saved rest.
Proof.
  unfold glow, glowColor. intros Hr s. destruct s as [T b0 col].
  destruct (0 <? glowIntensity (settings v))%Z.
  - rewrite returns_bind in Hr. cbn [outcome emit snd] in Hr.
    rewrite returns_bind in Hr.
    destruct (outcome (color_at colors (of_Z k))) as [c | e] eqn:Oc;
      [ | discriminate Hr].
    exists (shadowBlur (set_blur (mkState T b0 col)
                          (of_Z (glowIntensity (settings v))))).
    intros saved rest.
    rewrite trace_bind. cbn [outcome emit snd trace fst].
    rewrite trace_bind, Oc, color_at_trace. cbn [trace emit fst app run].
    unfold set_blur, of_Z.
    destruct (Qle_bool 0 (inject_Z (glowIntensity (settings v))));
      destruct c; reflexivity.
  - exists b0. intros saved rest. reflexivity.
Qed.

(** The two passes of a mirror mode, with their [save] and [restore], leave
    the transformation, its stack and the shadow colour as they found
    them. *)
Lemma run_applyMirrorMode (v : Visualizer) (f : num -> num -> Draw unit) :
  (forall x d, calm (trace (f x d))) ->
  returns (applyMirrorMode v f) = true ->
  forall s, exists b, forall saved rest,
    run s saved (trace (applyMirrorMode v f) ++ rest) =
    run (mkState (transformation s) b (shadowColor s)) saved rest.
Proof.
  intros Hq Hret s. unfold applyMirrorMode in *. cbv zeta in *.
  destruct (String.eqb (mirrorMode (settings v)) "horizontal").
  - pose proof (Hq (div (width v) (Fin 2)) (Fin 1)) as Hp.
    destruct (f (div (width v) (Fin 2)) (Fin 1)) as [t [[] | e]] eqn:Ep;
      [ | unfold returns, outcome, bind, emit in Hret; cbn [snd fst] in Hret;
          discriminate Hret].
    cbn [trace fst] in Hp.
    destruct (run_calm Hp s) as [b1 H1].
    destruct (run_calm Hp
                (mkState (translate (scale (transformation s) (-1) 1)
                            (- inject_Z (canvas_width v)) 0) b1 (shadowColor s)))
      as [b2 H2].
    exists (shadowBlur s). intros saved rest.
    unfold bind, emit. cbn [trace fst snd app neg width of_Z].
    rewrite <- !app_assoc. cbn [app run]. rewrite H1. cbn [app run].
    rewrite <- !app_assoc.
    cbn [transformation shadowBlur shadowColor]. rewrite H2. cbn [app run].
    destruct s; reflexivity.
  - destruct (String.eqb (mirrorMode (settings v)) "vertical").
    + pose proof (Hq (Fin 0) (Fin 1)) as Hp.
      destruct (f (Fin 0) (Fin 1)) as [t [[] | e]] eqn:Ep;
        [ | unfold returns, outcome, bind, emit in Hret; cbn [snd fst] in Hret;
            discriminate Hret].
      cbn [trace fst] in Hp.
      destruct (run_calm Hp s) as [b1 H1].
      destruct (run_calm Hp
                  (mkState (translate (scale (transformation s) 1 (-1))
                              0 (- inject_Z (canvas_height v))) b1
                     (shadowColor s))) as [b2 H2].
      exists b1. intros saved rest.
      unfold bind, emit. cbn [trace fst snd app neg height of_Z].
      rewrite <- !app_assoc. rewrite H1. cbn [app run].
      rewrite <- !app_assoc.
      cbn [transformation shadowBlur shadowColor]. rewrite H2. cbn [app run].
      reflexivity.
    + apply run_calm. apply Hq.
Qed.

(** A style made of the glow, passes under a mirror mode and the reset of
    the blur. *)
Lemma bar_frame_state v colors (pass : num -> num -> Draw unit) :
  (forall x d, calm (trace (pass x d))) ->
  let whole :=
    bind (glow v colors 0) (fun _ =>
    bind (applyMirrorMode v pass) (fun _ => emit (SetShadowBlur (Fin 0)))) in
  returns whole = true ->
  forall s saved,
    run s saved (trace whole)
    = (mkState (transformation s) 0 (glowColor v colors 0 (shadowColor s)),
       saved).
Proof.
  intros Hq whole Hret s saved. subst whole.
  apply returns_bind_inv in Hret. destruct Hret as ([] & Hg & Hret).
  assert (Hgr : returns (glow v colors 0) = true).
  { unfold returns. rewrite Hg. reflexivity. }
  assert (Hm : returns (applyMirrorMode v pass) = true).
  { apply returns_bind_inv in Hret. destruct Hret as ([] & Hm & _).
    unfold returns. rewrite Hm. reflexivity. }
  rewrite trace_bind, Hg, trace_bind.
  assert (Em : outcome (applyMirrorMode v pass) = Ok tt).
  { unfold returns in Hm. destruct (outcome (applyMirrorMode v pass)) as [[] | ];
      [reflexivity | discriminate]. }
  rewrite Em. cbn [trace emit fst].
  destruct (run_glow v colors 0 Hgr s) as [b1 H1]. rewrite H1.
  destruct (run_applyMirrorMode v pass Hq Hm
              (mkState (transformation s) b1
                 (glowColor v colors 0 (shadowColor s)))) as [b2 H2].
  rewrite H2. reflexivity.
Qed.

(** A style made of the glow, calm calls and the reset of the blur. *)
Lemma calm_frame_state v colors k (rest : Draw unit) :
  calm (trace rest) ->
  (returns rest = true -> ends_with (SetShadowBlur (Fin 0)) (trace rest)) ->
  returns (bind (glow v colors k) (fun _ => rest)) = true ->
  forall s saved,
    run s saved (trace (bind (glow v colors k) (fun _ => rest)))
    = (mkState (transformation s) 0 (glowColor v colors k (shadowColor s)),
       saved).
Proof.
  intros Hc He Hret s saved.
  apply returns_bind_inv in Hret. destruct Hret as ([] & Hg & Hr).
  assert (Hgr : returns (glow v colors k) = true).
  { unfold returns. rewrite Hg. reflexivity. }
  destruct (He Hr) as [before E].
  rewrite trace_bind, Hg, E.
  destruct (run_glow v colors k Hgr s) as [b1 H1]. rewrite H1.
  rewrite E in Hc. apply Forall_app in Hc. destruct Hc as [Hb _].
  destruct (run_calm Hb (mkState (transformation s) b1
                           (glowColor v colors k (shadowColor s)))) as [b2 H2].
  rewrite H2. reflexivity.
Qed.

Lemma ends_with_bind {A B : Type} (c : call) (m : Draw A) (f : A -> Draw B) :
  (forall a, returns (f a) = true -> ends_with c (trace (f a))) ->
  returns (bind m f) = true -> ends_with c (trace (bind m f)).
Proof.
  intros Hf Hret. apply returns_bind_inv in Hret. destruct Hret as (a & Ea & Hr).
  rewrite trace_bind, Ea. destruct (Hf a Hr) as [before E]. rewrite E.
  exists (trace m ++ before)%list. apply app_assoc.
Qed.

Lemma ends_with_emit (c : call) : ends_with c (trace (emit c)).
Proof.
  exists []. reflexivity.
Qed.

(** X2.  What a frame leaves of its glow and of its mirror mode: each style
    routine that is drawn to the end leaves the blur at 0 and the
    transformation and the stack of saved states as they were, but it does
    not reset the shadow colour.  With the glow on, the context keeps the
    colour of the glow (the first colour of the scheme, the second one for
    the wave) for whatever is drawn next; with the glow off the shadow
    colour is as before. *)
Theorem frame_resets_blur_and_transform_not_glow_colour (v : Visualizer)
    (colors : jsval) (s : state) (saved : list state) :
  (returns (drawGradientBars v colors) = true ->
   run s saved (trace (drawGradientBars v colors))
   = (mkState (transformation s) 0 (glowColor v colors 0 (shadowColor s)),
      saved)) /\
  (returns (drawSolidBars v colors) = true ->
   run s saved (trace (drawSolidBars v colors))
   = (mkState (transformation s) 0 (glowColor v colors 0 (shadowColor s)),
      saved)) /\
  (returns (drawCircularBars Math_cos Math_sin Math_PI v colors) = true ->
   run s saved (trace (drawCircularBars Math_cos Math_sin Math_PI v colors))
   = (mkState (transformation s) 0 (glowColor v colors 0 (shadowColor s)),
      saved)) /\
  (returns (drawWaveForm v colors) = true ->
   run s saved (trace (drawWaveForm v colors))
   = (mkState (transformation s) 0 (glowColor v colors 1 (shadowColor s)),
      saved)) /\
  (returns (drawSpectrum Math_cos Math_sin Math_PI v colors) = true ->
   run s saved (trace (drawSpectrum Math_cos Math_sin Math_PI v colors))
   = (mkState (transformation s) 0 (glowColor v colors 0 (shadowColor s)),
      saved)) /\
  (forall (c0 c1 c2 before : color),
     (0 < glowIntensity (settings v))%Z ->
     glowColor v (Arr [c0; c1; c2]) 0 before = c0 /\
     glowColor v (Arr [c0; c1; c2]) 1 before = c1) /\
  (forall (k : Z) (before : color),
     (glowIntensity (settings v) <= 0)%Z ->
     glowColor v colors k before = before).
Proof.
  refine (conj _ (conj _ (conj _ (conj _ (conj _ (conj _ _)))))).
  - unfold drawGradientBars.
    destruct (barLayout (width v) (barsToUse v)) as [bw gp]. intros H.
    apply (bar_frame_state v colors (gradientBarsSet v colors bw gp)); [ | exact H].
    intros x d. apply calm_gradientBarsSet.
  - unfold drawSolidBars.
    destruct (barLayout (width v) (barsToUse v)) as [bw gp]. intros H.
    apply (bar_frame_state v colors (solidBarsSet v colors bw gp)); [ | exact H].
    intros x d. apply calm_solidBarsSet.
  - unfold drawCircularBars. cbv zeta. intros H.
    apply calm_frame_state; [ | | exact H].
    + apply calm_bind; [ | intros _; apply calm_emit; reflexivity].
      apply calm_for_loop. intros i u. calm_steps.
    + apply ends_with_bind. intros _ _. apply ends_with_emit.
  - unfold drawWaveForm. intros H.
    apply calm_frame_state; [ | | exact H].
    + cbv zeta. calm_steps.
      apply calm_for_loop. intros i u. calm_steps.
      destruct (i =? 0)%Z; apply calm_emit; reflexivity.
    + repeat (apply ends_with_bind; intros ?). intros _. apply ends_with_emit.
  - unfold drawSpectrum. cbv zeta. intros H.
    apply calm_frame_state; [ | | exact H].
    + apply calm_bind; [ | intros _; apply calm_emit; reflexivity].
      apply calm_for_loop. intros ring u. calm_steps.
      apply calm_for_loop. intros i u'.
      destruct (i =? 0)%Z; apply calm_emit; reflexivity.
    + apply ends_with_bind. intros _ _. apply ends_with_emit.
  - intros c0 c1 c2 before Hg. unfold glowColor.
    destruct (Z.ltb_spec 0 (glowIntensity (settings v))); [ | lia].
    split; reflexivity.
  - intros k before Hg. unfold glowColor.
    destruct (Z.ltb_spec 0 (glowIntensity (settings v))); [lia | reflexivity].
Qed.

End Leaks.

(* ------------------------------------------------------------------ *)
(** ** Which sample and which colour a bar gets *)

Section Indices.

Import JS Canvas Visualizer.
Local Open Scope Q_scope.
Local Open Scope string_scope.

Lemma scaled_index (i n len : Z) :
  (0 <= i < n)%Z ->
  floor (mul (div (of_Z i) (of_Z n)) (of_Z len)) = of_Z (i * len / n).
Proof.
  intros Hi. assert (Hn : (1 <= n)%Z) by lia.
  assert (E : inject_Z i / inject_Z n * inject_Z len
              == inject_Z (i * len) / inject_Z n).
  { rewrite inject_Z_mult. field. intros E. unfold Qeq in E. cbn in E. lia. }
  unfold div, mul, of_Z. rewrite (inject_Z_nonzero Hn). unfold floor, of_Z.
  rewrite (Qfloor_comp _ _ E), <- Zdiv_Qdiv. reflexivity.
Qed.

Lemma scaled_index_bounds (i n len : Z) :
  (0 <= i < n)%Z -> (0 < len)%Z -> (0 <= i * len / n < len)%Z.
Proof.
  intros Hi Hl. split; [apply Z.div_pos; nia | apply Z.div_lt_upper_bound; nia].
Qed.

Lemma scaled_index_increasing (i j n len : Z) :
  (0 <= i < j)%Z -> (j < n)%Z -> (n <= len)%Z ->
  (i * len / n < j * len / n)%Z.
Proof.
  intros Hij Hj Hn.
  assert (H : (i * len / n + 1 <= j * len / n)%Z).
  { rewrite <- (Z.div_add (i * len) 1 n) by lia.
    apply Z.div_le_mono; nia. }
  lia.
Qed.

Lemma barHeight_at_bin (v : Visualizer) (a : list Z) (i : Z) :
  dataArray v = Some a -> Z.of_nat (List.length a) = bufferLength v ->
  (0 <= i < barsToUse v)%Z ->
  exists x, nth_error a (Z.to_nat (i * bufferLength v / barsToUse v)) = Some x /\
            barHeight v i = Fin (inject_Z x * sensitivity (settings v)).
Proof.
  intros Ha Hlen Hi.
  assert (HL : (barsToUse v <= bufferLength v)%Z) by apply Z.le_min_r.
  assert (Hb : (0 <= i * bufferLength v / barsToUse v < bufferLength v)%Z)
    by (apply scaled_index_bounds; lia).
  destruct (nth_error a (Z.to_nat (i * bufferLength v / barsToUse v)))
    as [x | ] eqn:Ex.
  - exists x. split; [reflexivity | ].
    unfold barHeight, sample, dataIndex. rewrite Ha, scaled_index by exact Hi.
    unfold element. rewrite to_index_of_Z.
    destruct (Z.ltb_spec (i * bufferLength v / barsToUse v) 0); [lia | ].
    rewrite Ex. reflexivity.
  - apply nth_error_None in Ex. lia.
Qed.

(** X3.  Bar [i] of a frame reads the spectrum bin [i * bufferLength /
    barsToUse] (integer division).  That bin exists, the bins of different
    bars are different and increase with the bar, and with a data array of
    [bufferLength] entries the height of the bar is the entry of its bin
    times the sensitivity. *)
Theorem bars_read_distinct_bins (v : Visualizer) :
  let bin i := (i * bufferLength v / barsToUse v)%Z in
  (forall i, (0 <= i < barsToUse v)%Z ->
     dataIndex v i = of_Z (bin i) /\ (0 <= bin i < bufferLength v)%Z) /\
  (forall i j, (0 <= i < j)%Z -> (j < barsToUse v)%Z -> (bin i < bin j)%Z) /\
  (forall a i, dataArray v = Some a ->
     Z.of_nat (List.length a) = bufferLength v ->
     (0 <= i < barsToUse v)%Z ->
     exists x, nth_error a (Z.to_nat (bin i)) = Some x /\
               barHeight v i = Fin (inject_Z x * sensitivity (settings v))).
Proof.
  intros bin.
  assert (HL : (barsToUse v <= bufferLength v)%Z) by apply Z.le_min_r.
  assert (Hidx : forall i, (0 <= i < barsToUse v)%Z ->
            dataIndex v i = of_Z (bin i) /\ (0 <= bin i < bufferLength v)%Z).
  { intros i Hi. split.
    - unfold dataIndex. apply scaled_index. exact Hi.
    - apply scaled_index_bounds; lia. }
  split; [exact Hidx | split].
  - intros i j Hij Hj. apply scaled_index_increasing; lia.
  - intros a i Ha Hlen Hi. apply barHeight_at_bin; assumption.
Qed.

(** X4.  The solid and circle styles colour bar [i] with entry
    [i * length / barsToUse] of the scheme, which exists for every bar of
    the frame; the spectrum style strokes ring [r] of a three-colour scheme
    with colour [r]. *)
Theorem colour_indices_stay_in_scheme (v : Visualizer) :
  (forall (cs : list color) (i : Z),
     cs <> [] -> (0 <= i < barsToUse v)%Z ->
     let k := (i * Z.of_nat (List.length cs) / barsToUse v)%Z in
     (0 <= k < Z.of_nat (List.length cs))%Z /\
     exists c, nth_error cs (Z.to_nat k) = Some c /\
       bind (length_of (Arr cs)) (fun len => color_at (Arr cs) (colorIndex v i len))
       = ret (Some c)) /\
  (forall c0 c1 c2 : color,
     let ring r := bind (length_of (Arr [c0; c1; c2]))
                     (fun len => color_at (Arr [c0; c1; c2]) (rem (of_Z r) len)) in
     ring 0%Z = ret (Some c0) /\ ring 1%Z = ret (Some c1) /\
     ring 2%Z = ret (Some c2)).
Proof.
  split.
  - intros cs i Hcs Hi k.
    assert (Hlen : (0 < Z.of_nat (List.length cs))%Z).
    { destruct cs; [congruence | cbn [List.length]; lia]. }
    assert (Hk : (0 <= k < Z.of_nat (List.length cs))%Z)
      by (apply scaled_index_bounds; assumption).
    split; [exact Hk | ].
    destruct (nth_error cs (Z.to_nat k)) as [c | ] eqn:Ec.
    + exists c. split; [reflexivity | ].
      unfold length_of. rewrite bind_ret. unfold colorIndex.
      rewrite scaled_index by exact Hi. fold k.
      unfold color_at. rewrite to_index_of_Z.
      destruct (Z.ltb_spec k 0); [lia | ]. rewrite Ec. reflexivity.
    + apply nth_error_None in Ec. lia.
  - intros c0 c1 c2 ring. repeat split; reflexivity.
Qed.

(** X5.  A bar is a rectangle of the height asked for, from [x] to [x + w];
    it starts at the top edge under position top, is centred on the middle
    line under position center, and ends at the bottom edge otherwise.  The
    gradient of a gradient bar runs from the lower edge of the bar
    ([getYPosition]) to its upper edge. *)
Theorem bar_is_anchored (v : Visualizer) (x w h : Q) :
  exists r : rect,
    filled (trace (drawBarRect v (Fin x) (Fin w) (Fin h))) = [r] /\
    r_x0 r == x /\ r_x1 r == x + w /\ r_y1 r - r_y0 r == h /\
    (position (settings v) = "top" -> r_y0 r == 0) /\
    (position (settings v) = "center" ->
     r_y0 r + r_y1 r == inject_Z (canvas_height v)) /\
    (position (settings v) <> "top" -> position (settings v) <> "center" ->
     r_y1 r == inject_Z (canvas_height v)) /\
    exists lower upper,
      getYPosition v (Fin h) = Fin lower /\
      sub (getYPosition v (Fin h)) (Fin h) = Fin upper /\
      lower == r_y1 r /\ upper == r_y0 r.
Proof.
  unfold drawBarRect, getYPosition, height, of_Z.
  destruct (String.eqb (position (settings v)) "top") eqn:Et.
  - apply String.eqb_eq in Et.
    eexists. split; [reflexivity | ].
    cbn [r_x0 r_y0 r_x1 r_y1].
    refine (conj _ (conj _ (conj _ (conj _ (conj _ (conj _ _)))))).
    + reflexivity.
    + reflexivity.
    + ring.
    + intros _. reflexivity.
    + intros Hc. rewrite Et in Hc. discriminate Hc.
    + intros Hn. congruence.
    + exists h, (h + - h). cbn [sub add neg].
      refine (conj eq_refl (conj eq_refl (conj _ _))); ring.
  - apply String.eqb_neq in Et.
    destruct (String.eqb (position (settings v)) "center") eqn:Ec.
    + apply String.eqb_eq in Ec.
      unfold div, sub, add, neg. change (Qeq_bool 2 0) with false.
      eexists. split; [reflexivity | ].
      cbn [r_x0 r_y0 r_x1 r_y1].
      refine (conj _ (conj _ (conj _ (conj _ (conj _ (conj _ _)))))).
      * reflexivity.
      * reflexivity.
      * ring.
      * intros Hc. congruence.
      * intros _. field.
      * intros _ Hn. congruence.
      * eexists. eexists.
        refine (conj eq_refl (conj eq_refl (conj _ _))); field.
    + apply String.eqb_neq in Ec.
      unfold sub, add, neg.
      eexists. split; [reflexivity | ].
      cbn [r_x0 r_y0 r_x1 r_y1].
      refine (conj _ (conj _ (conj _ (conj _ (conj _ (conj _ _)))))).
      * reflexivity.
      * reflexivity.
      * ring.
      * intros Hc. congruence.
      * intros Hc. congruence.
      * intros _ _. ring.
      * eexists. eexists.
        refine (conj eq_refl (conj eq_refl (conj _ _))); ring.
Qed.

End Indices.

(* ------------------------------------------------------------------ *)
(** ** The samples a frame shows *)

Section Samples.

Import JS Canvas Visualizer.
Local Open Scope Q_scope.
Local Open Scope string_scope.

Variables Math_cos Math_sin : num -> num.
Variable Math_PI : num.

Lemma nth_error_fill (old fresh : list Z) (k : nat) :
  (k < List.length old)%nat -> (List.length old <= List.length fresh)%nat ->
  nth_error (fill old fresh) k = nth_error fresh k.
Proof.
  intros Hk Hl. unfold fill.
  rewrite skipn_all2 by exact Hl. rewrite app_nil_r.
  revert k fresh Hk Hl. induction old as [ | a old IH]; intros k fresh Hk Hl.
  - cbn in Hk. lia.
  - destruct fresh as [ | f fresh]; [cbn in Hl; lia | ].
    destruct k as [ | k]; [reflexivity | ].
    cbn [List.length firstn nth_error] in *. apply IH; lia.
Qed.

(** X6.  A computed frame shows the samples of its own repaint signal: the
    analyser's data are copied into the data array before [draw] runs, so
    that the height of bar [i] in the frame is the fresh sample of its bin
    times the sensitivity. *)
Theorem frame_shows_fresh_samples (v : Visualizer) (request : Z) (t : num)
    (fresh : list Z) (background : Draw unit) (onDraw : option (Draw unit))
    (a : list Z) :
  analyser v = true -> dataArray v = Some a ->
  Z.of_nat (List.length a) = bufferLength v ->
  (List.length a <= List.length fresh)%nat ->
  due v t = true ->
  exists u,
    snd (loop Math_cos Math_sin Math_PI v request t fresh background onDraw)
    = Some (draw Math_cos Math_sin Math_PI u background onDraw) /\
    settings u = settings v /\ barsToUse u = barsToUse v /\
    forall i, (0 <= i < barsToUse v)%Z ->
      exists x,
        nth_error fresh (Z.to_nat (i * bufferLength v / barsToUse v)) = Some x /\
        barHeight u i = Fin (inject_Z x * sensitivity (settings v)).
Proof.
  intros Han Ha Hlen Hfresh Hdue.
  unfold due in Hdue. apply negb_true_iff in Hdue.
  unfold loop. cbv zeta.
  cbn [lastFrameTime targetFrameInterval set_animationFrameId].
  rewrite Hdue. cbn [snd].
  unfold set_lastFrameTime, set_animationFrameId, set_dataArray.
  cbn [analyser dataArray canvas_width canvas_height audioContext bufferLength
       settings animationFrameId lastFrameTime targetFrameInterval
       animationFrame].
  rewrite Han, Ha. cbn [option_map].
  eexists. split; [reflexivity | ].
  split; [reflexivity | split; [reflexivity | ]].
  intros i Hi.
  match goal with
  | |- context [barHeight ?u i] => set (u0 := u)
  end.
  assert (Hu : dataArray u0 = Some (fill a fresh)) by reflexivity.
  assert (Hl : Z.of_nat (List.length (fill a fresh)) = bufferLength u0).
  { rewrite fill_length. exact Hlen. }
  destruct (@barHeight_at_bin u0 (fill a fresh) i Hu Hl Hi) as (x & Ex & Eh).
  exists x. split; [ | exact Eh].
  change (bufferLength u0) with (bufferLength v) in Ex.
  change (barsToUse u0) with (barsToUse v) in Ex.
  assert (HL : (barsToUse v <= bufferLength v)%Z) by apply Z.le_min_r.
  assert (Hb : (0 <= i * bufferLength v / barsToUse v < bufferLength v)%Z)
    by (apply scaled_index_bounds; lia).
  rewrite nth_error_fill in Ex; [exact Ex | lia | exact Hfresh].
Qed.

End Samples.

(* ------------------------------------------------------------------ *)
(** ** The wave and the samples of a frame *)

Section Wave.

Import JS Canvas Visualizer Path.
Local Open Scope Q_scope.
Local Open Scope string_scope.

Variables Math_cos Math_sin : num -> num.
Variable Math_PI : num.






End Wave.

(* ------------------------------------------------------------------ *)
(** ** Frames with data *)

Section Frames.

Import JS Canvas Visualizer Session.
Local Open Scope Q_scope.
Local Open Scope string_scope.

Variables Math_cos Math_sin : num -> num.
Variable Math_PI : num.

Lemma drawCircularBars_returns v colors :
  colors <> Null -> colors <> Undefined ->
  returns (drawCircularBars Math_cos Math_sin Math_PI v colors) = true.
Proof.
  intros Hn Hu. unfold drawCircularBars. cbv zeta.
  apply returns_bind_all; [apply glow_returns; assumption | intros _].
  apply returns_bind_all; [ | reflexivity].
  apply for_loop_returns. intros i s _.
  apply returns_bind_all; [apply length_of_returns; assumption | intros len].
  apply returns_bind_all; [apply color_at_returns; assumption | intros c].
  reflexivity.
Qed.

Lemma drawWaveForm_returns v colors :
  colors <> Null -> colors <> Undefined ->
  returns (drawWaveForm v colors) = true.
Proof.
  intros Hn Hu. unfold drawWaveForm.
  apply returns_bind_all; [apply glow_returns; assumption | intros _].
  apply returns_bind_all; [reflexivity | intros _].
  apply returns_bind_all; [apply color_at_returns; assumption | intros c].
  apply returns_bind_all; [reflexivity | intros _].
  apply returns_bind_all; [reflexivity | intros _]. cbv zeta.
  apply returns_bind_all; [ | reflexivity].
  apply for_loop_returns. intros i s _.
  apply returns_bind_all; [ | reflexivity].
  destruct (i =? 0)%Z; reflexivity.
Qed.

Lemma drawSpectrum_returns v colors :
  colors <> Null -> colors <> Undefined ->
  returns (drawSpectrum Math_cos Math_sin Math_PI v colors) = true.
Proof.
  intros Hn Hu. unfold drawSpectrum. cbv zeta.
  apply returns_bind_all; [apply glow_returns; assumption | intros _].
  apply returns_bind_all; [ | reflexivity].
  apply for_loop_returns. intros ring s _.
  apply returns_bind_all; [reflexivity | intros _].
  apply returns_bind_all.
  - apply for_loop_returns. intros i s' _. destruct (i =? 0)%Z; reflexivity.
  - intros _.
    apply returns_bind_all; [reflexivity | intros _].
    apply returns_bind_all; [apply length_of_returns; assumption | intros len].
    apply returns_bind_all; [apply color_at_returns; assumption | intros c].
    reflexivity.
Qed.

Lemma drawStyle_returns (v : Visualizer) :
  drawable v -> returns (drawStyle Math_cos Math_sin Math_PI v) = true.
Proof.
  intros Hd. destruct (getColorScheme_defined v) as [Hn Hu].
  unfold drawStyle. cbv zeta.
  destruct (String.eqb (barStyle (settings v)) "gradient") eqn:Eg.
  - destruct (Hd Eg) as [Hwf Ht].
    destruct (getColorScheme_triple v Ht) as (c0 & c1 & c2 & ->).
    apply drawGradientBars_returns. exact Hwf.
  - destruct (String.eqb _ "solid"); [apply drawSolidBars_returns; assumption | ].
    destruct (String.eqb _ "circle");
      [apply drawCircularBars_returns; assumption | ].
    destruct (String.eqb _ "wave"); [apply drawWaveForm_returns; assumption | ].
    destruct (String.eqb _ "spectrum");
      [apply drawSpectrum_returns; assumption | reflexivity].
Qed.

Lemma draw_returns (v : Visualizer) (bg : Draw unit) (od : option (Draw unit)) :
  drawable v -> returns bg = true ->
  match od with Some o => returns o = true | None => True end ->
  returns (draw Math_cos Math_sin Math_PI v bg od) = true.
Proof.
  intros Hd Hb Ho. unfold draw.
  apply returns_bind_all; [exact Hb | intros _].
  apply returns_bind_all; [apply drawStyle_returns; exact Hd | intros _].
  destruct od; [exact Ho | reflexivity].
Qed.

Lemma for_loop_returns_inv {S : Type} (body : Z -> S -> Draw S) (n : nat) :
  forall (lo : Z) (s : S),
    returns (for_loop n lo body s) = true ->
    forall i, (lo <= i < lo + Z.of_nat n)%Z ->
      exists s', returns (body i s') = true.
Proof.
  induction n as [ | n IH]; intros lo s Hr i Hi; [lia | ].
  cbn [for_loop] in Hr. apply returns_bind_inv in Hr.
  destruct Hr as (s1 & E1 & Hr).
  destruct (Z.eq_dec i lo) as [-> | Hne].
  - exists s. unfold returns. rewrite E1. reflexivity.
  - apply (IH (lo + 1)%Z s1 Hr). lia.
Qed.

Lemma applyMirrorMode_returns_inv (v : Visualizer) (f : num -> num -> Draw unit) :
  returns (applyMirrorMode v f) = true -> exists x d, returns (f x d) = true.
Proof.
  unfold applyMirrorMode. cbv zeta.
  destruct (String.eqb _ _); [ | destruct (String.eqb _ _)]; intros Hr.
  - apply returns_bind_inv in Hr. destruct Hr as ([] & _ & Hr).
    apply returns_bind_inv in Hr. destruct Hr as ([] & E & _).
    eexists. eexists. unfold returns. rewrite E. reflexivity.
  - apply returns_bind_inv in Hr. destruct Hr as ([] & E & _).
    eexists. eexists. unfold returns. rewrite E. reflexivity.
  - eauto.
Qed.

(** The gradient of a bar can be created only for a height that is a finite
    number. *)
Lemma gradient_needs_finite_height (v : Visualizer) (h : num) :
  (exists g, createLinearGradient (Fin 0) (getYPosition v h) (Fin 0)
               (sub (getYPosition v h) h) = Ok g) ->
  finite h.
Proof.
  intros [g E]. destruct h as [q | | | ]; [exists q; reflexivity | | | ];
    exfalso; revert E; unfold getYPosition, height, of_Z;
    (destruct (String.eqb _ _); [ | destruct (String.eqb _ _)]);
    unfold div, add, sub, neg; change (Qeq_bool 2 0) with false;
    cbn; discriminate.
Qed.

Lemma gradientBarsSet_returns_iff v (c0 c1 c2 : color) bw gap x d :
  returns (gradientBarsSet v (Arr [c0; c1; c2]) bw gap x d) = true <->
  forall i, (0 <= i < barsToUse v)%Z -> finite (barHeight v i).
Proof.
  unfold gradientBarsSet. split.
  - intros Hr i Hi. apply returns_bind_inv in Hr. destruct Hr as (s & E & _).
    match type of E with
    | outcome ?m = _ =>
        assert (Hl : returns m = true) by (unfold returns; rewrite E; reflexivity)
    end.
    destruct (@for_loop_returns_inv _ _ _ _ _ Hl i) as [s' Hb]; [lia | ].
    cbv zeta in Hb. apply returns_bind_inv in Hb.
    destruct Hb as (g & Eg & _).
    apply (gradient_needs_finite_height v). exists g. exact Eg.
  - intros Hfin. apply returns_bind_all; [ | reflexivity].
    apply for_loop_returns. intros i s Hi. cbv zeta.
    destruct (Hfin i) as [h Eh]; [lia | ].
    rewrite Eh. destruct (getYPosition_finite v h) as [y Ey]. rewrite Ey.
    repeat (erewrite returns_bind_ok by reflexivity).
    apply returns_bind_all; [apply drawBarRect_returns | reflexivity].
Qed.

Lemma drawGradientBars_returns_iff v (c0 c1 c2 : color) :
  returns (drawGradientBars v (Arr [c0; c1; c2])) = true <->
  forall i, (0 <= i < barsToUse v)%Z -> finite (barHeight v i).
Proof.
  unfold drawGradientBars.
  destruct (barLayout (width v) (barsToUse v)) as [bw gap]. split.
  - intros Hr. apply returns_bind_inv in Hr. destruct Hr as ([] & _ & Hr).
    apply returns_bind_inv in Hr. destruct Hr as ([] & E & _).
    assert (Hm : returns (applyMirrorMode v
                            (gradientBarsSet v (Arr [c0; c1; c2]) bw gap)) = true).
    { unfold returns. rewrite E. reflexivity. }
    apply applyMirrorMode_returns_inv in Hm. destruct Hm as (x & d & Hp).
    apply (gradientBarsSet_returns_iff v c0 c1 c2 bw gap x d). exact Hp.
  - intros Hfin.
    apply returns_bind_all; [apply glow_returns; discriminate | intros _].
    apply returns_bind_all; [ | reflexivity].
    apply applyMirrorMode_returns. intros x d.
    apply gradientBarsSet_returns_iff. exact Hfin.
Qed.

(** X8.  Which frames are drawn to the end.  The solid, circle, wave and
    spectrum styles, and an unknown style, run to their end for every theme
    and every data array.  Under the gradient style with a theme that is
    not an inherited property name, a frame that is drawn to the end has
    bars of finite height only, since [createLinearGradient] rejects any
    other; and with a theme other than rainbow, whose colours are literals
    of the source, a frame whose bars all have a finite height is drawn to
    the end.  [draw] runs to its end exactly when the style routine does,
    provided the background step and the overlay hook do. *)
Theorem style_returns_iff_heights_are_finite (v : Visualizer) :
  (barStyle (settings v) <> "gradient" ->
   returns (drawStyle Math_cos Math_sin Math_PI v) = true) /\
  (barStyle (settings v) = "gradient" ->
   assoc (colorTheme (settings v)) inherited = None ->
   (returns (drawStyle Math_cos Math_sin Math_PI v) = true ->
    forall i, (0 <= i < barsToUse v)%Z -> finite (barHeight v i)) /\
   (colorTheme (settings v) <> "rainbow" ->
    (forall i, (0 <= i < barsToUse v)%Z -> finite (barHeight v i)) ->
    returns (drawStyle Math_cos Math_sin Math_PI v) = true)) /\
  (forall (background : Draw unit) (onDraw : option (Draw unit)),
     returns background = true ->
     match onDraw with Some o => returns o = true | None => True end ->
     returns (draw Math_cos Math_sin Math_PI v background onDraw)
     = returns (drawStyle Math_cos Math_sin Math_PI v)).
Proof.
  split; [ | split].
  - intros Hs. apply drawStyle_returns. intros Eg.
    apply String.eqb_eq in Eg. contradiction.
  - intros Hs Ht. unfold drawStyle. cbv zeta.
    rewrite Hs. cbn [String.eqb Ascii.eqb Bool.eqb].
    destruct (getColorScheme_triple v Ht) as (c0 & c1 & c2 & ->).
    split; [ | intros _]; apply drawGradientBars_returns_iff.
  - intros bg od Hb Ho. unfold draw.
    rewrite returns_bind.
    destruct (outcome bg) as [[] | e] eqn:Eb;
      [ | unfold returns in Hb; rewrite Eb in Hb; discriminate Hb].
    rewrite returns_bind. unfold returns at 2.
    destruct (outcome (drawStyle Math_cos Math_sin Math_PI v)) as [[] | e];
      [ | reflexivity].
    destruct od; [exact Ho | reflexivity].
Qed.

(** *** Reachable states *)

Abbreviation perform := (Session.perform Math_cos Math_sin Math_PI).
Abbreviation history := (Session.history Math_cos Math_sin Math_PI).

(** The audio graph is absent, with no data array, or present with one of
    256 entries. *)
Lemma audio_shape_perform (v : Visualizer) (a : Action) :
  (audioContext v = false /\ dataArray v = None /\ bufferLength v = 0%Z) \/
  (audioContext v = true /\ bufferLength v = 256%Z /\
   exists d, dataArray v = Some d /\ List.length d = 256%nat) ->
  (audioContext (perform v a) = false /\ dataArray (perform v a) = None /\
   bufferLength (perform v a) = 0%Z) \/
  (audioContext (perform v a) = true /\ bufferLength (perform v a) = 256%Z /\
   exists d, dataArray (perform v a) = Some d /\ List.length d = 256%nat).
Proof.
  intros H. destruct a as [p | w h | | | | k]; cbn [Session.perform].
  - unfold updateSettings, updateCanvasSize.
    destruct (new_frameRate p) as [fr | ]; [destruct (truthy fr) | ];
      destruct (given (new_width p) || given (new_height p)); exact H.
  - exact H.
  - unfold setupAudio. destruct (audioContext v) eqn:Ea;
      [rewrite Ea; exact H | ].
    right. cbn. split; [reflexivity | split; [reflexivity | ]].
    exists (repeat 0%Z 256). split; [reflexivity | apply repeat_length].
  - unfold pause. destruct (animationFrameId v); exact H.
  - unfold stop. destruct (animationFrameId v); exact H.
  - unfold tick, loop. cbv zeta.
    destruct (ltb _ _); [exact H | ].
    cbn [fst].
    match goal with
    | |- context [if returns ?f then _ else _] => destruct (returns f)
    end;
    (destruct (analyser _); cbn;
     [ destruct H as [(Ha & Hd & Hb) | (Ha & Hb & d & Hd & Hl)];
       [ left; rewrite Hd; auto
       | right; rewrite Hd; cbn; split; [exact Ha | split; [exact Hb | ]];
         eexists; split; [reflexivity | rewrite fill_length; exact Hl] ]
     | exact H ]).
Qed.

Lemma audio_shape_history (l : list Action) :
  forall v,
    (audioContext v = false /\ dataArray v = None /\ bufferLength v = 0%Z) \/
    (audioContext v = true /\ bufferLength v = 256%Z /\
     exists d, dataArray v = Some d /\ List.length d = 256%nat) ->
    (audioContext (history v l) = false /\ dataArray (history v l) = None /\
     bufferLength (history v l) = 0%Z) \/
    (audioContext (history v l) = true /\ bufferLength (history v l) = 256%Z /\
     exists d, dataArray (history v l) = Some d /\ List.length d = 256%nat).
Proof.
  induction l as [ | a l IH]; intros v H; [exact H | ].
  cbn [Session.history fold_left]. apply IH. apply audio_shape_perform. exact H.
Qed.

(** X9.  Whatever is called on a visualizer after its construction, the
    audio graph is either absent, with no data array and a buffer length of
    0, or present with a data array of exactly 256 entries and a buffer
    length of 256.  So in every reachable state each bar of a frame reads
    an entry that the data array has. *)
Theorem reachable_states_keep_the_data_array (w h : Z) (l : list Action) :
  let v := history (constructor w h) l in
  ((audioContext v = false /\ dataArray v = None /\ bufferLength v = 0%Z) \/
   (audioContext v = true /\ bufferLength v = 256%Z /\
    exists d, dataArray v = Some d /\ List.length d = 256%nat)) /\
  well_formed v /\
  (forall d i, dataArray v = Some d -> (0 <= i < barsToUse v)%Z ->
     exists k x, dataIndex v i = of_Z k /\ (0 <= k < 256)%Z /\
                 nth_error d (Z.to_nat k) = Some x /\
                 element d (dataIndex v i) = of_Z x).
Proof.
  intros v.
  assert (Hs := @audio_shape_history l (constructor w h)
                  (or_introl (conj eq_refl (conj eq_refl eq_refl)))).
  fold v in Hs.
  assert (Hwf : well_formed v).
  { unfold well_formed.
    destruct Hs as [(_ & Hd & _) | (_ & Hb & d & Hd & Hl)]; rewrite Hd;
      [exact I | rewrite Hl, Hb; reflexivity]. }
  split; [exact Hs | split; [exact Hwf | ]].
  intros d i Hd Hi.
  destruct Hs as [(_ & Hn & _) | (_ & Hb & d' & Hd' & Hl)]; [congruence | ].
  assert (d' = d) by congruence. subst d'.
  destruct (dataIndex_in_range v Hi) as (k & Ek & Hk).
  rewrite Hb in Hk.
  destruct (nth_error d (Z.to_nat k)) as [x | ] eqn:Ex;
    [ | apply nth_error_None in Ex; lia].
  exists k, x. split; [exact Ek | split; [exact Hk | split; [exact Ex | ]]].
  rewrite Ek. unfold element. rewrite to_index_of_Z.
  destruct (Z.ltb_spec k 0); [lia | ]. rewrite Ex. reflexivity.
Qed.

End Frames.

(* ------------------------------------------------------------------ *)
(** ** The repaint loop over time *)

Section Pace.

Import JS Canvas Visualizer Session.
Local Open Scope Q_scope.
Local Open Scope string_scope.

Variables Math_cos Math_sin : num -> num.
Variable Math_PI : num.

Abbreviation loop := (Visualizer.loop Math_cos Math_sin Math_PI).
Abbreviation tick := (Visualizer.tick Math_cos Math_sin Math_PI).
Abbreviation decisions := (Visualizer.decisions Math_cos Math_sin Math_PI).
Abbreviation after := (Visualizer.after Math_cos Math_sin Math_PI).

Lemma loop_settings v request t fresh bg od :
  settings (fst (loop v request t fresh bg od)) = settings v.
Proof.
  unfold Visualizer.loop. cbv zeta.
  destruct (ltb _ _); [reflexivity | ]. cbn [fst].
  match goal with
  | |- context [if returns ?f then _ else _] => destruct (returns f)
  end; destruct (analyser _); reflexivity.
Qed.

Lemma loop_drawable v request t fresh bg od :
  drawable v -> drawable (fst (loop v request t fresh bg od)).
Proof.
  intros Hd. unfold drawable. rewrite loop_settings. intros Eg.
  destruct (Hd Eg) as [Hwf Ht]. split; [ | exact Ht].
  apply well_formed_loop. exact Hwf.
Qed.

Lemma loop_skips v request t fresh bg od :
  due v t = false ->
  loop v request t fresh bg od = (set_animationFrameId v (Some request), None).
Proof.
  unfold due, Visualizer.loop. cbv zeta. cbn [lastFrameTime targetFrameInterval set_animationFrameId].
  intros H. apply negb_false_iff in H. rewrite H. reflexivity.
Qed.

Lemma loop_frame_returns v request t fresh bg od :
  drawable v -> returns bg = true ->
  match od with Some o => returns o = true | None => True end ->
  match snd (loop v request t fresh bg od) with
  | Some frame => returns frame = true
  | None => True
  end.
Proof.
  intros Hd Hb Ho. unfold Visualizer.loop. cbv zeta.
  destruct (ltb _ _); cbn [snd]; [exact I | ].
  apply draw_returns; [ | exact Hb | exact Ho].
  unfold drawable, well_formed in *.
  destruct v as [cw chh ac an da bl s id lf tf af].
  unfold set_lastFrameTime, set_animationFrameId, set_dataArray.
  cbn [settings dataArray bufferLength analyser] in Hd |- *.
  intros Eg.
  assert (Eg' : String.eqb (barStyle s) "gradient" = true)
    by (destruct an; exact Eg).
  destruct (Hd Eg') as [Hwf Ht].
  destruct an; cbn [settings dataArray bufferLength analyser];
    (split; [ | exact Ht]); [ | exact Hwf].
  destruct da as [a | ]; cbn [option_map]; [ | exact I].
  rewrite fill_length. exact Hwf.
Qed.

Lemma loop_phase v request t fresh bg od :
  drawable v -> returns bg = true ->
  match od with Some o => returns o = true | None => True end ->
  animationFrame (fst (loop v request t fresh bg od)) =
  if due v t then animationFrame v + animationSpeed (settings v)
  else animationFrame v.
Proof.
  intros Hd Hb Ho.
  pose proof (@loop_frame_returns v request t fresh bg od Hd Hb Ho) as Hr.
  revert Hr. unfold due, Visualizer.loop. cbv zeta.
  cbn [lastFrameTime targetFrameInterval set_animationFrameId].
  destruct (ltb _ _); cbn [negb fst snd]; [reflexivity | ].
  intros Hr. rewrite Hr. destruct (analyser _); reflexivity.
Qed.

(** X10.  The animation phase counts the frames computed, not the repaint
    signals received: over any run of signals whose frames can be drawn, it
    grows by [animationSpeed] for each computed frame, and a skipped signal
    changes nothing but the handle of the pending request. *)
Theorem phase_counts_computed_frames (ks : list Tick) :
  forall v : Visualizer,
    (barStyle (settings v) = "gradient" ->
     well_formed v /\ assoc (colorTheme (settings v)) inherited = None) ->
    host_returns ks ->
    animationFrame (after v ks) ==
      animationFrame v
      + inject_Z (Z.of_nat (List.length (filter (fun d => d) (decisions v ks))))
        * animationSpeed (settings v) /\
    forall k, due v (timestamp k) = false ->
      fst (tick v k) = set_animationFrameId v (Some (request k)).
Proof.
  assert (Main : forall v, drawable v -> host_returns ks ->
            animationFrame (after v ks) ==
              animationFrame v
              + inject_Z (Z.of_nat
                  (List.length (filter (fun d => d) (decisions v ks))))
                * animationSpeed (settings v)).
  { induction ks as [ | k rest IH]; intros v Hd Hh.
    - cbn. ring.
    - inversion Hh as [ | k' rest' [Hb Ho] Hrest]; subst.
      unfold Visualizer.after in *. cbn [fold_left Visualizer.decisions].
      rewrite IH; [ | apply loop_drawable; exact Hd | exact Hrest].
      unfold Visualizer.tick at 1 3.
      rewrite (@loop_phase v (request k) (timestamp k) (fresh k) (background k)
                 (overlays k) Hd Hb Ho).
      rewrite loop_settings.
      unfold Visualizer.tick at 2. rewrite loop_decision.
      destruct (due v (timestamp k)); cbn [filter List.length].
      + rewrite Nat2Z.inj_succ. unfold Z.succ. rewrite inject_Z_plus. ring.
      + reflexivity. }
  intros v H Hh. split.
  - apply Main; [ | exact Hh]. intros Eg. apply H. apply String.eqb_eq. exact Eg.
  - intros k Hk. unfold Visualizer.tick. rewrite loop_skips by exact Hk.
    reflexivity.
Qed.

(** X11.  Frames are never computed faster than the target rate: with finite
    time stamps, each computed frame comes at least the target interval
    after the one before it, the first one after [lastFrameTime]. *)
Theorem frames_are_spaced (ks : list Tick) :
  forall (v : Visualizer) (last interval : Q),
    lastFrameTime v = Fin last ->
    targetFrameInterval v = Fin interval ->
    Forall finite (map timestamp ks) ->
    spaced interval last (computed (decisions v ks) (map timestamp ks)).
Proof.
  induction ks as [ | k rest IH]; intros v last interval Hl Hi Hf; [exact I | ].
  cbn [map Visualizer.decisions computed] in *.
  pose proof (Forall_inv Hf) as [q Hq]. pose proof (Forall_inv_tail Hf) as Hrest.
  unfold Visualizer.tick at 1. rewrite loop_decision.
  pose proof (@loop_lastFrameTime Math_cos Math_sin Math_PI v (request k)
                (timestamp k) (fresh k) (background k) (overlays k)) as Hl'.
  pose proof (@loop_targetFrameInterval Math_cos Math_sin Math_PI v (request k)
                (timestamp k) (fresh k) (background k) (overlays k)) as Hi'.
  fold (tick v k) in Hl', Hi'.
  destruct (due v (timestamp k)) eqn:Ed.
  - rewrite Hq. cbn [spaced]. split.
    + unfold due in Ed. rewrite Hl, Hi, Hq in Ed. apply gate_finite in Ed.
      exact Ed.
    + apply IH; [rewrite Hl'; exact Hq | rewrite Hi'; exact Hi | exact Hrest].
  - apply IH; [rewrite Hl'; exact Hl | rewrite Hi'; exact Hi | exact Hrest].
Qed.

(** X12.  The call [loop(0)] with which the application starts and resumes
    the animation draws nothing: with a last frame time that is not
    negative and a positive target interval it only registers the next
    repaint request. *)
Theorem kickoff_draws_nothing (v : Visualizer) (request : Z) (fresh : list Z)
    (background : Draw unit) (onDraw : option (Draw unit)) (last interval : Q) :
  lastFrameTime v = Fin last -> 0 <= last ->
  targetFrameInterval v = Fin interval -> 0 < interval ->
  loop v request (Fin 0) fresh background onDraw
  = (set_animationFrameId v (Some request), None).
Proof.
  intros Hl Hlast Hi Hint. apply loop_skips.
  unfold due. rewrite Hl, Hi.
  destruct (negb (ltb (sub (Fin 0) (Fin last)) (Fin interval))) eqn:E;
    [ | reflexivity].
  apply gate_finite in E. lra.
Qed.


Lemma or_keep_twice {A : Type} (new : option A) (old : A) :
  or_keep new (or_keep new old) = or_keep new old.
Proof.
  destruct new; reflexivity.
Qed.

Lemma merge_twice (s : Settings) (p : Partial) : merge (merge s p) p = merge s p.
Proof.
  unfold merge. cbn [barStyle sensitivity colorTheme animationSpeed position
                     barCount mirrorMode glowIntensity frameRate].
  rewrite !or_keep_twice. reflexivity.
Qed.

(** X14.  [updateSettings] touches only the settings, the target interval and
    the canvas size; an update without keys changes nothing; and applying
    the same update a second time changes nothing more. *)
Theorem updateSettings_is_local_and_idempotent (v : Visualizer) (p : Partial) :
  (dataArray (updateSettings v p) = dataArray v /\
   bufferLength (updateSettings v p) = bufferLength v /\
   audioContext (updateSettings v p) = audioContext v /\
   analyser (updateSettings v p) = analyser v /\
   animationFrame (updateSettings v p) = animationFrame v /\
   animationFrameId (updateSettings v p) = animationFrameId v) /\
  updateSettings v no_change = v /\
  updateSettings (updateSettings v p) p = updateSettings v p.
Proof.
  split; [ | split].
  - unfold updateSettings, updateCanvasSize.
    destruct (new_frameRate p) as [fr | ]; [destruct (truthy fr) | ];
      destruct (given (new_width p) || given (new_height p));
      repeat split; reflexivity.
  - destruct v as [cw chh ac an da bl s id lf tf af]. destruct s. reflexivity.
  - unfold updateSettings, updateCanvasSize.
    destruct (new_frameRate p) as [fr | ]; [destruct (truthy fr) | ];
      (destruct (given (new_width p)) eqn:Ew;
       destruct (given (new_height p)) eqn:Eh; cbn [orb];
       unfold set_canvas, set_settings, set_targetFrameInterval;
       cbn [canvas_width canvas_height audioContext analyser dataArray
            bufferLength settings animationFrameId lastFrameTime
            targetFrameInterval animationFrame];
       rewrite ?merge_twice, ?or_keep_twice; reflexivity).
Qed.

End Pace.

(* ------------------------------------------------------------------ *)
(** ** Download links under a stub sink *)

Section Links.

Import App Sink.
Local Open Scope nat_scope.

Lemma NoDup_snoc {A : Type} (l : list A) (x : A) :
  NoDup l -> ~ In x l -> NoDup (l ++ [x]).
Proof.
  intros Hl Hx. apply NoDup_rev in Hl.
  rewrite <- (rev_involutive (l ++ [x])). apply NoDup_rev.
  rewrite rev_app_distr. cbn. constructor; [ | exact Hl].
  rewrite <- in_rev. exact Hx.
Qed.

Lemma tags_below (n : nat) (dl : list Download) :
  Forall (fun d => clip d < n) dl -> ~ In n (map clip dl).
Proof.
  intros H Hin. apply in_map_iff in Hin. destruct Hin as (d & Hd & Hi).
  rewrite Forall_forall in H. specialize (H d Hi). lia.
Qed.

Lemma step_orderly (size : nat) (s : State) (op : Op) :
  consistent s -> orderly size s -> orderly size (step size s op).
Proof.
  intros [Hp Hr] (Hb & Hc & Hn & Hf).
  destruct s as [st n mr chunks t0 msg ph bt dl ef ar pl lp pend].
  cbn in Hp, Hr, Hb, Hc, Hn, Hf. subst pend bt chunks.
  assert (Hle : Forall (fun d => clip d <= n /\
                  fragments d = if (0 <? size) then [size] else []) dl).
  { eapply Forall_impl; [ | exact Hf]. cbn. intros d (H1 & _ & H3). auto. }
  assert (Hlt : st = recording -> Forall (fun d => clip d < n) dl).
  { intros E. eapply Forall_impl; [ | exact Hf]. cbn. intros d (_ & H2 & _). auto. }
  destruct op as [now h | | | ]; destruct st; cbn in Hr.
  all: try destruct h.
  all: try (destruct Hr as [m ->]).
  all: try (destruct Hr as [-> | [m ->]]).
  all: try specialize (Hlt eq_refl).
  all: unfold step, orderly, tags in *; cbn; destruct size; cbn.
  all: (split; [reflexivity | split; [reflexivity | split]]).
  all: rewrite ?map_app; cbn [map clip].
  all: try (apply NoDup_snoc; [exact Hn | apply tags_below; exact Hlt]).
  all: try exact Hn.
  all: rewrite ?Forall_app; repeat split.
  all: try (eapply Forall_impl; [ | exact Hf]; cbn; intros d (H1 & H2 & H3);
            try specialize (H2 eq_refl);
            repeat split; [lia | intros; try discriminate; lia | exact H3]).
  all: try (repeat constructor; cbn; try lia; try discriminate).
Qed.

Lemma run_orderly (size : nat) (ops : list Op) :
  forall s, consistent s -> orderly size s ->
            consistent (run size ops s) /\ orderly size (run size ops s).
Proof.
  induction ops as [ | op ops IH]; intros s Hc Ho; [split; assumption | ].
  cbn [run fold_left]. apply IH;
    [apply step_consistent; exact Hc | apply step_orderly; assumption].
Qed.

(** X15.  Under a stub sink, whatever requests are made from the page as
    loaded and whatever the host answers to a start: no two download links
    carry the same clip number, every link carries a number the counter has
    reached and exactly the fragment of its own segment, the buttons shown
    are those of the current state, and no fragment is left waiting. *)
Theorem downloads_never_share_a_name (size : nat) (ops : list Op) :
  let s := run size ops init in
  NoDup (tags s) /\
  Forall (fun d => clip d <= clipCounter s /\
                   fragments d = if (0 <? size) then [size] else [])
         (downloads s) /\
  buttons s = appState s /\
  recordedChunks s = [].
Proof.
  intros s.
  assert (Hi : orderly size init).
  { unfold orderly. cbn. repeat split; constructor. }
  destruct (@run_orderly size ops init init_consistent Hi)
    as (_ & Hb & Hc & Hn & Hf).
  fold s in Hb, Hc, Hn, Hf.
  split; [exact Hn | split; [ | split; [exact Hb | exact Hc]]].
  eapply Forall_impl; [ | exact Hf]. cbn. intros d (H1 & _ & H3). auto.
Qed.

End Links.

(* ------------------------------------------------------------------ *)
(** ** Recording format and clock *)

Section Clock.

Import JS Display.
Local Open Scope Q_scope.
Local Open Scope string_scope.

Lemma Qfloor_unique (z : Z) (q : Q) :
  inject_Z z <= q -> q < inject_Z (z + 1) -> Qfloor q = z.
Proof.
  intros Hlo Hhi.
  pose proof (Qfloor_resp_le _ _ Hlo) as H1. rewrite Qfloor_Z in H1.
  pose proof (Qfloor_le q) as H2.
  assert (H3 : inject_Z (Qfloor q) < inject_Z (z + 1)) by lra.
  rewrite <- Zlt_Qlt in H3. lia.
Qed.

Lemma Qfloor_minus_Z (q : Q) (k : Z) :
  Qfloor (q - inject_Z k) = (Qfloor q - k)%Z.
Proof.
  pose proof (Qfloor_le q) as Hlo. pose proof (Qlt_floor q) as Hhi.
  apply Qfloor_unique.
  - unfold Z.sub. rewrite inject_Z_plus, inject_Z_opp. lra.
  - replace (Qfloor q - k + 1)%Z with (Qfloor q + 1 + - k)%Z by lia.
    rewrite (inject_Z_plus (Qfloor q + 1)), inject_Z_opp. lra.
Qed.

(** X16.  While the clock does not run backwards, the recording clock shows
    the whole seconds elapsed since the start, split into minutes and
    seconds below 60. *)
Theorem clock_shows_elapsed_seconds (now startTime : Z) :
  (startTime <= now)%Z ->
  exists mins secs : Z,
    recordingTime now startTime = (of_Z mins, of_Z secs) /\
    (0 <= mins)%Z /\ (0 <= secs < 60)%Z /\
    (60 * mins + secs = (now - startTime) / 1000)%Z.
Proof.
  intros Hle. unfold recordingTime, elapsed, sub, neg, add, of_Z, div, rem.
  change (Qeq_bool 1000 0) with false. change (Qeq_bool 60 0) with false.
  cbv iota. unfold floor, of_Z.
  set (q := (inject_Z now + - inject_Z startTime) / 1000).
  assert (Hq : q == inject_Z (now - startTime) / inject_Z 1000).
  { unfold q, Z.sub. rewrite inject_Z_plus, inject_Z_opp. reflexivity. }
  assert (Hq0 : 0 <= q).
  { unfold q. apply Qle_shift_div_l; [reflexivity | ].
    rewrite <- inject_Z_opp, <- inject_Z_plus.
    setoid_replace (0 * 1000) with (inject_Z 0) by reflexivity.
    rewrite <- Zle_Qle. lia. }
  destruct (@Qrem_nonneg q 60 Hq0 eq_refl) as (Er & Hr0 & Hr60).
  exists (Qfloor (q / 60)), (Qfloor (Qrem q 60)).
  split; [reflexivity | ].
  assert (Hm : (0 <= Qfloor (q / 60))%Z).
  { assert (H : 0 <= q / 60) by (apply Qle_shift_div_l; [reflexivity | lra]).
    apply Qfloor_resp_le in H. exact H. }
  assert (Hs : Qfloor (Qrem q 60) = (Qfloor q - 60 * Qfloor (q / 60))%Z).
  { rewrite (Qfloor_comp _ _ Er).
    setoid_replace (q - 60 * inject_Z (Qfloor (q / 60)))
      with (q - inject_Z (60 * Qfloor (q / 60)))
      by (rewrite inject_Z_mult; reflexivity).
    apply Qfloor_minus_Z. }
  split; [exact Hm | split].
  - split.
    + apply Qfloor_resp_le in Hr0. exact Hr0.
    + pose proof (Qfloor_le (Qrem q 60)) as H.
      assert (H' : inject_Z (Qfloor (Qrem q 60)) < inject_Z 60) by
        (change (inject_Z 60) with 60; lra).
      rewrite <- Zlt_Qlt in H'. exact H'.
  - rewrite Hs, (Qfloor_comp _ _ Hq), <- Zdiv_Qdiv. lia.
Qed.

(** X17.  [getSupportedMimeType] returns the first of webm with VP9, webm and
    mp4 that the recorder supports, and the empty string only when it
    supports none of them. *)
Theorem first_supported_type_is_chosen (isTypeSupported : string -> bool) :
  let chosen := getSupportedMimeType isTypeSupported in
  (chosen = "" <-> forall t, In t types -> isTypeSupported t = false) /\
  (chosen <> "" ->
   exists before rest,
     types = (before ++ chosen :: rest)%list /\
     isTypeSupported chosen = true /\
     forall t, In t before -> isTypeSupported t = false).
Proof.
  unfold getSupportedMimeType, types. cbn [first_supported].
  destruct (isTypeSupported "video/webm;codecs=vp9") eqn:E1;
    [ | destruct (isTypeSupported "video/webm") eqn:E2;
        [ | destruct (isTypeSupported "video/mp4") eqn:E3]].
  - split.
    + split; [discriminate | ]. intros H.
      rewrite (H "video/webm;codecs=vp9") in E1; [discriminate | ].
      left. reflexivity.
    + intros _. exists [], ["video/webm"; "video/mp4"].
      split; [reflexivity | split; [exact E1 | intros t []]].
  - split.
    + split; [discriminate | ]. intros H.
      rewrite (H "video/webm") in E2; [discriminate | ].
      right. left. reflexivity.
    + intros _. exists ["video/webm;codecs=vp9"], ["video/mp4"].
      split; [reflexivity | split; [exact E2 | ]].
      intros t [<- | []]. exact E1.
  - split.
    + split; [discriminate | ]. intros H.
      rewrite (H "video/mp4") in E3; [discriminate | ].
      right. right. left. reflexivity.
    + intros _. exists ["video/webm;codecs=vp9"; "video/webm"], [].
      split; [reflexivity | split; [exact E3 | ]].
      intros t [<- | [<- | []]]; assumption.
  - split.
    + split; [ | reflexivity].
      intros _ t [<- | [<- | [<- | []]]]; assumption.
    + intros H. exfalso. apply H. reflexivity.
Qed.

End Clock.

(* ------------------------------------------------------------------ *)
(** ** Dragging overlays *)

Section Dragging.

Import Overlay.
Local Open Scope Q_scope.

Variable measureText : TextOverlay -> Q.

Abbreviation textHit := (Overlay.textHit measureText).
Abbreviation scanText := (Overlay.scanText measureText).
Abbreviation checkDragStart := (Overlay.checkDragStart measureText).

Lemma nth_error_update {A : Type} (f : A -> A) (l : list A) :
  forall i j,
    nth_error (update l i f) j =
    if Nat.eqb i j then option_map f (nth_error l j) else nth_error l j.
Proof.
  induction l as [ | a l IH]; intros i j.
  - cbn. destruct (Nat.eqb i j); destruct j; reflexivity.
  - destruct i as [ | i]; destruct j as [ | j]; cbn; try reflexivity.
    apply IH.
Qed.

Lemma scanText_finds (ts : list TextOverlay) (x y : Q) (n : nat) :
  match scanText ts n x y with
  | Some i =>
      (i < n)%nat /\
      (exists t, nth_error ts i = Some t /\ textHit t x y = true) /\
      forall j t, (i < j < n)%nat -> nth_error ts j = Some t ->
                  textHit t x y = false
  | None =>
      forall j t, (j < n)%nat -> nth_error ts j = Some t -> textHit t x y = false
  end.
Proof.
  induction n as [ | n IH]; cbn [Overlay.scanText].
  - intros j t Hj. lia.
  - destruct (nth_error ts n) as [t | ] eqn:En.
    + destruct (textHit t x y) eqn:Eh.
      * split; [lia | split; [eauto | intros j t' Hj; lia]].
      * destruct (scanText ts n x y) as [i | ].
        -- destruct IH as (Hi & Ht & Hrest).
           split; [lia | split; [exact Ht | ]].
           intros j t' Hj Ej.
           destruct (Nat.eq_dec j n) as [-> | Hne]; [congruence | ].
           apply (Hrest j t'); [lia | exact Ej].
        -- intros j t' Hj Ej.
           destruct (Nat.eq_dec j n) as [-> | Hne]; [congruence | ].
           apply (IH j t'); [lia | exact Ej].
    + destruct (scanText ts n x y) as [i | ].
      * destruct IH as (Hi & Ht & Hrest).
        split; [lia | split; [exact Ht | ]].
        intros j t' Hj Ej.
        destruct (Nat.eq_dec j n) as [-> | Hne]; [congruence | ].
        apply (Hrest j t'); [lia | exact Ej].
      * intros j t' Hj Ej.
        destruct (Nat.eq_dec j n) as [-> | Hne]; [congruence | ].
        apply (IH j t'); [lia | exact Ej].
Qed.

Lemma scanImages_finds (imgs : list (option Img)) (ss : list OverlaySetting)
    (x y : Q) (n : nat) :
  match scanImages imgs ss n x y with
  | Done (Some i) =>
      (i < n)%nat /\
      (exists img s, nth_error imgs i = Some (Some img) /\
                     nth_error ss i = Some s /\ imageHit img s x y = true) /\
      forall j img s, (i < j < n)%nat -> nth_error imgs j = Some (Some img) ->
                      nth_error ss j = Some s -> imageHit img s x y = false
  | Done None =>
      forall j img s, (j < n)%nat -> nth_error imgs j = Some (Some img) ->
                      nth_error ss j = Some s -> imageHit img s x y = false
  | TypeError =>
      exists j img, (j < n)%nat /\ nth_error imgs j = Some (Some img) /\
                    nth_error ss j = None
  end.
Proof.
  induction n as [ | n IH]; cbn [scanImages].
  - intros j img s Hj. lia.
  - assert (Skip :
      (forall img s, nth_error imgs n = Some (Some img) ->
                     nth_error ss n = Some s -> imageHit img s x y = false) ->
      match scanImages imgs ss n x y with
      | Done (Some i) =>
          (i < S n)%nat /\
          (exists img s, nth_error imgs i = Some (Some img) /\
                         nth_error ss i = Some s /\ imageHit img s x y = true) /\
          forall j img s, (i < j < S n)%nat ->
                          nth_error imgs j = Some (Some img) ->
                          nth_error ss j = Some s -> imageHit img s x y = false
      | Done None =>
          forall j img s, (j < S n)%nat -> nth_error imgs j = Some (Some img) ->
                          nth_error ss j = Some s -> imageHit img s x y = false
      | TypeError =>
          exists j img, (j < S n)%nat /\ nth_error imgs j = Some (Some img) /\
                        nth_error ss j = None
      end).
    { intros Hn. destruct (scanImages imgs ss n x y) as [[i | ] | ].
      - destruct IH as (Hi & Hex & Hrest).
        split; [lia | split; [exact Hex | ]].
        intros j img s Hj Ei Es.
        destruct (Nat.eq_dec j n) as [-> | Hne]; [eauto | ].
        apply (Hrest j img s); [lia | exact Ei | exact Es].
      - intros j img s Hj Ei Es.
        destruct (Nat.eq_dec j n) as [-> | Hne]; [eauto | ].
        apply (IH j img s); [lia | exact Ei | exact Es].
      - destruct IH as (j & img & Hj & Ei & Es).
        exists j, img. split; [lia | split; assumption]. }
    destruct (nth_error imgs n) as [[img | ] | ] eqn:En.
    + destruct (nth_error ss n) as [s | ] eqn:Es.
      * destruct (imageHit img s x y) eqn:Eh.
        -- split; [lia | split; [eauto | intros j img' s' Hj; lia]].
        -- apply Skip. intros img' s' Ei' Es'. congruence.
      * exists n, img. split; [lia | split; [exact En | exact Es]].
    + apply Skip. intros img s Ei. discriminate Ei.
    + apply Skip. intros img s Ei. discriminate Ei.
Qed.

(** X18.  A press picks the overlay on top: the text overlay of highest index
    that has content and whose box holds the point, and only when there is
    none the loaded image of highest index whose box holds the point.  A
    press that hits nothing changes nothing, and the handler throws only
    when a loaded image has no entry in [overlaySettings]. *)
Theorem press_picks_the_top_overlay (x y : Q) (p : Page) :
  match checkDragStart x y p with
  | Done p' =>
      (exists i t,
          activeTextOverlay p' = Some i /\
          nth_error (textOverlays p) i = Some t /\ textHit t x y = true /\
          (forall j t', (i < j)%nat -> nth_error (textOverlays p) j = Some t' ->
                        textHit t' x y = false) /\
          nth_error (textOverlays p') i = Some (grabText x y t) /\
          overlaySettings p' = overlaySettings p) \/
      (exists i img s,
          (forall j t', nth_error (textOverlays p) j = Some t' ->
                        textHit t' x y = false) /\
          activeOverlay p' = Some i /\
          nth_error (overlayImages p) i = Some (Some img) /\
          nth_error (overlaySettings p) i = Some s /\
          imageHit img s x y = true /\
          (forall j img' s', (i < j)%nat ->
             nth_error (overlayImages p) j = Some (Some img') ->
             nth_error (overlaySettings p) j = Some s' ->
             imageHit img' s' x y = false) /\
          nth_error (overlaySettings p') i = Some (grabImage x y s) /\
          textOverlays p' = textOverlays p) \/
      (p' = p /\
       (forall j t', nth_error (textOverlays p) j = Some t' ->
                     textHit t' x y = false) /\
       (forall j img s, nth_error (overlayImages p) j = Some (Some img) ->
                        nth_error (overlaySettings p) j = Some s ->
                        imageHit img s x y = false))
  | TypeError =>
      exists j img, nth_error (overlayImages p) j = Some (Some img) /\
                    nth_error (overlaySettings p) j = None
  end.
Proof.
  unfold Overlay.checkDragStart.
  pose proof (scanText_finds (textOverlays p) x y (List.length (textOverlays p)))
    as Ht.
  assert (Bt : forall j (t' : TextOverlay),
             nth_error (textOverlays p) j = Some t' ->
             (j < List.length (textOverlays p))%nat).
  { intros j t' E. apply nth_error_Some. congruence. }
  destruct (scanText (textOverlays p) (List.length (textOverlays p)) x y)
    as [i | ].
  - destruct Ht as (Hi & (t & Et & Eh) & Hrest).
    left. exists i, t. cbn [activeTextOverlay textOverlays overlaySettings].
    split; [reflexivity | split; [exact Et | split; [exact Eh | split]]].
    + intros j t' Hj Ej. apply (Hrest j t'); [ | exact Ej].
      split; [exact Hj | apply (Bt j t' Ej)].
    + split; [ | reflexivity].
      rewrite nth_error_update, Nat.eqb_refl, Et. reflexivity.
  - assert (Ht' : forall j t', nth_error (textOverlays p) j = Some t' ->
                               textHit t' x y = false).
    { intros j t' Ej. apply (Ht j t'); [apply (Bt j t' Ej) | exact Ej]. }
    pose proof (scanImages_finds (overlayImages p) (overlaySettings p) x y
                  (List.length (overlayImages p))) as Hs.
    assert (Bi : forall j (o : option Img),
               nth_error (overlayImages p) j = Some o ->
               (j < List.length (overlayImages p))%nat).
    { intros j o E. apply nth_error_Some. congruence. }
    destruct (scanImages (overlayImages p) (overlaySettings p)
                (List.length (overlayImages p)) x y) as [[i | ] | ].
    + destruct Hs as (Hi & (img & s & Ei & Es & Eh) & Hrest).
      right. left. exists i, img, s.
      cbn [activeOverlay textOverlays overlaySettings].
      split; [exact Ht' | split; [reflexivity | split; [exact Ei | ]]].
      split; [exact Es | split; [exact Eh | split]].
      * intros j img' s' Hj Ej Es'. apply (Hrest j img' s'); try assumption.
        split; [exact Hj | apply (Bi j _ Ej)].
      * split; [ | reflexivity].
        rewrite nth_error_update, Nat.eqb_refl, Es. reflexivity.
    + right. right. split; [reflexivity | split; [exact Ht' | ]].
      intros j img s Ej Es. apply (Hs j img s); try assumption.
      apply (Bi j _ Ej).
    + destruct Hs as (j & img & _ & Ej & Es). exists j, img. split; assumption.
Qed.

(** X19.  A dragged overlay follows the pointer: after a press at [(x, y)]
    made at rest, a move to [(x', y')] displaces the overlay that was picked
    by [(x' - x, y' - y)], asks for a redraw, and leaves every other overlay
    where it was; when the press picked nothing, the move does nothing. *)
Theorem drag_follows_pointer (x y x' y' : Q) (p p1 : Page) :
  at_rest p -> checkDragStart x y p = Done p1 ->
  match activeTextOverlay p1, activeOverlay p1 with
  | Some i, _ =>
      exists t p2,
        nth_error (textOverlays p) i = Some t /\
        handleDragMove x' y' p1 = Done (p2, true) /\
        (exists t2, nth_error (textOverlays p2) i = Some t2 /\
                    t_x t2 == t_x t + (x' - x) /\ t_y t2 == t_y t + (y' - y)) /\
        (forall j, j <> i ->
           nth_error (textOverlays p2) j = nth_error (textOverlays p) j) /\
        overlaySettings p2 = overlaySettings p
  | None, Some i =>
      exists s p2,
        nth_error (overlaySettings p) i = Some s /\
        handleDragMove x' y' p1 = Done (p2, true) /\
        (exists s2, nth_error (overlaySettings p2) i = Some s2 /\
                    s_x s2 == s_x s + (x' - x) /\ s_y s2 == s_y s + (y' - y)) /\
        (forall j, j <> i ->
           nth_error (overlaySettings p2) j = nth_error (overlaySettings p) j) /\
        textOverlays p2 = textOverlays p
  | None, None => p1 = p /\ handleDragMove x' y' p1 = Done (p1, false)
  end.
Proof.
  intros [Ha Hta] Hc. unfold Overlay.checkDragStart in Hc.
  pose proof (scanText_finds (textOverlays p) x y (List.length (textOverlays p)))
    as Ht.
  destruct (scanText (textOverlays p) (List.length (textOverlays p)) x y)
    as [i | ].
  - destruct Ht as (_ & (t & Et & _) & _).
    injection Hc as <-. cbn [activeTextOverlay activeOverlay].
    exists t. eexists. split; [exact Et | ].
    unfold handleDragMove. cbn [activeTextOverlay textOverlays].
    rewrite nth_error_update, Nat.eqb_refl, Et. cbn [option_map grabText t_isDragging].
    split; [reflexivity | ].
    cbn [textOverlays overlaySettings]. split; [ | split; [ | reflexivity]].
    + eexists. split.
      * rewrite !nth_error_update, Nat.eqb_refl, Et. reflexivity.
      * cbn. split; ring.
    + intros j Hj. rewrite !nth_error_update.
      destruct (Nat.eqb_spec i j); [congruence | reflexivity].
  - pose proof (scanImages_finds (overlayImages p) (overlaySettings p) x y
                  (List.length (overlayImages p))) as Hs.
    destruct (scanImages (overlayImages p) (overlaySettings p)
                (List.length (overlayImages p)) x y) as [[i | ] | ];
      [ | | discriminate Hc].
    + destruct Hs as (_ & (img & s & _ & Es & _) & _).
      injection Hc as <-. cbn [activeTextOverlay activeOverlay]. rewrite Hta.
      exists s. eexists. split; [exact Es | ].
      unfold handleDragMove.
      cbn [activeTextOverlay activeOverlay overlaySettings].
      rewrite nth_error_update, Nat.eqb_refl, Es.
      cbn [option_map grabImage s_isDragging].
      split; [reflexivity | ].
      cbn [textOverlays overlaySettings]. split; [ | split; [ | reflexivity]].
      * eexists. split.
        -- rewrite !nth_error_update, Nat.eqb_refl, Es. reflexivity.
        -- cbn. split; ring.
      * intros j Hj. rewrite !nth_error_update.
        destruct (Nat.eqb_spec i j); [congruence | reflexivity].
    + injection Hc as <-. rewrite Hta, Ha. split; [reflexivity | ].
      unfold handleDragMove. rewrite Hta, Ha. reflexivity.
Qed.

(** X20.  Releasing ends the drag: when [stopDrag] returns nothing is active
    any more, the overlay that was active no longer says it is dragged, no
    overlay has moved, and a later move of the pointer changes nothing and
    asks for no redraw. *)
Theorem release_ends_drag (p p' : Page) :
  stopDrag p = Done p' ->
  at_rest p' /\
  (forall i, activeTextOverlay p = Some i ->
     exists t, nth_error (textOverlays p') i = Some t /\ t_isDragging t = false) /\
  (forall i, activeOverlay p = Some i ->
     exists s, nth_error (overlaySettings p') i = Some s /\
               s_isDragging s = false) /\
  map (fun t => (t_x t, t_y t)) (textOverlays p')
  = map (fun t => (t_x t, t_y t)) (textOverlays p) /\
  map (fun s => (s_x s, s_y s)) (overlaySettings p')
  = map (fun s => (s_x s, s_y s)) (overlaySettings p) /\
  forall x y, handleDragMove x y p' = Done (p', false).
Proof.
  intros H. unfold stopDrag in H.
  assert (Mt : forall (l : list TextOverlay) i,
             map (fun t => (t_x t, t_y t)) (update l i dropText)
             = map (fun t => (t_x t, t_y t)) l).
  { induction l as [ | a l IH]; intros [ | i]; cbn; try reflexivity.
    rewrite IH. reflexivity. }
  assert (Ms : forall (l : list OverlaySetting) i,
             map (fun s => (s_x s, s_y s)) (update l i dropImage)
             = map (fun s => (s_x s, s_y s)) l).
  { induction l as [ | a l IH]; intros [ | i]; cbn; try reflexivity.
    rewrite IH. reflexivity. }
  destruct (activeTextOverlay p) as [i | ] eqn:Eat.
  - destruct (nth_error (textOverlays p) i) as [t | ] eqn:Et; [ | discriminate H].
    destruct (activeOverlay p) as [k | ] eqn:Eao.
    + destruct (nth_error (overlaySettings p) k) as [s | ] eqn:Es;
        [ | discriminate H].
      injection H as <-. cbn.
      split; [split; reflexivity | ].
      split; [intros i' [= <-]; exists (dropText t); split; [ | reflexivity];
              rewrite nth_error_update, Nat.eqb_refl, Et; reflexivity | ].
      split; [intros k' [= <-]; exists (dropImage s); split; [ | reflexivity];
              rewrite nth_error_update, Nat.eqb_refl, Es; reflexivity | ].
      split; [apply Mt | split; [apply Ms | reflexivity]].
    + injection H as <-. cbn.
      split; [split; reflexivity | ].
      split; [intros i' [= <-]; exists (dropText t); split; [ | reflexivity];
              rewrite nth_error_update, Nat.eqb_refl, Et; reflexivity | ].
      split; [intros k' Hk; discriminate Hk | ].
      split; [apply Mt | split; reflexivity].
  - destruct (activeOverlay p) as [k | ] eqn:Eao.
    + destruct (nth_error (overlaySettings p) k) as [s | ] eqn:Es;
        [ | discriminate H].
      injection H as <-. cbn.
      split; [split; reflexivity | ].
      split; [intros i' Hi; discriminate Hi | ].
      split; [intros k' [= <-]; exists (dropImage s); split; [ | reflexivity];
              rewrite nth_error_update, Nat.eqb_refl, Es; reflexivity | ].
      split; [reflexivity | split; [apply Ms | reflexivity]].
    + injection H as <-. cbn.
      split; [split; reflexivity | ].
      split; [intros i' Hi; discriminate Hi | ].
      split; [intros k' Hk; discriminate Hk | ].
      split; [reflexivity | split; reflexivity].
Qed.

End Dragging.

(* ------------------------------------------------------------------ *)
(** ** Instances of the further properties *)

Lemma background_is_cropped_to_cover_witness :
  exists c,
    Background.drawBackgroundOnly 1280 720 (Some (Background.Video 1000 1000 0 0))
    = Some c /\
    Background.covers c (inject_Z 1280) (inject_Z 720) (inject_Z 1000)
      (inject_Z 1000).
Proof.
  destruct (@background_is_cropped_to_cover 1280 720 1000 1000) as (H & _);
    [lia | lia | lia | lia | ].
  apply (H (Background.Video 1000 1000 0 0)); reflexivity.
Defined.

Lemma frame_resets_blur_and_transform_not_glow_colour_witness :
  let v := Visualizer.mkVisualizer 100 50 true true
             (Some [10; 20; 30; 40]%Z) 4
             (Visualizer.mkSettings "gradient" 1.5 "default" 1.0 "bottom" 64
                "horizontal" 8 (JS.VNum 30))
             None (JS.Fin 0) (JS.Fin (1000 / 30)) 0 in
  let s := CanvasState.mkState Canvas.identity 0
             (Canvas.Css "rgba(0, 0, 0, 0)") in
  CanvasState.run s []
    (Canvas.trace (Visualizer.drawGradientBars v (Visualizer.getColorScheme v)))
  = (CanvasState.mkState Canvas.identity 0
       (Canvas.Css "rgba(59, 130, 246, 0.8)"), []).
Proof.
  intros v s.
  destruct (@frame_resets_blur_and_transform_not_glow_colour (fun _ => JS.NaN)
              (fun _ => JS.NaN) JS.NaN v (Visualizer.getColorScheme v) s [])
    as (H & _).
  apply H. vm_compute. reflexivity.
Defined.

Lemma bars_read_distinct_bins_witness :
  let v := Visualizer.setupAudio (Visualizer.constructor 1280 720) in
  Visualizer.dataIndex v 3 = JS.of_Z (3 * 256 / 64) /\
  (0 <= 3 * 256 / 64 < 256)%Z.
Proof.
  intros v.
  destruct (@bars_read_distinct_bins v) as (H & _).
  apply (H 3%Z). unfold v, Visualizer.barsToUse. cbn. lia.
Defined.

Lemma colour_indices_stay_in_scheme_witness :
  let v := Visualizer.setupAudio (Visualizer.constructor 1280 720) in
  let cs := [Canvas.Css "red"; Canvas.Css "green"; Canvas.Css "blue"] in
  (0 <= 40 * 3 / 64 < 3)%Z /\
  exists c, nth_error cs (Z.to_nat (40 * 3 / 64)) = Some c /\
    Canvas.bind (Visualizer.length_of (Visualizer.Arr cs))
      (fun len => Visualizer.color_at (Visualizer.Arr cs)
                    (Visualizer.colorIndex v 40 len))
    = Canvas.ret (Some c).
Proof.
  intros v cs.
  destruct (@colour_indices_stay_in_scheme v) as (H & _).
  apply (H cs 40%Z); [discriminate | ].
  unfold v, Visualizer.barsToUse. cbn. lia.
Defined.

Lemma bar_is_anchored_witness :
  let v := Visualizer.constructor 1280 720 in
  exists r : Canvas.rect,
    Canvas.filled
      (Canvas.trace (Visualizer.drawBarRect v (JS.Fin 0) (JS.Fin 16) (JS.Fin 100)))
    = [r] /\
    (Canvas.r_y1 r == inject_Z 720)%Q.
Proof.
  intros v.
  destruct (@bar_is_anchored v 0 16 100)
    as (r & E & _ & _ & _ & _ & _ & Hb & _).
  exists r. split; [exact E | ].
  apply Hb; discriminate.
Defined.

Lemma style_returns_iff_heights_are_finite_witness :
  let v := Visualizer.mkVisualizer 100 50 true true
             (Some [10; 20; 30; 40]%Z) 4
             (Visualizer.mkSettings "gradient" 1.5 "fire" 1.0 "top" 64
                "vertical" 8 (JS.VNum 30))
             None (JS.Fin 0) (JS.Fin (1000 / 30)) 0 in
  let short := Visualizer.set_dataArray v (Some [10; 20]%Z) in
  Canvas.returns
    (Visualizer.drawStyle (fun _ => JS.NaN) (fun _ => JS.NaN) JS.NaN v) = true /\
  (forall i, (0 <= i < Visualizer.barsToUse v)%Z ->
             JS.finite (Visualizer.barHeight v i)) /\
  ~ (forall i, (0 <= i < Visualizer.barsToUse short)%Z ->
               JS.finite (Visualizer.barHeight short i)).
Proof.
  intros v short.
  destruct (@style_returns_iff_heights_are_finite (fun _ => JS.NaN)
              (fun _ => JS.NaN) JS.NaN v) as (_ & H & _).
  destruct (@style_returns_iff_heights_are_finite (fun _ => JS.NaN)
              (fun _ => JS.NaN) JS.NaN short) as (_ & H' & _).
  assert (Hv : Canvas.returns
                 (Visualizer.drawStyle (fun _ => JS.NaN) (fun _ => JS.NaN)
                    JS.NaN v) = true) by (vm_compute; reflexivity).
  split; [exact Hv | split].
  - apply (proj1 (H eq_refl eq_refl)). exact Hv.
  - intros Hfin.
    assert (Hr := proj2 (H' eq_refl eq_refl)
                    ltac:(intros E; discriminate E) Hfin).
    vm_compute in Hr. discriminate Hr.
Defined.

Lemma reachable_states_keep_the_data_array_witness :
  let fire :=
    Visualizer.mkPartial None None (Some "fire"%string) None None None None None
      None None None in
  let v := Session.history (fun _ => JS.NaN) (fun _ => JS.NaN) JS.NaN
             (Visualizer.constructor 1280 720)
             [Session.SetupAudio; Session.UpdateSettings fire;
              Session.Loop (Visualizer.mkTick 1 (JS.Fin 40) [200; 100; 50]%Z
                              (Canvas.ret tt) None);
              Session.Pause] in
  exists d k x,
    Visualizer.dataArray v = Some d /\
    Visualizer.dataIndex v 3 = JS.of_Z k /\ (0 <= k < 256)%Z /\
    nth_error d (Z.to_nat k) = Some x /\
    Visualizer.element d (Visualizer.dataIndex v 3) = JS.of_Z x.
Proof.
  intros fire v.
  destruct (@reachable_states_keep_the_data_array (fun _ => JS.NaN)
              (fun _ => JS.NaN) JS.NaN 1280 720
              [Session.SetupAudio; Session.UpdateSettings fire;
               Session.Loop (Visualizer.mkTick 1 (JS.Fin 40) [200; 100; 50]%Z
                               (Canvas.ret tt) None);
               Session.Pause]) as ([(_ & Hn & _) | (_ & _ & d & Hd & _)] & _ & H).
  - exfalso. fold v in Hn. vm_compute in Hn. discriminate Hn.
  - fold v in Hd, H. destruct (H d 3%Z Hd) as (k & x & H1 & H2 & H3 & H4).
    + vm_compute. split; [discriminate | reflexivity].
    + exists d, k, x. repeat split; assumption || apply H2.
Defined.

Lemma phase_counts_computed_frames_witness :
  let v := Visualizer.constructor 1280 720 in
  (Visualizer.animationFrame
     (Visualizer.after (fun _ => JS.NaN) (fun _ => JS.NaN) JS.NaN v
        Visualizer.four_ticks)
   == Visualizer.animationFrame v
      + inject_Z (Z.of_nat (List.length
          (filter (fun d => d)
             (Visualizer.decisions (fun _ => JS.NaN) (fun _ => JS.NaN) JS.NaN v
                Visualizer.four_ticks))))
        * Visualizer.animationSpeed (Visualizer.settings v))%Q.
Proof.
  intros v.
  destruct (@phase_counts_computed_frames (fun _ => JS.NaN) (fun _ => JS.NaN)
              JS.NaN Visualizer.four_ticks v) as (H & _).
  - intros _. split; reflexivity.
  - repeat constructor.
  - exact H.
Defined.

Lemma frames_are_spaced_witness :
  let v := Visualizer.constructor 1280 720 in
  Session.spaced (1000 / 30) 0
    (Session.computed
       (Visualizer.decisions (fun _ => JS.NaN) (fun _ => JS.NaN) JS.NaN v
          Visualizer.four_ticks)
       (map Visualizer.timestamp Visualizer.four_ticks)).
Proof.
  intros v.
  apply (@frames_are_spaced (fun _ => JS.NaN) (fun _ => JS.NaN) JS.NaN
           Visualizer.four_ticks v 0 (1000 / 30));
    [reflexivity | reflexivity | ].
  repeat constructor; eexists; reflexivity.
Defined.

Lemma kickoff_draws_nothing_witness :
  let v := Visualizer.setupAudio (Visualizer.constructor 1280 720) in
  Visualizer.loop (fun _ => JS.NaN) (fun _ => JS.NaN) JS.NaN v 7 (JS.Fin 0)
    [1; 2; 3]%Z (Canvas.ret tt) None
  = (Visualizer.set_animationFrameId v (Some 7%Z), None).
Proof.
  intros v.
  apply (@kickoff_draws_nothing (fun _ => JS.NaN) (fun _ => JS.NaN) JS.NaN v 7
           [1; 2; 3]%Z (Canvas.ret tt) None 0 (1000 / 30));
    [reflexivity | unfold Qle; cbn; lia | reflexivity | unfold Qlt; cbn; lia].
Defined.


Lemma press_picks_the_top_overlay_witness :
  let title :=
    Overlay.mkText "Title" 100 100 32 "#ffffff" "Inter" "normal" true false
      (Overlay.mkOffset 0 0) in
  let p := Overlay.mkPage [Some (Overlay.mkImg 400 400)]
             [Overlay.mkSetting 100 50 50 80 false (Overlay.mkOffset 0 0)]
             [title; title] None None "default" in
  exists t,
    nth_error (Overlay.textOverlays p) 1 = Some t /\
    Overlay.textHit (fun _ => 80%Q) t 110 90 = true.
Proof.
  intros title p.
  pose proof (@press_picks_the_top_overlay (fun _ => 80%Q) 110 90 p) as H.
  change (Overlay.checkDragStart (fun _ => 80%Q) 110 90 p)
    with (Overlay.Done
            (Overlay.mkPage (Overlay.overlayImages p) (Overlay.overlaySettings p)
               (Overlay.update (Overlay.textOverlays p) 1
                  (Overlay.grabText 110 90))
               (Overlay.activeOverlay p) (Some 1%nat) "grabbing")) in H.
  cbv iota in H.
  destruct H as [(i & t & Ha & Ht & Hh & _)
                | [(i & img & s & Hno & _) | (_ & Hno & _)]].
  - injection Ha as <-. exists t. split; [exact Ht | exact Hh].
  - discriminate (Hno 1%nat title eq_refl).
  - discriminate (Hno 1%nat title eq_refl).
Defined.

Lemma drag_follows_pointer_witness :
  let title :=
    Overlay.mkText "Title" 100 100 32 "#ffffff" "Inter" "normal" true false
      (Overlay.mkOffset 0 0) in
  let p := Overlay.mkPage [] [] [title] None None "default" in
  let p1 := Overlay.mkPage [] []
              [Overlay.grabText 110 90 title] None (Some 0%nat) "grabbing" in
  exists t p2,
    nth_error (Overlay.textOverlays p) 0 = Some t /\
    Overlay.handleDragMove 210 140 p1 = Overlay.Done (p2, true) /\
    (exists t2, nth_error (Overlay.textOverlays p2) 0 = Some t2 /\
                (Overlay.t_x t2 == Overlay.t_x t + (210 - 110))%Q /\
                (Overlay.t_y t2 == Overlay.t_y t + (140 - 90))%Q) /\
    (forall j, j <> 0%nat ->
       nth_error (Overlay.textOverlays p2) j
       = nth_error (Overlay.textOverlays p) j) /\
    Overlay.overlaySettings p2 = Overlay.overlaySettings p.
Proof.
  intros title p p1.
  exact (@drag_follows_pointer (fun _ => 80%Q) 110 90 210 140 p p1
           (conj eq_refl eq_refl) eq_refl).
Defined.

Lemma release_ends_drag_witness :
  let title :=
    Overlay.mkText "Title" 100 100 32 "#ffffff" "Inter" "normal" true true
      (Overlay.mkOffset 10 (-10)) in
  let p := Overlay.mkPage [] [] [title] None (Some 0%nat) "grabbing" in
  let p' := Overlay.mkPage [] [] [Overlay.dropText title] None None "default" in
  Overlay.at_rest p' /\
  forall x y, Overlay.handleDragMove x y p' = Overlay.Done (p', false).
Proof.
  intros title p p'.
  destruct (@release_ends_drag p p' eq_refl) as (H1 & _ & _ & _ & _ & H2).
  split; [exact H1 | exact H2].
Defined.

Lemma clock_shows_elapsed_seconds_witness :
  exists mins secs : Z,
    Display.recordingTime 125000 0 = (JS.of_Z mins, JS.of_Z secs) /\
    (0 <= mins)%Z /\ (0 <= secs < 60)%Z /\
    (60 * mins + secs = (125000 - 0) / 1000)%Z.
Proof.
  apply (@clock_shows_elapsed_seconds 125000 0). lia.
Defined.

Lemma first_supported_type_is_chosen_witness :
  let isTypeSupported := String.eqb "video/mp4" in
  exists before rest,
    Display.types = (before ++ "video/mp4"%string :: rest)%list /\
    isTypeSupported "video/mp4"%string = true /\
    forall t, In t before -> isTypeSupported t = false.
Proof.
  intros isTypeSupported.
  destruct (@first_supported_type_is_chosen isTypeSupported) as (_ & H).
  apply H. discriminate.
Defined.

Lemma frame_shows_fresh_samples_witness :
  let v := Visualizer.mkVisualizer 100 50 true true (Some [0; 0; 0; 0]%Z) 4
             Visualizer.default_settings None (JS.Fin 0) (JS.Fin (1000 / 30)) 0 in
  exists u,
    snd (Visualizer.loop (fun _ => JS.NaN) (fun _ => JS.NaN) JS.NaN v 1
           (JS.Fin 40) [10; 20; 30; 40]%Z (Canvas.ret tt) None)
    = Some (Visualizer.draw (fun _ => JS.NaN) (fun _ => JS.NaN) JS.NaN u
              (Canvas.ret tt) None) /\
    Visualizer.settings u = Visualizer.settings v /\
    Visualizer.barsToUse u = Visualizer.barsToUse v /\
    forall i, (0 <= i < Visualizer.barsToUse v)%Z ->
      exists x,
        nth_error [10; 20; 30; 40]%Z
          (Z.to_nat (i * Visualizer.bufferLength v / Visualizer.barsToUse v))
        = Some x /\
        Visualizer.barHeight u i
        = JS.Fin (inject_Z x * Visualizer.sensitivity (Visualizer.settings v)).
Proof.
  intros v.
  apply (@frame_shows_fresh_samples (fun _ => JS.NaN) (fun _ => JS.NaN) JS.NaN
           v 1 (JS.Fin 40) [10; 20; 30; 40]%Z (Canvas.ret tt) None
           [0; 0; 0; 0]%Z);
    [reflexivity | reflexivity | reflexivity | cbn; lia | reflexivity].
Defined.

